(** * pkger: state model, dry run and apply/rollback coordinator

    A shallow embedding of [pkger/service.go] and [pkger/service_models.go]
    (the state coordinator, the dry-run engine, the apply/rollback
    coordinator and the stack rewrite), together with the properties the
    specification states about them.

    Conventions of the embedding.
    - [influxdb.ID] is an unsigned 64-bit integer: it is only ever compared
      (with [0] and with other ids), so it is modelled by [N].
    - A Go [map[string]*T] is a [gmap string T]; the pointer to a record that
      lives in such a map is modelled by its key.
    - A nil-able pointer or interface value is an [option].
    - Errors are values of the inductive type [error]; a Go result pair
      [(v, err)] is a sum [error + V]. *)

From stdpp Require Import gmap strings list fin_maps.

Open Scope string_scope.

(** ** Identifiers, kinds and statuses *)

Definition influxdb_ID : Type := N.

(** [pkger.Kind] and [pkger.StateStatus] are string types.  Their constants
    are declared in the parser half of the package, which is outside the
    sources at hand; they are spelled here with the values the package
    uses on the wire. *)
Definition Kind : Type := string.

Definition KindUnknown : Kind := "".
Definition KindBucket : Kind := "Bucket".
Definition KindCheck : Kind := "Check".
Definition KindCheckDeadman : Kind := "CheckDeadman".
Definition KindCheckThreshold : Kind := "CheckThreshold".
Definition KindDashboard : Kind := "Dashboard".
Definition KindLabel : Kind := "Label".
Definition KindNotificationEndpoint : Kind := "NotificationEndpoint".
Definition KindNotificationEndpointHTTP : Kind := "NotificationEndpointHTTP".
Definition KindNotificationEndpointPagerDuty : Kind := "NotificationEndpointPagerDuty".
Definition KindNotificationEndpointSlack : Kind := "NotificationEndpointSlack".
Definition KindNotificationRule : Kind := "NotificationRule".
Definition KindTask : Kind := "Task".
Definition KindTelegraf : Kind := "Telegraf".
Definition KindVariable : Kind := "Variable".

Definition StateStatus : Type := string.

Definition StateStatusExists : StateStatus := "exists".
Definition StateStatusNew : StateStatus := "new".
Definition StateStatusRemove : StateStatus := "remove".

(** [==] on Go strings. *)
Definition str_eq (a b : string) : bool := bool_decide (a = b).

(** IsNew identifies state status as new to the platform; the zero value
    is defaulted to new. *)
Definition IsNew (status : StateStatus) : bool :=
  str_eq status StateStatusNew || str_eq status "".

(** IsExisting identifies state status as existing in the platform. *)
Definition IsExisting (status : StateStatus) : bool :=
  str_eq status StateStatusExists.

(** IsRemoval identifies state status as existing resource that will be
    removed from the platform. *)
Definition IsRemoval (status : StateStatus) : bool :=
  str_eq status StateStatusRemove.

(** ** Errors *)

Definition EInternal : string := "internal error".
Definition ENotFound : string := "not found".
Definition EUnprocessableEntity : string := "unprocessable entity".

Record applyErrBody := ApplyErrBody { name : string; msg : string }.

(** Go [error] values, kept structured: the format string of a
    [fmt.Errorf]/[errors.New] is stored with its arguments instead of being
    rendered ([ErrErrorf] when the format wraps a cause with [%w]), and an
    [influxdb.Error] is stored with its code and either its [Msg] or its
    [Err]. *)
Inductive error : Type :=
| ErrNew (format : string) (args : list string)
| ErrInfluxMsg (code : string) (message : string)
| ErrInfluxErr (code : string) (cause : error)
| ErrWrap (cause : error) (message : string)
| ErrErrorf (format : string) (args : list string) (cause : error)
| ErrApply (mErrs : list (string * list applyErrBody)).

(** [influxdb.ErrorCode]: the code of an [influxdb.Error], [EInternal] for
    any other error. *)
Definition ErrorCode (e : error) : string :=
  match e with
  | ErrInfluxMsg code _ | ErrInfluxErr code _ => code
  | _ => EInternal
  end.

Definition toInfluxError (code message : string) : error :=
  ErrInfluxMsg code message.

(** [err.Error()].  The text is only ever stored in other errors; it is
    rendered here without Go's verb formatting. *)
Fixpoint Error_string (e : error) : string :=
  match e with
  | ErrNew f args => String.concat " " (f :: args)
  | ErrInfluxMsg _ m => m
  | ErrInfluxErr _ c => Error_string c
  | ErrWrap c m => m ++ ": " ++ Error_string c
  | ErrErrorf f args c => String.concat " " (f :: args) ++ ": " ++ Error_string c
  | ErrApply _ => "failed to apply resource"
  end.

Definition failedValidationErr (err : option error) : option error :=
  match err with
  | None => None
  | Some e => Some (ErrInfluxErr EUnprocessableEntity e)
  end.

Definition internalErr (err : option error) : option error :=
  match err with
  | None => None
  | Some e => Some (toInfluxError EInternal (Error_string e))
  end.

(** [ierrors.Wrap(err, msg)]: nil stays nil. *)
Definition Wrap (err : option error) (message : string) : option error :=
  match err with
  | None => None
  | Some e => Some (ErrWrap e message)
  end.

(** ** Platform resources (package [influxdb])

    The resource services exchange these values.  Only the fields the
    package engine reads or writes are kept. *)

Definition Duration : Type := Z.
Definition Time : Type := Z.

Record Bucket := mkBucket {
  Bucket_ID : influxdb_ID;
  Bucket_OrgID : influxdb_ID;
  Bucket_Name : string;
  Bucket_Description : string;
  Bucket_RetentionPeriod : Duration }.

Record Check := mkCheck {
  Check_ID : influxdb_ID;
  Check_OrgID : influxdb_ID;
  Check_OwnerID : influxdb_ID;
  Check_Name : string;
  Check_Description : string }.

Record Dashboard := mkDashboard {
  Dashboard_ID : influxdb_ID;
  Dashboard_OrganizationID : influxdb_ID;
  Dashboard_Name : string;
  Dashboard_Description : string }.

Record Label := mkLabel {
  Label_ID : influxdb_ID;
  Label_OrgID : influxdb_ID;
  Label_Name : string;
  Label_Properties : gmap string string }.

Record NotificationEndpoint := mkNotificationEndpoint {
  Endpoint_ID : influxdb_ID;
  Endpoint_OrgID : influxdb_ID;
  Endpoint_Name : string }.

Record NotificationRule := mkNotificationRule {
  Rule_ID : influxdb_ID;
  Rule_OrgID : influxdb_ID;
  Rule_OwnerID : influxdb_ID;
  Rule_Name : string;
  Rule_EndpointID : influxdb_ID }.

Record Task := mkTask {
  Task_ID : influxdb_ID;
  Task_OrganizationID : influxdb_ID;
  Task_Name : string;
  Task_Description : string }.

Record TelegrafConfig := mkTelegrafConfig {
  Telegraf_ID : influxdb_ID;
  Telegraf_OrgID : influxdb_ID;
  Telegraf_Name : string }.

Record VariableArguments := mkVariableArguments {
  Arguments_Type : string;
  Arguments_Values : list string }.

(* [influxdb.Variable]; the bare name is a vernacular keyword. *)
Record InfluxVariable := mkVariable {
  Variable_ID : influxdb_ID;
  Variable_OrganizationID : influxdb_ID;
  Variable_Name : string;
  Variable_Description : string;
  Variable_Arguments : option VariableArguments }.

(** The [ID] field, or the [GetID()] method of the interface-typed
    resources. *)
Class HasID (E : Type) := GetID : E → influxdb_ID.

#[export] Instance Bucket_HasID : HasID Bucket := Bucket_ID.
#[export] Instance Check_HasID : HasID Check := Check_ID.
#[export] Instance Dashboard_HasID : HasID Dashboard := Dashboard_ID.
#[export] Instance Label_HasID : HasID Label := Label_ID.
#[export] Instance NotificationEndpoint_HasID : HasID NotificationEndpoint := Endpoint_ID.
#[export] Instance NotificationRule_HasID : HasID NotificationRule := Rule_ID.
#[export] Instance Task_HasID : HasID Task := Task_ID.
#[export] Instance TelegrafConfig_HasID : HasID TelegrafConfig := Telegraf_ID.
#[export] Instance Variable_HasID : HasID InfluxVariable := Variable_ID.

#[export] Instance VariableArguments_eq_dec : EqDecision VariableArguments.
Proof. solve_decision. Defined.
#[export] Instance Check_eq_dec : EqDecision Check.
Proof. solve_decision. Defined.

(** ** Parsed package objects

    The parsed object graph is produced by the parser half of the package.
    A parsed object is modelled by what the engine reads from it: its
    identity (the package-local name returned by [PkgName()] and the display
    name returned by [Name()]), the fields it compares or sends to a
    service, and its label associations. *)

Record identity := mkIdentity { PkgName : string; Name : string }.

(** [identity{name: &references{val: pkgName}}]: an identity that carries
    the package name only. *)
Definition newIdentity (pkgName : string) : identity :=
  {| PkgName := pkgName; Name := pkgName |}.

Record label := mkParsedLabel {
  label_identity : identity;
  label_Description : string;
  label_Color : string }.

Record bucket := mkParsedBucket {
  bucket_identity : identity;
  bucket_Description : string;
  bucket_RP : Duration;               (* RetentionRules.RP() *)
  bucket_labels : list label }.

Record check := mkParsedCheck {
  check_identity : identity;
  check_status : string;              (* Status() *)
  check_statusField : string;         (* the [status] field itself *)
  check_summarize : option Check;     (* summarize().Check *)
  check_labels : list label }.

Record dashboard := mkParsedDashboard {
  dashboard_identity : identity;
  dashboard_Description : string;
  dashboard_labels : list label }.

Record notificationEndpoint := mkParsedEndpoint {
  endpoint_identity : identity;
  endpoint_labels : list label }.

Record notificationRule := mkParsedRule {
  rule_identity : identity;
  rule_endpointName : string;         (* endpointPkgName() *)
  rule_labels : list label }.

Record task := mkParsedTask {
  task_identity : identity;
  task_labels : list label }.

Record telegraf := mkParsedTelegraf {
  telegraf_identity : identity;
  telegraf_labels : list label }.

Record variable := mkParsedVariable {
  variable_identity : identity;
  variable_Description : string;
  variable_influxVarArgs : option VariableArguments;  (* influxVarArgs() *)
  variable_labels : list label }.

(** What every parsed object offers: its identity and its labels. *)
Class Parsed (P : Type) := {
  identityOf : P → identity;
  labelsOf : P → list label;
  removalOf : string → P   (* the placeholder [&T{identity: newIdentity}] *)
}.

#[export] Instance bucket_Parsed : Parsed bucket :=
  {| identityOf := bucket_identity; labelsOf := bucket_labels;
     removalOf n := mkParsedBucket (newIdentity n) "" 0%Z [] |}.
#[export] Instance check_Parsed : Parsed check :=
  {| identityOf := check_identity; labelsOf := check_labels;
     removalOf n := mkParsedCheck (newIdentity n) "" "" None [] |}.
#[export] Instance dashboard_Parsed : Parsed dashboard :=
  {| identityOf := dashboard_identity; labelsOf := dashboard_labels;
     removalOf n := mkParsedDashboard (newIdentity n) "" [] |}.
#[export] Instance label_Parsed : Parsed label :=
  {| identityOf := label_identity; labelsOf := λ _, [];
     removalOf n := mkParsedLabel (newIdentity n) "" "" |}.
#[export] Instance notificationEndpoint_Parsed : Parsed notificationEndpoint :=
  {| identityOf := endpoint_identity; labelsOf := endpoint_labels;
     removalOf n := mkParsedEndpoint (newIdentity n) [] |}.
#[export] Instance notificationRule_Parsed : Parsed notificationRule :=
  {| identityOf := rule_identity; labelsOf := rule_labels;
     removalOf n := mkParsedRule (newIdentity n) "" [] |}.
#[export] Instance task_Parsed : Parsed task :=
  {| identityOf := task_identity; labelsOf := task_labels;
     removalOf n := mkParsedTask (newIdentity n) [] |}.
#[export] Instance telegraf_Parsed : Parsed telegraf :=
  {| identityOf := telegraf_identity; labelsOf := telegraf_labels;
     removalOf n := mkParsedTelegraf (newIdentity n) [] |}.
#[export] Instance variable_Parsed : Parsed variable :=
  {| identityOf := variable_identity; labelsOf := variable_labels;
     removalOf n := mkParsedVariable (newIdentity n) "" None [] |}.

Definition pkgNameOf {P} `{Parsed P} (p : P) : string := PkgName (identityOf p).
Definition nameOf {P} `{Parsed P} (p : P) : string := Name (identityOf p).

(** ** State records (service_models.go)

    The nine state structs ([stateBucket], [stateCheck], ...) have the same
    fields: [id], [orgID], [stateStatus], the parsed object ([parserBkt],
    [parserCheck], ...) and the [existing] platform resource.  They are
    instances of one record; [stateRule] adds [associatedEndpoint]. *)

Record stateRecord (P E : Type) : Type := StateRecord {
  id : influxdb_ID;
  orgID : influxdb_ID;
  stateStatus : StateStatus;
  parser : P;
  existing : option E }.

Arguments StateRecord {P E}.
Arguments id {P E}.
Arguments orgID {P E}.
Arguments stateStatus {P E}.
Arguments parser {P E}.
Arguments existing {P E}.

Definition stateBucket : Type := stateRecord bucket Bucket.
Definition stateCheck : Type := stateRecord check Check.
Definition stateDashboard : Type := stateRecord dashboard Dashboard.
Definition stateEndpoint : Type := stateRecord notificationEndpoint NotificationEndpoint.
Definition stateLabel : Type := stateRecord label Label.
Definition stateTask : Type := stateRecord task Task.
Definition stateTelegraf : Type := stateRecord telegraf TelegrafConfig.
Definition stateVariable : Type := stateRecord variable InfluxVariable.

(** [associatedEndpoint *stateEndpoint] points at a record of the
    coordinator's endpoint map: it is the key of that record. *)
Record stateRule : Type := StateRule {
  rule_state :> stateRecord notificationRule NotificationRule;
  associatedEndpoint : option string }.

Abbreviation parserBkt := (@parser bucket Bucket) (only parsing).
Abbreviation parserCheck := (@parser check Check) (only parsing).
Abbreviation parserDash := (@parser dashboard Dashboard) (only parsing).
Abbreviation parserEndpoint := (@parser notificationEndpoint NotificationEndpoint) (only parsing).
Abbreviation parserLabel := (@parser label Label) (only parsing).
Abbreviation parserRule := (@parser notificationRule NotificationRule) (only parsing).
Abbreviation parserTask := (@parser task Task) (only parsing).
Abbreviation parserTelegraf := (@parser telegraf TelegrafConfig) (only parsing).
Abbreviation parserVar := (@parser variable InfluxVariable) (only parsing).

(** Field assignments. *)
Definition set_id {P E} (v : influxdb_ID) (r : stateRecord P E) : stateRecord P E :=
  StateRecord v (orgID r) (stateStatus r) (parser r) (existing r).
Definition set_orgID {P E} (v : influxdb_ID) (r : stateRecord P E) : stateRecord P E :=
  StateRecord (id r) v (stateStatus r) (parser r) (existing r).
Definition set_stateStatus {P E} (v : StateStatus) (r : stateRecord P E) : stateRecord P E :=
  StateRecord (id r) (orgID r) v (parser r) (existing r).
Definition set_existing {P E} (v : option E) (r : stateRecord P E) : stateRecord P E :=
  StateRecord (id r) (orgID r) (stateStatus r) (parser r) v.

Definition on_rule (f : stateRecord notificationRule NotificationRule →
                        stateRecord notificationRule NotificationRule)
    (r : stateRule) : stateRule :=
  StateRule (f (rule_state r)) (associatedEndpoint r).
Definition set_associatedEndpoint (e : option string) (r : stateRule) : stateRule :=
  StateRule (rule_state r) e.

(** [func (b *stateBucket) ID() influxdb.ID], and the eight methods of the
    same text on the other state structs. *)
Definition ID {P E} `{HasID E} (r : stateRecord P E) : influxdb_ID :=
  if negb (IsNew (stateStatus r)) then
    match existing r with
    | Some e => GetID e
    | None => id r
    end
  else id r.

(** [func (b *stateBucket) labels() []*label]; [stateLabel] has no such
    method. *)
Definition labels {P E} `{Parsed P} (r : stateRecord P E) : list label :=
  labelsOf (parser r).

Definition negb_eq {A} `{EqDecision A} (a b : A) : bool := negb (bool_decide (a = b)).

(** [func (b *stateBucket) shouldApply() bool] *)
Definition stateBucket_shouldApply (b : stateBucket) : bool :=
  IsRemoval (stateStatus b) ||
  match existing b with
  | None => true
  | Some e =>
      negb_eq (bucket_Description (parserBkt b)) (Bucket_Description e) ||
      negb_eq (nameOf (parserBkt b)) (Bucket_Name e) ||
      negb_eq (bucket_RP (parserBkt b)) (Bucket_RetentionPeriod e)
  end.

(** Indexing a Go [map[string]string]: the zero value when absent. *)
Definition prop (m : gmap string string) (k : string) : string :=
  default "" (m !! k).

(** [func (l *stateLabel) shouldApply() bool] *)
Definition stateLabel_shouldApply (l : stateLabel) : bool :=
  IsRemoval (stateStatus l) ||
  match existing l with
  | None => true
  | Some e =>
      negb_eq (label_Description (parserLabel l)) (prop (Label_Properties e) "description") ||
      negb_eq (nameOf (parserLabel l)) (Label_Name e) ||
      negb_eq (label_Color (parserLabel l)) (prop (Label_Properties e) "color")
  end.

(** [func (v *stateVariable) shouldApply() bool]; [reflect.DeepEqual] on
    two [*VariableArguments] is equality of the optional values. *)
Definition stateVariable_shouldApply (v : stateVariable) : bool :=
  IsRemoval (stateStatus v) ||
  match existing v with
  | None => true
  | Some e =>
      negb_eq (Variable_Description e) (variable_Description (parserVar v)) ||
      bool_decide (Variable_Arguments e = None) ||
      negb_eq (Variable_Arguments e) (variable_influxVarArgs (parserVar v))
  end.

(** [func (c *stateCheck) summarize() SummaryCheck], its [Check] field. *)
Definition stateCheck_summarize (c : stateCheck) : option Check :=
  match check_summarize (parserCheck c) with
  | None => None
  | Some ch =>
      Some (mkCheck (id c) (orgID c) (Check_OwnerID ch) (Check_Name ch) (Check_Description ch))
  end.

(** ** Stacks *)

Definition APIVersion : string := "influxdata.com/v2alpha1".

Record StackResourceAssociation := mkAssociation {
  ass_Kind : Kind;
  ass_PkgName : string }.

Record StackResource := mkStackResource {
  res_APIVersion : string;
  res_ID : influxdb_ID;
  res_Kind : Kind;
  res_PkgName : string;
  res_Associations : list StackResourceAssociation }.

Record Stack := mkStack {
  Stack_ID : influxdb_ID;
  Stack_OrgID : influxdb_ID;
  Stack_Name : string;
  Stack_Description : string;
  Stack_URLs : list string;
  Stack_Resources : list StackResource;
  Stack_CreatedAt : Time;
  Stack_UpdatedAt : Time }.

#[export] Instance StackResourceAssociation_eq_dec : EqDecision StackResourceAssociation.
Proof. solve_decision. Defined.

(** ** The state coordinator *)

(** A label mapping refers to its resource and to its label by pointer:
    the resource is named by its kind and key, the label by its key. *)
Record stateLabelMapping := mkStateLabelMapping {
  lm_status : StateStatus;
  lm_resource : Kind * string;
  lm_label : string }.

Record stateLabelMappingForRemoval := mkLabelMappingForRemoval {
  LabelID : influxdb_ID;
  LabelPkgName : string;
  ResourceID : influxdb_ID;
  ResourcePkgName : string;
  ResourceType : string }.

Record stateCoordinator := mkStateCoordinator {
  mBuckets : gmap string stateBucket;
  mChecks : gmap string stateCheck;
  mDashboards : gmap string stateDashboard;
  mEndpoints : gmap string stateEndpoint;
  mLabels : gmap string stateLabel;
  mRules : gmap string stateRule;
  mTasks : gmap string stateTask;
  mTelegrafs : gmap string stateTelegraf;
  mVariables : gmap string stateVariable;
  labelMappings : list stateLabelMapping;
  labelMappingsToRemove : list stateLabelMappingForRemoval }.

Definition set_mBuckets f (s : stateCoordinator) :=
  mkStateCoordinator (f (mBuckets s)) (mChecks s) (mDashboards s) (mEndpoints s) (mLabels s)
    (mRules s) (mTasks s) (mTelegrafs s) (mVariables s) (labelMappings s) (labelMappingsToRemove s).
Definition set_mChecks f (s : stateCoordinator) :=
  mkStateCoordinator (mBuckets s) (f (mChecks s)) (mDashboards s) (mEndpoints s) (mLabels s)
    (mRules s) (mTasks s) (mTelegrafs s) (mVariables s) (labelMappings s) (labelMappingsToRemove s).
Definition set_mDashboards f (s : stateCoordinator) :=
  mkStateCoordinator (mBuckets s) (mChecks s) (f (mDashboards s)) (mEndpoints s) (mLabels s)
    (mRules s) (mTasks s) (mTelegrafs s) (mVariables s) (labelMappings s) (labelMappingsToRemove s).
Definition set_mEndpoints f (s : stateCoordinator) :=
  mkStateCoordinator (mBuckets s) (mChecks s) (mDashboards s) (f (mEndpoints s)) (mLabels s)
    (mRules s) (mTasks s) (mTelegrafs s) (mVariables s) (labelMappings s) (labelMappingsToRemove s).
Definition set_mLabels f (s : stateCoordinator) :=
  mkStateCoordinator (mBuckets s) (mChecks s) (mDashboards s) (mEndpoints s) (f (mLabels s))
    (mRules s) (mTasks s) (mTelegrafs s) (mVariables s) (labelMappings s) (labelMappingsToRemove s).
Definition set_mRules f (s : stateCoordinator) :=
  mkStateCoordinator (mBuckets s) (mChecks s) (mDashboards s) (mEndpoints s) (mLabels s)
    (f (mRules s)) (mTasks s) (mTelegrafs s) (mVariables s) (labelMappings s) (labelMappingsToRemove s).
Definition set_mTasks f (s : stateCoordinator) :=
  mkStateCoordinator (mBuckets s) (mChecks s) (mDashboards s) (mEndpoints s) (mLabels s)
    (mRules s) (f (mTasks s)) (mTelegrafs s) (mVariables s) (labelMappings s) (labelMappingsToRemove s).
Definition set_mTelegrafs f (s : stateCoordinator) :=
  mkStateCoordinator (mBuckets s) (mChecks s) (mDashboards s) (mEndpoints s) (mLabels s)
    (mRules s) (mTasks s) (f (mTelegrafs s)) (mVariables s) (labelMappings s) (labelMappingsToRemove s).
Definition set_mVariables f (s : stateCoordinator) :=
  mkStateCoordinator (mBuckets s) (mChecks s) (mDashboards s) (mEndpoints s) (mLabels s)
    (mRules s) (mTasks s) (mTelegrafs s) (f (mVariables s)) (labelMappings s) (labelMappingsToRemove s).
Definition set_labelMappings v (s : stateCoordinator) :=
  mkStateCoordinator (mBuckets s) (mChecks s) (mDashboards s) (mEndpoints s) (mLabels s)
    (mRules s) (mTasks s) (mTelegrafs s) (mVariables s) v (labelMappingsToRemove s).
Definition set_labelMappingsToRemove f (s : stateCoordinator) :=
  mkStateCoordinator (mBuckets s) (mChecks s) (mDashboards s) (mEndpoints s) (mLabels s)
    (mRules s) (mTasks s) (mTelegrafs s) (mVariables s) (labelMappings s)
    (f (labelMappingsToRemove s)).

(** The parsed package, as far as the coordinator reads it: one list of
    parsed objects per kind (the results of [pkg.buckets()],
    [pkg.checks()], ...), the [isParsed] flag and the secret keys the
    package references ([mSecrets]). *)
Record Pkg := mkPkg {
  isParsed : bool;
  pkg_buckets : list bucket;
  pkg_checks : list check;
  pkg_dashboards : list dashboard;
  pkg_notificationEndpoints : list notificationEndpoint;
  pkg_labels : list label;
  pkg_notificationRules : list notificationRule;
  pkg_tasks : list task;
  pkg_telegrafs : list telegraf;
  pkg_variables : list variable;
  mSecrets : gmap string bool }.

(** [&stateBucket{parserBkt: pkgBkt, stateStatus: StateStatusNew}] *)
Definition newState {P E} (p : P) : stateRecord P E :=
  StateRecord 0%N 0%N StateStatusNew p None.

(** [for _, p := range ps { m[p.PkgName()] = &state{...} }] *)
Definition fromPkg {P E} `{Parsed P} (ps : list P) : gmap string (stateRecord P E) :=
  fold_left (λ m p, <[pkgNameOf p := newState p]> m) ps ∅.

Definition newStateCoordinator (pkg : Pkg) : stateCoordinator :=
  {| mBuckets := fromPkg (pkg_buckets pkg);
     mChecks := fromPkg (pkg_checks pkg);
     mDashboards := fromPkg (pkg_dashboards pkg);
     mEndpoints := fromPkg (pkg_notificationEndpoints pkg);
     mLabels := fromPkg (pkg_labels pkg);
     mRules := (λ r, StateRule r None) <$> fromPkg (pkg_notificationRules pkg);
     mTasks := fromPkg (pkg_tasks pkg);
     mTelegrafs := fromPkg (pkg_telegrafs pkg);
     mVariables := fromPkg (pkg_variables pkg);
     labelMappings := [];
     labelMappingsToRemove := [] |}.

(** The [switch k] shared by [get], [addObjectForRemoval] and
    [getObjectIDSetter]: the three check kinds and the four endpoint kinds
    select one map each; any other kind falls to [default]. *)
Inductive kindFamily :=
| FBucket | FCheck | FDashboard | FLabel | FEndpoint | FRule | FTask | FTelegraf | FVariable.

#[export] Instance kindFamily_eq_dec : EqDecision kindFamily.
Proof. solve_decision. Defined.

Definition familyOf (k : Kind) : option kindFamily :=
  if str_eq k KindBucket then Some FBucket
  else if str_eq k KindCheck || str_eq k KindCheckDeadman || str_eq k KindCheckThreshold
  then Some FCheck
  else if str_eq k KindDashboard then Some FDashboard
  else if str_eq k KindLabel then Some FLabel
  else if str_eq k KindNotificationEndpoint || str_eq k KindNotificationEndpointHTTP
          || str_eq k KindNotificationEndpointPagerDuty
          || str_eq k KindNotificationEndpointSlack
  then Some FEndpoint
  else if str_eq k KindNotificationRule then Some FRule
  else if str_eq k KindTask then Some FTask
  else if str_eq k KindTelegraf then Some FTelegraf
  else if str_eq k KindVariable then Some FVariable
  else None.

(** The dynamic type behind the [interface{}] returned by [get]. *)
Inductive stateObject :=
| ObjBucket (b : stateBucket)
| ObjCheck (c : stateCheck)
| ObjDashboard (d : stateDashboard)
| ObjLabel (l : stateLabel)
| ObjEndpoint (e : stateEndpoint)
| ObjRule (r : stateRule)
| ObjTask (t : stateTask)
| ObjTelegraf (t : stateTelegraf)
| ObjVariable (v : stateVariable).

(** [func (s *stateCoordinator) get(k Kind, pkgName string) (interface{}, bool)];
    [Some] is [ok = true]. *)
Definition get (s : stateCoordinator) (k : Kind) (pkgName : string) : option stateObject :=
  match familyOf k with
  | Some FBucket => ObjBucket <$> mBuckets s !! pkgName
  | Some FCheck => ObjCheck <$> mChecks s !! pkgName
  | Some FDashboard => ObjDashboard <$> mDashboards s !! pkgName
  | Some FLabel => ObjLabel <$> mLabels s !! pkgName
  | Some FEndpoint => ObjEndpoint <$> mEndpoints s !! pkgName
  | Some FRule => ObjRule <$> mRules s !! pkgName
  | Some FTask => ObjTask <$> mTasks s !! pkgName
  | Some FTelegraf => ObjTelegraf <$> mTelegrafs s !! pkgName
  | Some FVariable => ObjVariable <$> mVariables s !! pkgName
  | None => None
  end.

(** [func (s *stateCoordinator) Contains(k Kind, pkgName string) bool] *)
Definition Contains (s : stateCoordinator) (k : Kind) (pkgName : string) : bool :=
  bool_decide (is_Some (get s k pkgName)).

(** What the state structs have in common, read through the interface. *)
Definition obj_id (o : stateObject) : influxdb_ID :=
  match o with
  | ObjBucket r => id r | ObjCheck r => id r | ObjDashboard r => id r
  | ObjLabel r => id r | ObjEndpoint r => id r | ObjRule r => id r
  | ObjTask r => id r | ObjTelegraf r => id r | ObjVariable r => id r
  end.

Definition obj_stateStatus (o : stateObject) : StateStatus :=
  match o with
  | ObjBucket r => stateStatus r | ObjCheck r => stateStatus r
  | ObjDashboard r => stateStatus r | ObjLabel r => stateStatus r
  | ObjEndpoint r => stateStatus r | ObjRule r => stateStatus r
  | ObjTask r => stateStatus r | ObjTelegraf r => stateStatus r
  | ObjVariable r => stateStatus r
  end.

Definition obj_identity (o : stateObject) : identity :=
  match o with
  | ObjBucket r => identityOf (parser r) | ObjCheck r => identityOf (parser r)
  | ObjDashboard r => identityOf (parser r) | ObjLabel r => identityOf (parser r)
  | ObjEndpoint r => identityOf (parser r) | ObjRule r => identityOf (parser r)
  | ObjTask r => identityOf (parser r) | ObjTelegraf r => identityOf (parser r)
  | ObjVariable r => identityOf (parser r)
  end.

(** The [labels()] method; [stateLabel] does not implement
    [labelAssociater]. *)
Definition obj_labels (o : stateObject) : option (list label) :=
  match o with
  | ObjBucket r => Some (labels r) | ObjCheck r => Some (labels r)
  | ObjDashboard r => Some (labels r) | ObjLabel r => None
  | ObjEndpoint r => Some (labels r) | ObjRule r => Some (labels r)
  | ObjTask r => Some (labels r) | ObjTelegraf r => Some (labels r)
  | ObjVariable r => Some (labels r)
  end.

(** [func (s *stateCoordinator) labelAssociations(k Kind, pkgName string) []*stateLabel].
    The result holds a nil pointer for a label that is not in [mLabels].
    For a kind whose map has no record under [pkgName], [get] returns a nil
    pointer of a struct type that has the [labels()] method, and calling it
    dereferences nil: the outer [None] is that panic. *)
Definition labelAssociations (s : stateCoordinator) (k : Kind) (pkgName : string)
    : option (list (option stateLabel)) :=
  match familyOf k with
  | None | Some FLabel => Some []
  | Some _ =>
      match get s k pkgName with
      | None => None
      | Some o => Some ((λ l, mLabels s !! pkgNameOf l) <$> default [] (obj_labels o))
      end
  end.

(** The closure returned by [getObjectIDSetter]:
    [r.id = id; r.stateStatus = StateStatusExists]. *)
Definition idSetFn {P E} (v : influxdb_ID) (r : stateRecord P E) : stateRecord P E :=
  set_stateStatus StateStatusExists (set_id v r).

(** [func (s *stateCoordinator) getObjectIDSetter(k Kind, pkgName string) (func(influxdb.ID), bool)];
    [Some] is [ok = true], and the closure writes through the pointer it
    captured, that is to the record under [pkgName]. *)
Definition getObjectIDSetter (s : stateCoordinator) (k : Kind) (pkgName : string)
    : option (influxdb_ID → stateCoordinator → stateCoordinator) :=
  match familyOf k with
  | Some FBucket =>
      if mBuckets s !! pkgName is Some _ then Some (λ v, set_mBuckets (alter (idSetFn v) pkgName)) else None
  | Some FCheck =>
      if mChecks s !! pkgName is Some _ then Some (λ v, set_mChecks (alter (idSetFn v) pkgName)) else None
  | Some FDashboard =>
      if mDashboards s !! pkgName is Some _ then Some (λ v, set_mDashboards (alter (idSetFn v) pkgName))
      else None
  | Some FLabel =>
      if mLabels s !! pkgName is Some _ then Some (λ v, set_mLabels (alter (idSetFn v) pkgName)) else None
  | Some FEndpoint =>
      if mEndpoints s !! pkgName is Some _ then Some (λ v, set_mEndpoints (alter (idSetFn v) pkgName))
      else None
  | Some FRule =>
      if mRules s !! pkgName is Some _ then Some (λ v, set_mRules (alter (on_rule (idSetFn v)) pkgName))
      else None
  | Some FTask =>
      if mTasks s !! pkgName is Some _ then Some (λ v, set_mTasks (alter (idSetFn v) pkgName)) else None
  | Some FTelegraf =>
      if mTelegrafs s !! pkgName is Some _ then Some (λ v, set_mTelegrafs (alter (idSetFn v) pkgName))
      else None
  | Some FVariable =>
      if mVariables s !! pkgName is Some _ then Some (λ v, set_mVariables (alter (idSetFn v) pkgName))
      else None
  | None => None
  end.

(** setObjectID sets the id for the resource graphed from the object the
    key identifies. *)
Definition setObjectID (s : stateCoordinator) (k : Kind) (pkgName : string) (v : influxdb_ID)
    : stateCoordinator :=
  match getObjectIDSetter s k pkgName with
  | None => s
  | Some idSet => idSet v s
  end.

(** [&stateBucket{id: id, parserBkt: &bucket{identity: newIdentity}, stateStatus: StateStatusRemove}] *)
Definition forRemoval {P E} `{Parsed P} (pkgName : string) (v : influxdb_ID) : stateRecord P E :=
  StateRecord v 0%N StateStatusRemove (removalOf pkgName) None.

(** addObjectForRemoval overwrites any record under the key; a kind
    outside the switch leaves the state as it is. *)
Definition addObjectForRemoval (s : stateCoordinator) (k : Kind) (pkgName : string)
    (v : influxdb_ID) : stateCoordinator :=
  match familyOf k with
  | Some FBucket => set_mBuckets (insert pkgName (forRemoval pkgName v)) s
  | Some FCheck => set_mChecks (insert pkgName (forRemoval pkgName v)) s
  | Some FDashboard => set_mDashboards (insert pkgName (forRemoval pkgName v)) s
  | Some FLabel => set_mLabels (insert pkgName (forRemoval pkgName v)) s
  | Some FEndpoint => set_mEndpoints (insert pkgName (forRemoval pkgName v)) s
  | Some FRule => set_mRules (insert pkgName (StateRule (forRemoval pkgName v) None)) s
  | Some FTask => set_mTasks (insert pkgName (forRemoval pkgName v)) s
  | Some FTelegraf => set_mTelegrafs (insert pkgName (forRemoval pkgName v)) s
  | Some FVariable => set_mVariables (insert pkgName (forRemoval pkgName v)) s
  | None => s
  end.

(** The body of the loop of [reconcileStackResources]. *)
Definition reconcileStackResource (s : stateCoordinator) (r : StackResource) : stateCoordinator :=
  if negb (Contains s (res_Kind r) (res_PkgName r))
  then addObjectForRemoval s (res_Kind r) (res_PkgName r) (res_ID r)
  else setObjectID s (res_Kind r) (res_PkgName r) (res_ID r).

Definition reconcileStackResources (s : stateCoordinator) (stackResources : list StackResource)
    : stateCoordinator :=
  fold_left reconcileStackResource stackResources s.

(** [func (k Kind) is(...) bool] belongs to the parser half of the package:
    it holds when the kind is the given one. *)
Definition Kind_is (k comp : Kind) : bool := str_eq k comp.

(** Indexing a Go [map[string]influxdb.ID]: zero when absent. *)
Definition idOf (m : gmap string influxdb_ID) (k : string) : influxdb_ID :=
  default 0%N (m !! k).

(** The loop over [labels] in [reconcileLabelMappings]: each label found
    in the state drops its association from the stack's set; a nil label
    pointer is dereferenced ([None]). *)
Fixpoint keepStackAssociations (mStackAss : list StackResourceAssociation)
    (ls : list (option stateLabel)) : option (list StackResourceAssociation) :=
  match ls with
  | [] => Some mStackAss
  | None :: _ => None
  | Some l :: ls' =>
      keepStackAssociations
        (filter (λ a, a ≠ mkAssociation KindLabel (pkgNameOf (parserLabel l))) mStackAss) ls'
  end.

(** The body of the second loop of [reconcileLabelMappings].
    [mStackAss] is a Go map used as a set; it is kept as a duplicate-free
    list, and the final [range] over it visits it in list order. *)
Definition reconcileLabelMapping (ResourceTypeOf : Kind → string)
    (mLabelPkgNameToID : gmap string influxdb_ID)
    (s : stateCoordinator) (r : StackResource) : option stateCoordinator :=
  match labelAssociations s (res_Kind r) (res_PkgName r) with
  | None => None
  | Some ls =>
      if bool_decide (length (res_Associations r) = 0) then Some s
      else
        let mStackAss :=
          remove_dups (filter (λ a, Kind_is (ass_Kind a) KindLabel = true) (res_Associations r)) in
        match keepStackAssociations mStackAss ls with
        | None => None
        | Some forRemoval =>
            Some (set_labelMappingsToRemove
                    (λ old, app old (
                       (λ a, {| LabelPkgName := ass_PkgName a;
                                LabelID := idOf mLabelPkgNameToID (ass_PkgName a);
                                ResourceID := res_ID r;
                                ResourcePkgName := res_PkgName r;
                                ResourceType := ResourceTypeOf (res_Kind r) |}) <$> forRemoval))
                    s)
        end
  end.

(** A sequential loop whose body may panic. *)
Fixpoint foldM {A B} (f : A → B → option A) (a : A) (bs : list B) : option A :=
  match bs with
  | [] => Some a
  | b :: bs' => match f a b with None => None | Some a' => foldM f a' bs' end
  end.

(** [Kind.ResourceType()] belongs to the parser half of the package and is
    passed in as [ResourceTypeOf]. *)
Definition reconcileLabelMappings (ResourceTypeOf : Kind → string)
    (s : stateCoordinator) (stackResources : list StackResource) : option stateCoordinator :=
  let mLabelPkgNameToID :=
    fold_left (λ m r, if Kind_is (res_Kind r) KindLabel
                      then <[res_PkgName r := res_ID r]> m else m)
              stackResources ∅ in
  foldM (reconcileLabelMapping ResourceTypeOf mLabelPkgNameToID) s stackResources.

(** The body of the loop of [reconcileNotificationDependencies]: the first
    endpoint association of a rule resource becomes the rule's
    [associatedEndpoint]; assigning through [s.mRules[r.PkgName]] when the
    rule is missing dereferences nil ([None]). *)
Definition reconcileNotificationDependency (s : stateCoordinator) (r : StackResource)
    : option stateCoordinator :=
  if Kind_is (res_Kind r) KindNotificationRule then
    match find (λ a, Kind_is (ass_Kind a) KindNotificationEndpoint) (res_Associations r) with
    | None => Some s
    | Some a =>
        match mRules s !! res_PkgName r with
        | None => None
        | Some _ =>
            let e := if mEndpoints s !! ass_PkgName a is Some _ then Some (ass_PkgName a) else None in
            Some (set_mRules (alter (set_associatedEndpoint e) (res_PkgName r)) s)
        end
    end
  else Some s.

Definition reconcileNotificationDependencies (s : stateCoordinator)
    (stackResources : list StackResource) : option stateCoordinator :=
  foldM reconcileNotificationDependency s stackResources.

(** [func (s *stateCoordinator) addStackState(stack Stack)]: the three
    reconcilers in order; [None] is a nil dereference in one of them. *)
Definition addStackState (ResourceTypeOf : Kind → string) (s : stateCoordinator) (stack : Stack)
    : option stateCoordinator :=
  let s1 := reconcileStackResources s (Stack_Resources stack) in
  match reconcileLabelMappings ResourceTypeOf s1 (Stack_Resources stack) with
  | None => None
  | Some s2 => reconcileNotificationDependencies s2 (Stack_Resources stack)
  end.

(** *** Views used to state what reconciliation does

    [getF] is [get] after the [switch]; [obj_removal] is the record
    [addObjectForRemoval] stores, [obj_idSet] the effect of the id setter on
    a record, and [obj_forget] erases the one field of a record that the
    third reconciler may write ([associatedEndpoint] of a rule). *)

Definition getF (s : stateCoordinator) (f : kindFamily) (pkgName : string) : option stateObject :=
  match f with
  | FBucket => ObjBucket <$> mBuckets s !! pkgName
  | FCheck => ObjCheck <$> mChecks s !! pkgName
  | FDashboard => ObjDashboard <$> mDashboards s !! pkgName
  | FLabel => ObjLabel <$> mLabels s !! pkgName
  | FEndpoint => ObjEndpoint <$> mEndpoints s !! pkgName
  | FRule => ObjRule <$> mRules s !! pkgName
  | FTask => ObjTask <$> mTasks s !! pkgName
  | FTelegraf => ObjTelegraf <$> mTelegrafs s !! pkgName
  | FVariable => ObjVariable <$> mVariables s !! pkgName
  end.

Definition obj_removal (f : kindFamily) (n : string) (v : influxdb_ID) : stateObject :=
  match f with
  | FBucket => ObjBucket (forRemoval n v)
  | FCheck => ObjCheck (forRemoval n v)
  | FDashboard => ObjDashboard (forRemoval n v)
  | FLabel => ObjLabel (forRemoval n v)
  | FEndpoint => ObjEndpoint (forRemoval n v)
  | FRule => ObjRule (StateRule (forRemoval n v) None)
  | FTask => ObjTask (forRemoval n v)
  | FTelegraf => ObjTelegraf (forRemoval n v)
  | FVariable => ObjVariable (forRemoval n v)
  end.

Definition obj_idSet (v : influxdb_ID) (o : stateObject) : stateObject :=
  match o with
  | ObjBucket r => ObjBucket (idSetFn v r)
  | ObjCheck r => ObjCheck (idSetFn v r)
  | ObjDashboard r => ObjDashboard (idSetFn v r)
  | ObjLabel r => ObjLabel (idSetFn v r)
  | ObjEndpoint r => ObjEndpoint (idSetFn v r)
  | ObjRule r => ObjRule (on_rule (idSetFn v) r)
  | ObjTask r => ObjTask (idSetFn v r)
  | ObjTelegraf r => ObjTelegraf (idSetFn v r)
  | ObjVariable r => ObjVariable (idSetFn v r)
  end.

Definition obj_forget (o : stateObject) : stateObject :=
  match o with
  | ObjRule r => ObjRule (set_associatedEndpoint None r)
  | _ => o
  end.

(** The map and key a stack resource addresses. *)
Definition resKey (r : StackResource) : option kindFamily * string :=
  (familyOf (res_Kind r), res_PkgName r).

(** A stack as the engine writes it: every resource has one of the kinds
    of the [switch], and no two resources address the same record. *)
Definition stackWellFormed (rs : list StackResource) : Prop :=
  Forall (λ r, is_Some (familyOf (res_Kind r))) rs ∧ NoDup (resKey <$> rs).

(** Every label a record of the state is associated with is itself a
    record of the state (the parser rejects an association with a label
    the package does not declare). *)
Definition labelsResolved (s : stateCoordinator) : Prop :=
  ∀ f n o l, getF s f n = Some o → l ∈ default [] (obj_labels o) →
             is_Some (mLabels s !! pkgNameOf l).

(** The package declares an object of the given kind family under the
    package name [n]. *)
Definition pkgHas (pkg : Pkg) (f : kindFamily) (n : string) : Prop :=
  match f with
  | FBucket => n ∈ (pkgNameOf <$> pkg_buckets pkg)
  | FCheck => n ∈ (pkgNameOf <$> pkg_checks pkg)
  | FDashboard => n ∈ (pkgNameOf <$> pkg_dashboards pkg)
  | FLabel => n ∈ (pkgNameOf <$> pkg_labels pkg)
  | FEndpoint => n ∈ (pkgNameOf <$> pkg_notificationEndpoints pkg)
  | FRule => n ∈ (pkgNameOf <$> pkg_notificationRules pkg)
  | FTask => n ∈ (pkgNameOf <$> pkg_tasks pkg)
  | FTelegraf => n ∈ (pkgNameOf <$> pkg_telegrafs pkg)
  | FVariable => n ∈ (pkgNameOf <$> pkg_variables pkg)
  end.

(** Every label association of a parsed object names a label the package
    declares. *)
Definition labelsDeclared {P} `{Parsed P} (pkg : Pkg) (ps : list P) : Prop :=
  Forall (λ p, Forall (λ l, pkgNameOf l ∈ (pkgNameOf <$> pkg_labels pkg)) (labelsOf p)) ps.

Definition pkgLabelsDeclared (pkg : Pkg) : Prop :=
  labelsDeclared pkg (pkg_buckets pkg) ∧ labelsDeclared pkg (pkg_checks pkg) ∧
  labelsDeclared pkg (pkg_dashboards pkg) ∧
  labelsDeclared pkg (pkg_notificationEndpoints pkg) ∧
  labelsDeclared pkg (pkg_notificationRules pkg) ∧ labelsDeclared pkg (pkg_tasks pkg) ∧
  labelsDeclared pkg (pkg_telegrafs pkg) ∧ labelsDeclared pkg (pkg_variables pkg).

(** ** Service contracts

    The engine reaches the platform through interfaces only.  [W] is the
    state of the world behind them.  A [Find...]/[Read...]/[Get...] method
    is a query of the world; the other methods may change it.  A lookup
    that returns [(nil, err)] is [None]: the dry run discards the error of
    every lookup it makes. *)

Record BucketUpdate := mkBucketUpdate {
  BucketUpdate_Name : option string;
  BucketUpdate_Description : option string;
  BucketUpdate_RetentionPeriod : option Duration }.

Record BucketService (W : Type) := {
  FindBucketByID : influxdb_ID → W → option Bucket;
  FindBucketByName : influxdb_ID → string → W → option Bucket;
  CreateBucket : Bucket → W → W * (error + Bucket);
  UpdateBucket : influxdb_ID → BucketUpdate → W → W * (error + Bucket);
  DeleteBucket : influxdb_ID → W → W * option error }.

Record CheckCreate := mkCheckCreate {
  CheckCreate_Check : option Check;
  CheckCreate_Status : string }.

Record CheckService (W : Type) := {
  FindCheckByID : influxdb_ID → W → option Check;
  (* FindCheck(ctx, CheckFilter{Name: &name, OrgID: &orgID}) *)
  FindCheck : string → influxdb_ID → W → option Check;
  (* the check the stub holds comes back as the service left it *)
  CreateCheck : CheckCreate → influxdb_ID → W → W * (error + option Check);
  UpdateCheck : influxdb_ID → CheckCreate → W → W * (error + option Check);
  DeleteCheck : influxdb_ID → W → W * option error }.

Record DashboardService (W : Type) := {
  FindDashboardByID : influxdb_ID → W → option Dashboard }.

Record LabelUpdate := mkLabelUpdate {
  LabelUpdate_Name : string;
  LabelUpdate_Properties : gmap string string }.

Record LabelService (W : Type) := {
  FindLabelByID : influxdb_ID → W → option Label;
  (* FindLabels(ctx, LabelFilter{Name, OrgID}, FindOptions{Limit: 1}) *)
  FindLabels : string → influxdb_ID → W → error + list Label;
  CreateLabel : Label → W → W * (error + Label);
  UpdateLabel : influxdb_ID → LabelUpdate → W → W * (error + option Label);
  DeleteLabel : influxdb_ID → W → W * option error }.

Record NotificationEndpointService (W : Type) := {
  (* FindNotificationEndpoints(ctx, NotificationEndpointFilter{OrgID: &orgID}) *)
  FindNotificationEndpoints : influxdb_ID → W → error + list NotificationEndpoint }.

Record NotificationRuleStore (W : Type) := {
  FindNotificationRuleByID : influxdb_ID → W → option NotificationRule }.

Record SecretService (W : Type) := {
  GetSecretKeys : influxdb_ID → W → error + list string;
  PutSecrets : influxdb_ID → gmap string string → W → W * option error;
  (* DeleteSecret(ctx, orgID, ks ...string) *)
  DeleteSecret : influxdb_ID → list string → W → W * option error }.

Record TaskService (W : Type) := {
  FindTaskByID : influxdb_ID → W → option Task }.

Record TelegrafConfigStore (W : Type) := {
  FindTelegrafConfigByID : influxdb_ID → W → option TelegrafConfig }.

Record VariableUpdate := mkVariableUpdate {
  VariableUpdate_Name : string;
  VariableUpdate_Description : string;
  VariableUpdate_Arguments : option VariableArguments }.

(** [getAllPlatformVariables] pages through [FindVariables]; the paging is
    not modelled, and its result (nil when it fails) is the query
    [AllVariables] of the world. *)
Record VariableService (W : Type) := {
  AllVariables : influxdb_ID → W → list InfluxVariable;
  CreateVariable : InfluxVariable → W → W * (error + InfluxVariable);
  UpdateVariable : influxdb_ID → VariableUpdate → W → W * (error + InfluxVariable);
  DeleteVariable : influxdb_ID → W → W * option error }.

(** Store is the storage behavior the Service depends on. *)
Record Store (W : Type) := {
  ReadStackByID : influxdb_ID → W → error + Stack;
  UpdateStack : Stack → W → W * option error }.

Arguments FindBucketByID {W}. Arguments FindBucketByName {W}. Arguments CreateBucket {W}.
Arguments UpdateBucket {W}. Arguments DeleteBucket {W}.
Arguments FindCheckByID {W}. Arguments FindCheck {W}. Arguments CreateCheck {W}.
Arguments UpdateCheck {W}. Arguments DeleteCheck {W}.
Arguments FindDashboardByID {W}.
Arguments FindLabelByID {W}. Arguments FindLabels {W}. Arguments CreateLabel {W}.
Arguments UpdateLabel {W}. Arguments DeleteLabel {W}.
Arguments FindNotificationEndpoints {W}.
Arguments FindNotificationRuleByID {W}.
Arguments GetSecretKeys {W}. Arguments PutSecrets {W}. Arguments DeleteSecret {W}.
Arguments FindTaskByID {W}.
Arguments FindTelegrafConfigByID {W}.
Arguments AllVariables {W}. Arguments CreateVariable {W}. Arguments UpdateVariable {W}.
Arguments DeleteVariable {W}.
Arguments ReadStackByID {W}. Arguments UpdateStack {W}.

(** ** The dry-run engine (service.go)

    Each [dryRun...] function ranges over one map of the coordinator and
    rewrites every record on its own, reading the world only: the loop is
    the map of its body over the records. *)

(** [if IsNew(st.stateStatus) && existing != nil { st.stateStatus = StateStatusExists };
     st.existing = existing] *)
Definition attachExisting {P E} (found : option E) (r : stateRecord P E) : stateRecord P E :=
  set_existing found
    (if IsNew (stateStatus r) && bool_decide (is_Some found)
     then set_stateStatus StateStatusExists r else r).

Definition dryRunBuckets {W} (bucketSVC : BucketService W) (orgID : influxdb_ID)
    (bkts : gmap string stateBucket) (w : W) : gmap string stateBucket :=
  (λ stateBkt0,
     let stateBkt := set_orgID orgID stateBkt0 in
     let existing :=
       if negb (N.eqb (ID stateBkt) 0)
       then FindBucketByID bucketSVC (ID stateBkt) w
       else FindBucketByName bucketSVC orgID (nameOf (parserBkt stateBkt)) w in
     attachExisting existing stateBkt) <$> bkts.

Definition dryRunChecks {W} (checkSVC : CheckService W) (orgID : influxdb_ID)
    (checks : gmap string stateCheck) (w : W) : gmap string stateCheck :=
  (λ c0,
     let c := set_orgID orgID c0 in
     let existing :=
       if negb (N.eqb (ID c) 0)
       then FindCheckByID checkSVC (ID c) w
       else FindCheck checkSVC (nameOf (parserCheck c)) orgID w in
     attachExisting existing c) <$> checks.

Definition dryRunDashboards {W} (dashSVC : DashboardService W) (orgID : influxdb_ID)
    (dashs : gmap string stateDashboard) (w : W) : gmap string stateDashboard :=
  (λ stateDash0,
     let stateDash := set_orgID orgID stateDash0 in
     let existing :=
       if negb (N.eqb (ID stateDash) 0)
       then FindDashboardByID dashSVC (ID stateDash) w
       else None in
     attachExisting existing stateDash) <$> dashs.

(** [func (s *Service) findLabel(ctx, orgID, l)]; the caller drops the
    error. *)
Definition findLabel {W} (labelSVC : LabelService W) (orgID : influxdb_ID) (l : stateLabel)
    (w : W) : option Label :=
  if negb (N.eqb (ID l) 0) then FindLabelByID labelSVC (ID l) w
  else match FindLabels labelSVC (nameOf (parserLabel l)) orgID w with
       | inl _ => None
       | inr existingLabels => head existingLabels
       end.

Definition dryRunLabels {W} (labelSVC : LabelService W) (orgID : influxdb_ID)
    (labels : gmap string stateLabel) (w : W) : gmap string stateLabel :=
  (λ pkgLabel0,
     let pkgLabel := set_orgID orgID pkgLabel0 in
     attachExisting (findLabel labelSVC orgID pkgLabel w) pkgLabel) <$> labels.

(** [mExistingByName] and [mExistingByID]: a later endpoint of the list
    overwrites an earlier one with the same name or id. *)
Definition endpointsByName (es : list NotificationEndpoint) : gmap string NotificationEndpoint :=
  fold_left (λ m e, <[Endpoint_Name e := e]> m) es ∅.
Definition endpointsByID (es : list NotificationEndpoint) : gmap N NotificationEndpoint :=
  fold_left (λ m e, <[Endpoint_ID e := e]> m) es ∅.

Definition findEndpoint (mExistingByID : gmap N NotificationEndpoint)
    (mExistingByName : gmap string NotificationEndpoint) (e : stateEndpoint)
    : option NotificationEndpoint :=
  match mExistingByID !! ID e with
  | Some iExisting => Some iExisting
  | None => mExistingByName !! nameOf (parserEndpoint e)
  end.

Definition dryRunNotificationEndpoints {W} (endpointSVC : NotificationEndpointService W)
    (orgID : influxdb_ID) (endpoints : gmap string stateEndpoint) (w : W)
    : error + gmap string stateEndpoint :=
  match FindNotificationEndpoints endpointSVC orgID w with
  | inl err => inl (default err (internalErr (Some err)))
  | inr existingEndpoints =>
      inr ((λ newEndpoint,
              attachExisting
                (findEndpoint (endpointsByID existingEndpoints)
                              (endpointsByName existingEndpoints) newEndpoint)
                newEndpoint) <$> endpoints)
  end.

Definition dryRunTasks {W} (taskSVC : TaskService W) (orgID : influxdb_ID)
    (tasks : gmap string stateTask) (w : W) : gmap string stateTask :=
  (λ stateTask0,
     let stateTask := set_orgID orgID stateTask0 in
     let existing :=
       if negb (N.eqb (ID stateTask) 0)
       then FindTaskByID taskSVC (ID stateTask) w
       else None in
     attachExisting existing stateTask) <$> tasks.

Definition dryRunTelegrafConfigs {W} (teleSVC : TelegrafConfigStore W) (orgID : influxdb_ID)
    (teleConfigs : gmap string stateTelegraf) (w : W) : gmap string stateTelegraf :=
  (λ stateTele0,
     let stateTele := set_orgID orgID stateTele0 in
     let existing :=
       if negb (N.eqb (ID stateTele) 0)
       then FindTelegrafConfigByID teleSVC (ID stateTele) w
       else None in
     attachExisting existing stateTele) <$> teleConfigs.

Definition variablesByID (vs : list InfluxVariable) : gmap N InfluxVariable :=
  fold_left (λ m v, <[Variable_ID v := v]> m) vs ∅.
Definition variablesByName (vs : list InfluxVariable) : gmap string InfluxVariable :=
  fold_left (λ m v, <[Variable_Name v := v]> m) vs ∅.

Definition dryRunVariables {W} (varSVC : VariableService W) (orgID : influxdb_ID)
    (vars : gmap string stateVariable) (w : W) : gmap string stateVariable :=
  let existingVars := AllVariables varSVC orgID w in
  let mIDs := variablesByID existingVars in
  let mNames := variablesByName existingVars in
  (λ v,
     let existing :=
       if negb (N.eqb (ID v) 0)
       then mIDs !! ID v
       else mNames !! nameOf (parserVar v) in
     attachExisting existing v) <$> vars.

(** A Go [range] over a map visits its entries in an order the language
    leaves open.  [range_map] is any such order. *)
Class MapRange := {
  range_map : ∀ {V}, gmap string V → list (string * V);
  range_map_perm : ∀ V (m : gmap string V), range_map m ≡ₚ map_to_list m }.

#[export] Instance canonical_MapRange : MapRange | 100 :=
  {| range_map V m := map_to_list m;
     range_map_perm V m := reflexivity _ |}.

(** The second loop of [dryRunNotificationRules]: a rule that has no
    endpoint yet is bound to the endpoint its parsed form names; the first
    rule that is not being removed and names no endpoint of the state ends
    the loop with an error. *)
Fixpoint bindEndpoints (endpoints : gmap string stateEndpoint)
    (todo : list (string * stateRule)) (rules : gmap string stateRule)
    : error + gmap string stateRule :=
  match todo with
  | [] => inr rules
  | (k, r) :: todo' =>
      if associatedEndpoint r is Some _ then bindEndpoints endpoints todo' rules
      else
        let ok := bool_decide (is_Some (endpoints !! rule_endpointName (parserRule r))) in
        if negb (IsRemoval (stateStatus r)) && negb ok then
          inl (ErrInfluxErr EUnprocessableEntity
                 (ErrNew "failed to find notification endpoint %q dependency for notification rule %q"
                         [rule_endpointName (parserRule r); pkgNameOf (parserRule r)]))
        else
          bindEndpoints endpoints todo'
            (<[k := set_associatedEndpoint
                      (if ok then Some (rule_endpointName (parserRule r)) else None) r]> rules)
  end.

Definition dryRunNotificationRules {W} `{MapRange} (ruleSVC : NotificationRuleStore W)
    (orgID : influxdb_ID) (rules : gmap string stateRule)
    (endpoints : gmap string stateEndpoint) (w : W) : error + gmap string stateRule :=
  let rules1 :=
    (λ rule0,
       let rule := on_rule (set_orgID orgID) rule0 in
       let existing :=
         if negb (N.eqb (ID rule) 0)
         then FindNotificationRuleByID ruleSVC (ID rule) w
         else None in
       on_rule (set_existing existing) rule) <$> rules in
  bindEndpoints endpoints (range_map rules1) rules1.

(** *** What a dry run does to one record

    [dryRunOutcome before after found]: the lookup result [found] is
    attached as [existing], a NEW record that was found is promoted to
    EXISTS, and nothing else of the record changes but [orgID]. *)
Definition dryRunOutcome {P E} (before after : stateRecord P E) (found : option E) : Prop :=
  existing after = found ∧
  stateStatus after =
    (if IsNew (stateStatus before) && bool_decide (is_Some found)
     then StateStatusExists else stateStatus before) ∧
  id after = id before ∧
  parser after = parser before.

(** The lookup rule in the words of the specification: by id when the
    record has one, else by name within the org. *)
Definition spec_dryRun_lookup {P E} `{HasID E} `{Parsed P}
    (findByID : influxdb_ID → option E) (findByName : string → option E)
    (r : stateRecord P E) : option E :=
  if negb (N.eqb (ID r) 0) then findByID (ID r) else findByName (nameOf (parser r)).

(** A rule the dry run cannot bind: it has no endpoint yet, it is not being
    removed, and the endpoint it names is not in the state. *)
Definition unboundRule (endpoints : gmap string stateEndpoint) (r : stateRule) : Prop :=
  associatedEndpoint r = None ∧ IsRemoval (stateStatus r) = false ∧
  endpoints !! rule_endpointName (parserRule r) = None.

#[export] Instance unboundRule_dec endpoints r : Decision (unboundRule endpoints r).
Proof. unfold unboundRule. apply _. Defined.

(** The rule after binding. *)
Definition boundRule (endpoints : gmap string stateEndpoint) (r : stateRule) : stateRule :=
  if associatedEndpoint r is Some _ then r
  else set_associatedEndpoint
         (if endpoints !! rule_endpointName (parserRule r) is Some _
          then Some (rule_endpointName (parserRule r)) else None) r.

(** A platform that holds a list of dashboards, for examples: lookup by
    id is what the dashboard service offers; lookup by name within an org
    is what the specification's rule would need. *)
Definition listDashboardSVC : DashboardService (list Dashboard) :=
  {| FindDashboardByID i w := find (λ d, N.eqb (Dashboard_ID d) i) w |}.

Definition listDashboardByName (w : list Dashboard) (orgID : influxdb_ID) (n : string)
    : option Dashboard :=
  find (λ d, N.eqb (Dashboard_OrganizationID d) orgID && str_eq (Dashboard_Name d) n) w.

Definition example_dashboard : stateDashboard :=
  newState (mkParsedDashboard (mkIdentity "dash_1" "my dashboard") "" []).

Definition example_dashboard_world : list Dashboard :=
  [mkDashboard 5%N 1%N "my dashboard" ""].

(** The claim that every kind is looked up by id, else by name, read on
    dashboards. *)
Definition dashboardsLookedUpByIdElseName {W} (dashSVC : DashboardService W)
    (byName : W → influxdb_ID → string → option Dashboard)
    (orgID : influxdb_ID) (dashs : gmap string stateDashboard) (w : W) : Prop :=
  ∀ k r, dashs !! k = Some r → IsRemoval (stateStatus r) = false →
    ∃ r', dryRunDashboards dashSVC orgID dashs w !! k = Some r' ∧
          dryRunOutcome r r'
            (spec_dryRun_lookup (λ i, FindDashboardByID dashSVC i w) (byName w orgID) r).
(** ** The apply engine (service.go)

    The apply functions change the platform through the services and write
    to the records of the state coordinator through the pointers they hold.
    Both live in one [Machine]; a computation on it is a state transformer
    that may crash ([None]: a Go panic, here always a nil dereference). *)

Definition ST (S A : Type) : Type := S → option (A * S).

#[export] Instance ST_ret {S} : MRet (ST S) := λ A a s, Some (a, s).
#[export] Instance ST_bind {S} : MBind (ST S) :=
  λ A B k m s, match m s with
               | None => None
               | Some (a, s') => k a s'
               end.

Definition gets {S A} (f : S → A) : ST S A := λ s, Some (f s, s).
Definition modify {S} (f : S → S) : ST S unit := λ s, Some (tt, f s).
Definition panic {S A} : ST S A := λ _, None.

(** Dereferencing a pointer that may be nil. *)
Definition deref {S A} (p : option A) : ST S A :=
  match p with
  | Some a => mret a
  | None => panic
  end.

(** [for _, x := range xs { body }] *)
Fixpoint forM_ {S A} (body : A → ST S unit) (xs : list A) : ST S unit :=
  match xs with
  | [] => mret tt
  | x :: xs' => _ ← body x; forM_ body xs'
  end.

(** [influxdb.ID.String()]: sixteen hexadecimal digits, and the empty
    string for the invalid id 0. *)
Definition hex_digit (d : N) : string :=
  String.substring (N.to_nat d) 1 "0123456789abcdef".

Fixpoint hex_fixed (width : nat) (n : N) : string :=
  match width with
  | O => EmptyString
  | S w => hex_fixed w (n / 16)%N +:+ hex_digit (n mod 16)%N
  end.

Definition ID_String (i : influxdb_ID) : string :=
  if N.eqb i 0 then EmptyString else hex_fixed 16 i.

Section apply.
Context {W : Type}.

(** The closures built by [applySecrets], [applyBuckets], [applyChecks],
    [applyLabels] and [applyVariables] each capture a slice they append to
    (the locals [rollbackSecrets], [rollbackBuckets], [rollbackChecks],
    [rollBackLabels] and [rollBackVars], here the fields [secretsDone] to
    [varsDone]); a slice of pointers to state records is the list of their
    keys. *)
Record Machine := mkMachine {
  world : W;
  state : stateCoordinator;
  secretsDone : list string;
  bucketsDone : list string;
  checksDone : list string;
  labelsDone : list string;
  varsDone : list string }.

Definition set_world (f : W → W) (m : Machine) : Machine :=
  mkMachine (f (world m)) (state m) (secretsDone m) (bucketsDone m)
    (checksDone m) (labelsDone m) (varsDone m).
Definition set_state (f : stateCoordinator → stateCoordinator) (m : Machine) : Machine :=
  mkMachine (world m) (f (state m)) (secretsDone m) (bucketsDone m)
    (checksDone m) (labelsDone m) (varsDone m).
Definition set_secretsDone (f : list string → list string) (m : Machine) : Machine :=
  mkMachine (world m) (state m) (f (secretsDone m)) (bucketsDone m)
    (checksDone m) (labelsDone m) (varsDone m).
Definition set_bucketsDone (f : list string → list string) (m : Machine) : Machine :=
  mkMachine (world m) (state m) (secretsDone m) (f (bucketsDone m))
    (checksDone m) (labelsDone m) (varsDone m).
Definition set_checksDone (f : list string → list string) (m : Machine) : Machine :=
  mkMachine (world m) (state m) (secretsDone m) (bucketsDone m)
    (f (checksDone m)) (labelsDone m) (varsDone m).
Definition set_labelsDone (f : list string → list string) (m : Machine) : Machine :=
  mkMachine (world m) (state m) (secretsDone m) (bucketsDone m)
    (checksDone m) (f (labelsDone m)) (varsDone m).
Definition set_varsDone (f : list string → list string) (m : Machine) : Machine :=
  mkMachine (world m) (state m) (secretsDone m) (bucketsDone m)
    (checksDone m) (labelsDone m) (f (varsDone m)).

(** A call of a service method. *)
Definition call {A} (method : W → W * A) : ST Machine A :=
  λ m, let '(w', a) := method (world m) in Some (a, set_world (λ _, w') m).

(** [type rollbacker struct], [type creater struct], [type applier struct].
    The closures take their context and the services from the enclosing
    function; [fn] of a creater is called with the index of the entry, the
    org id and the user id. *)
Record rollbacker := mkRollbacker {
  resource : string;
  rb_fn : influxdb_ID → ST Machine (option error) }.

Record creater := mkCreater {
  entries : nat;
  cr_fn : nat → influxdb_ID → influxdb_ID → ST Machine (option applyErrBody) }.

Record applier := mkApplier {
  app_creater : creater;
  app_rollbacker : rollbacker }.

(** The zero value [creater{}]: no entry, and a nil [fn], which it would
    be a crash to call. *)
Definition zero_creater : creater := mkCreater 0 (λ _ _ _, panic).

End apply.

Arguments Machine : clear implicits.
Arguments rollbacker : clear implicits.
Arguments creater : clear implicits.
Arguments applier : clear implicits.

(** [fmt.Sprintf]: the format and its arguments, side by side (the verbs
    are not interpreted). *)
Definition Sprintf (format : string) (args : list string) : string :=
  String.concat " " (format :: args).

(** The [err] of a result pair. *)
Definition err_of {A} (r : error + A) : option error :=
  match r with
  | inl e => Some e
  | inr _ => None
  end.

(** [for _, x := range xs { if err := f(x); err != nil { errs = append(errs, ...) } }] *)
Fixpoint collectErrs {S A} (f : A → ST S (option string)) (xs : list A) : ST S (list string) :=
  match xs with
  | [] => mret []
  | x :: xs' =>
      e ← f x;
      errs ← collectErrs f xs';
      mret (match e with Some msg => msg :: errs | None => errs end)
  end.

(** [if len(errs) > 0 { return errors.New(strings.Join(errs, sep)) }; return nil] *)
Definition joinErrs (sep : string) (errs : list string) : option error :=
  match errs with
  | [] => None
  | _ => Some (ErrNew (String.concat sep errs) [])
  end.

Section appliers.
Context {W : Type} {R : MapRange}.
Context (bucketSVC : BucketService W) (checkSVC : CheckService W)
        (labelSVC : LabelService W) (secretSVC : SecretService W)
        (varSVC : VariableService W).

Local Abbreviation M := (ST (Machine W)).

(** Reading a state record through the pointer to it. *)
Definition getBucket (k : string) : M stateBucket :=
  s ← gets state; deref (mBuckets s !! k).
Definition getCheck (k : string) : M stateCheck :=
  s ← gets state; deref (mChecks s !! k).
Definition getLabel (k : string) : M stateLabel :=
  s ← gets state; deref (mLabels s !! k).
Definition getVariable (k : string) : M stateVariable :=
  s ← gets state; deref (mVariables s !! k).

(** *** Secrets *)

(** [func (s *Service) applySecrets(secrets map[string]string) applier] *)
Definition applySecrets (secrets : gmap string string) : applier W :=
  if bool_decide (size secrets = 0) then
    mkApplier zero_creater (mkRollbacker "" (λ _, mret None))
  else
    let createFn (i : nat) (orgID userID : influxdb_ID) : M (option applyErrBody) :=
      err ← call (PutSecrets secretSVC orgID secrets);
      match err with
      | Some e => mret (Some (ApplyErrBody "secrets" (Error_string e)))
      | None =>
          _ ← modify (set_secretsDone (λ ks, app ks (range_map secrets).*1));
          mret None
      end in
    mkApplier (mkCreater 1 createFn)
      (mkRollbacker "secrets" (λ orgID, call (DeleteSecret secretSVC orgID []))).

(** *** Buckets *)

(** [func (s *Service) applyBucket(ctx context.Context, b *stateBucket) (influxdb.Bucket, error)] *)
Definition applyBucket (b : stateBucket) : M (error + Bucket) :=
  if str_eq (stateStatus b) StateStatusRemove then
    err ← call (DeleteBucket bucketSVC (ID b));
    match err with
    | Some e => mret (inl (ErrErrorf "failed to delete bucket[%q]: %w" [ID_String (ID b)] e))
    | None => e ← deref (existing b); mret (inr e)
    end
  else if str_eq (stateStatus b) StateStatusExists then
    let rp := bucket_RP (parserBkt b) in
    let newName := nameOf (parserBkt b) in
    res ← call (UpdateBucket bucketSVC (ID b)
                  (mkBucketUpdate (Some newName) (Some (bucket_Description (parserBkt b)))
                     (Some rp)));
    match res with
    | inl e => mret (inl (ErrErrorf "failed to updated bucket[%q]: %w" [ID_String (ID b)] e))
    | inr influxBucket => mret (inr influxBucket)
    end
  else
    let rp := bucket_RP (parserBkt b) in
    let influxBucket :=
      mkBucket 0%N (orgID b) (nameOf (parserBkt b)) (bucket_Description (parserBkt b)) rp in
    res ← call (CreateBucket bucketSVC influxBucket);
    match res with
    | inl e => mret (inl (ErrErrorf "failed to create bucket[%q]: %w" [ID_String (ID b)] e))
    | inr influxBucket' => mret (inr influxBucket')
    end.

(** [func (s *Service) rollbackBuckets(ctx context.Context, buckets []*stateBucket) error].
    [CreateBucket] writes to the bucket it is handed, here [*b.existing]. *)
Definition rollbackBuckets_fn (k : string) : M (option error) :=
  b ← getBucket k;
  if str_eq (stateStatus b) StateStatusRemove then
    e ← deref (existing b);
    res ← call (CreateBucket bucketSVC e);
    _ ← match res with
        | inr e' => modify (set_state (set_mBuckets (alter (set_existing (Some e')) k)))
        | inl _ => mret tt
        end;
    mret (Wrap (err_of res) "rolling back removed bucket")
  else if str_eq (stateStatus b) StateStatusExists then
    let rp := bucket_RP (parserBkt b) in
    res ← call (UpdateBucket bucketSVC (ID b)
                  (mkBucketUpdate None (Some (bucket_Description (parserBkt b))) (Some rp)));
    mret (Wrap (err_of res) "rolling back existing bucket to previous state")
  else
    err ← call (DeleteBucket bucketSVC (ID b));
    mret (Wrap err "rolling back new bucket").

Definition rollbackBuckets (buckets : list string) : M (option error) :=
  errs ← collectErrs (λ k,
            err ← rollbackBuckets_fn k;
            b ← getBucket k;
            mret ((λ e, Sprintf "error for bucket[%q]: %s" [ID_String (ID b); Error_string e])
                    <$> err)) buckets;
  mret (joinErrs ", " errs).

(** [func (s *Service) applyBuckets(ctx context.Context, buckets []*stateBucket) applier] *)
Definition applyBuckets (buckets : list string) : applier W :=
  let createFn (i : nat) (orgID userID : influxdb_ID) : M (option applyErrBody) :=
    k ← deref (buckets !! i);
    _ ← modify (set_state (set_mBuckets (alter (set_orgID orgID) k)));
    b ← getBucket k;
    if negb (stateBucket_shouldApply b) then mret None
    else
      res ← applyBucket b;
      match res with
      | inl err => mret (Some (ApplyErrBody (pkgNameOf (parserBkt b)) (Error_string err)))
      | inr influxBucket =>
          _ ← modify (set_state (set_mBuckets (alter (set_id (Bucket_ID influxBucket)) k)));
          _ ← modify (set_bucketsDone (λ ks, app ks [k]));
          mret None
      end in
  mkApplier (mkCreater (length buckets) createFn)
    (mkRollbacker "bucket"
       (λ _, ks ← gets bucketsDone; rollbackBuckets ks)).

(** *** Labels *)

(** [func (l *stateLabel) properties() map[string]string] *)
Definition stateLabel_properties (l : stateLabel) : gmap string string :=
  {[ "color" := label_Color (parserLabel l);
     "description" := label_Description (parserLabel l) ]}.

(** [func (l *stateLabel) toInfluxLabel() influxdb.Label] *)
Definition toInfluxLabel (l : stateLabel) : Label :=
  mkLabel (ID l) (orgID l) (nameOf (parserLabel l)) (stateLabel_properties l).

(** [func (s *Service) applyLabel(ctx context.Context, l *stateLabel) (influxdb.Label, error)];
    with no error and no label the result is the zero [influxdb.Label]. *)
Definition applyLabel (l : stateLabel) : M (error + Label) :=
  '(influxLabel, err) ←
    (if str_eq (stateStatus l) StateStatusRemove then
       err ← call (DeleteLabel labelSVC (ID l));
       mret (existing l, err)
     else if str_eq (stateStatus l) StateStatusExists then
       res ← call (UpdateLabel labelSVC (ID l)
                     (mkLabelUpdate (nameOf (parserLabel l)) (stateLabel_properties l)));
       mret (match res with inl _ => None | inr influxLabel => influxLabel end,
             Wrap (err_of res) "updating")
     else
       res ← call (CreateLabel labelSVC (toInfluxLabel l));
       mret (Some (match res with inl _ => toInfluxLabel l | inr creatLabel => creatLabel end),
             Wrap (err_of res) "creating"));
  mret (match err, influxLabel with
        | Some e, _ => inl e
        | None, None => inr (mkLabel 0%N 0%N EmptyString ∅)
        | None, Some influxLabel => inr influxLabel
        end).

(** [func (s *Service) rollbackLabels(ctx context.Context, labels []*stateLabel) error] *)
Definition rollbackLabels_fn (k : string) : M (option error) :=
  l ← getLabel k;
  if str_eq (stateStatus l) StateStatusRemove then
    e ← deref (existing l);
    res ← call (CreateLabel labelSVC e);
    _ ← match res with
        | inr e' => modify (set_state (set_mLabels (alter (set_existing (Some e')) k)))
        | inl _ => mret tt
        end;
    mret (err_of res)
  else if str_eq (stateStatus l) StateStatusExists then
    e ← deref (existing l);
    res ← call (UpdateLabel labelSVC (ID l)
                  (mkLabelUpdate (nameOf (parserLabel l)) (Label_Properties e)));
    mret (err_of res)
  else
    call (DeleteLabel labelSVC (ID l)).

Definition rollbackLabels (labels : list string) : M (option error) :=
  errs ← collectErrs (λ k,
            err ← rollbackLabels_fn k;
            l ← getLabel k;
            mret ((λ e, Sprintf "error for label[%q]: %s" [ID_String (ID l); Error_string e])
                    <$> err)) labels;
  mret (joinErrs ", " errs).

(** [func (s *Service) applyLabels(ctx context.Context, labels []*stateLabel) applier] *)
Definition applyLabels (labels : list string) : applier W :=
  let createFn (i : nat) (orgID userID : influxdb_ID) : M (option applyErrBody) :=
    k ← deref (labels !! i);
    _ ← modify (set_state (set_mLabels (alter (set_orgID orgID) k)));
    l ← getLabel k;
    if negb (stateLabel_shouldApply l) then mret None
    else
      res ← applyLabel l;
      match res with
      | inl err => mret (Some (ApplyErrBody (pkgNameOf (parserLabel l)) (Error_string err)))
      | inr influxLabel =>
          _ ← modify (set_state (set_mLabels (alter (set_id (Label_ID influxLabel)) k)));
          _ ← modify (set_labelsDone (λ ks, app ks [k]));
          mret None
      end in
  mkApplier (mkCreater (length labels) createFn)
    (mkRollbacker "label" (λ _, ks ← gets labelsDone; rollbackLabels ks)).

(** *** Variables *)

(** [func (s *Service) applyVariable(ctx context.Context, v *stateVariable) (influxdb.Variable, error)] *)
Definition applyVariable (v : stateVariable) : M (error + InfluxVariable) :=
  if str_eq (stateStatus v) StateStatusRemove then
    err ← call (DeleteVariable varSVC (id v));
    match err with
    | Some e => mret (inl e)
    | None => e ← deref (existing v); mret (inr e)
    end
  else if str_eq (stateStatus v) StateStatusExists then
    call (UpdateVariable varSVC (ID v)
            (mkVariableUpdate (nameOf (parserVar v)) (variable_Description (parserVar v))
               (variable_influxVarArgs (parserVar v))))
  else
    call (CreateVariable varSVC
            (mkVariable 0%N (orgID v) (nameOf (parserVar v))
               (variable_Description (parserVar v)) (variable_influxVarArgs (parserVar v)))).

(** [func (s *Service) rollbackVariables(ctx context.Context, variables []*stateVariable) error] *)
Definition rollbackVariables_fn (k : string) : M (option error) :=
  v ← getVariable k;
  if str_eq (stateStatus v) StateStatusRemove then
    e ← deref (existing v);
    res ← call (CreateVariable varSVC e);
    _ ← match res with
        | inr e' => modify (set_state (set_mVariables (alter (set_existing (Some e')) k)))
        | inl _ => mret tt
        end;
    mret (Wrap (err_of res) "rolling back removed variable")
  else if str_eq (stateStatus v) StateStatusExists then
    res ← call (UpdateVariable varSVC (ID v)
                  (mkVariableUpdate (nameOf (parserVar v)) (variable_Description (parserVar v))
                     (variable_influxVarArgs (parserVar v))));
    mret (Wrap (err_of res) "rolling back updated variable")
  else
    err ← call (DeleteVariable varSVC (ID v));
    mret (Wrap err "rolling back created variable").

Definition rollbackVariables (variables : list string) : M (option error) :=
  errs ← collectErrs (λ k,
            err ← rollbackVariables_fn k;
            v ← getVariable k;
            mret ((λ e, Sprintf "error for variable[%q]: %s" [ID_String (ID v); Error_string e])
                    <$> err)) variables;
  mret (joinErrs "; " errs).

(** [func (s *Service) applyVariables(ctx context.Context, vars []*stateVariable) applier] *)
Definition applyVariables (vars : list string) : applier W :=
  let createFn (i : nat) (orgID userID : influxdb_ID) : M (option applyErrBody) :=
    k ← deref (vars !! i);
    _ ← modify (set_state (set_mVariables (alter (set_orgID orgID) k)));
    v ← getVariable k;
    if negb (stateVariable_shouldApply v) then mret None
    else
      res ← applyVariable v;
      match res with
      | inl err => mret (Some (ApplyErrBody (nameOf (parserVar v)) (Error_string err)))
      | inr influxVar =>
          _ ← modify (set_state (set_mVariables (alter (set_id (Variable_ID influxVar)) k)));
          _ ← modify (set_varsDone (λ ks, app ks [k]));
          mret None
      end in
  mkApplier (mkCreater (length vars) createFn)
    (mkRollbacker "variable" (λ _, ks ← gets varsDone; rollbackVariables ks)).

(** *** Checks *)

(** [func (s *Service) applyCheck(ctx context.Context, c *stateCheck, userID influxdb.ID) (influxdb.Check, error)] *)
Definition applyCheck (c : stateCheck) (userID : influxdb_ID) : M (error + option Check) :=
  if str_eq (stateStatus c) StateStatusRemove then
    err ← call (DeleteCheck checkSVC (ID c));
    match err with
    | Some e => mret (inl (ErrErrorf "failed to delete check[%q]: %w" [ID_String (ID c)] e))
    | None => mret (inr (existing c))
    end
  else if str_eq (stateStatus c) StateStatusExists then
    call (UpdateCheck checkSVC (ID c)
            (mkCheckCreate (stateCheck_summarize c) (check_status (parserCheck c))))
  else
    let checkStub := mkCheckCreate (stateCheck_summarize c) (check_status (parserCheck c)) in
    call (CreateCheck checkSVC checkStub userID).

(** [func (s *Service) rollbackChecks(ctx context.Context, checks []*stateCheck) error] *)
Definition rollbackChecks_fn (k : string) : M (option error) :=
  c ← getCheck k;
  if str_eq (stateStatus c) StateStatusRemove then
    e ← deref (existing c);
    res ← call (CreateCheck checkSVC
                  (mkCheckCreate (Some e) (check_status (parserCheck c))) (Check_OwnerID e));
    let e' := match res with inr (Some e') => e' | _ => e end in
    _ ← modify (set_state (set_mChecks (alter (λ c, set_id (GetID e') (set_existing (Some e') c)) k)));
    mret (err_of res)
  else if str_eq (stateStatus c) StateStatusNew then
    call (DeleteCheck checkSVC (ID c))
  else
    res ← call (UpdateCheck checkSVC (ID c)
                  (mkCheckCreate (stateCheck_summarize c) (check_statusField (parserCheck c))));
    mret (err_of res).

Definition rollbackChecks (checks : list string) : M (option error) :=
  errs ← collectErrs (λ k,
            err ← rollbackChecks_fn k;
            c ← getCheck k;
            mret ((λ e, Sprintf "error for check[%q]: %s" [ID_String (ID c); Error_string e])
                    <$> err)) checks;
  mret (joinErrs "; " errs).

(** [func (s *Service) applyChecks(ctx context.Context, checks []*stateCheck) applier] *)
Definition applyChecks (checks : list string) : applier W :=
  let createFn (i : nat) (orgID userID : influxdb_ID) : M (option applyErrBody) :=
    k ← deref (checks !! i);
    _ ← modify (set_state (set_mChecks (alter (set_orgID orgID) k)));
    c ← getCheck k;
    res ← applyCheck c userID;
    match res with
    | inl err => mret (Some (ApplyErrBody (nameOf (parserCheck c)) (Error_string err)))
    | inr influxCheck =>
        influxCheck ← deref influxCheck;
        _ ← modify (set_state (set_mChecks (alter (set_id (GetID influxCheck)) k)));
        _ ← modify (set_checksDone (λ ks, app ks [k]));
        mret None
    end in
  mkApplier (mkCreater (length checks) createFn)
    (mkRollbacker "check" (λ _, ks ← gets checksDone; rollbackChecks ks)).

End appliers.

(** ** The rollback coordinator

    What the coordinator and [Apply] do beside running the appliers is kept
    in a trace: the calls of the compensations, the lines written to the
    logger, and the calls of the stack store. *)

Inductive Event : Type :=
| EvRollback (resource : string)
| EvLogError (msg : string) (err : error)
| EvReadStackByID (stackID : influxdb_ID)
| EvUpdateStack (stack : Stack).

Record Sys (W : Type) := mkSys {
  machine : Machine W;
  trace : list Event }.

Arguments mkSys {W}.
Arguments machine {W}.
Arguments trace {W}.

Definition liftM {W A} (m : ST (Machine W) A) : ST (Sys W) A :=
  λ s, match m (machine s) with
       | None => None
       | Some (a, m') => Some (a, mkSys m' (trace s))
       end.

Definition emit {W} (ev : Event) : ST (Sys W) unit :=
  modify (λ s, mkSys (machine s) (app (trace s) [ev])).

(** [type rollbackCoordinator struct]; the semaphore [sem] bounds how many
    workers run at once and has no counterpart here. *)
Record rollbackCoordinator (W : Type) := mkCoordinator {
  rollbacks : list (rollbacker W) }.

Arguments mkCoordinator {W}.
Arguments rollbacks {W}.

(** The error stream of [runTilEnd]: [mErrs[msg.resource] =
    append(mErrs[msg.resource], &msg.err)], the resources kept in the order
    they first fail. *)
Definition errStream_add (res : string) (err : applyErrBody)
    (mErrs : list (string * list applyErrBody)) : list (string * list applyErrBody) :=
  if bool_decide (res ∈ mErrs.*1)
  then (λ '(r, errs), if str_eq r res then (r, app errs [err]) else (r, errs)) <$> mErrs
  else app mErrs [(res, [err])].

(** [func (e *errStream) close() error]: nil when nothing was added. *)
Definition errStream_close (mErrs : list (string * list applyErrBody)) : option error :=
  match mErrs with
  | [] => None
  | _ => Some (ErrApply mErrs)
  end.

Section coordinator.
Context {W : Type}.

Local Abbreviation M := (ST (Machine W)).

(** The workers of one applier.  [runTilEnd] starts one goroutine per entry
    and waits for all of them; they are run here one after the other, in
    the order they are started. *)
Fixpoint runEntries (app : applier W) (orgID userID : influxdb_ID) (idxs : list nat)
    (mErrs : list (string * list applyErrBody)) : M (list (string * list applyErrBody)) :=
  match idxs with
  | [] => mret mErrs
  | idx :: idxs' =>
      err ← cr_fn (app_creater app) idx orgID userID;
      runEntries app orgID userID idxs'
        (match err with
         | Some e => errStream_add (resource (app_rollbacker app)) e mErrs
         | None => mErrs
         end)
  end.

Fixpoint runAppliers (r : rollbackCoordinator W) (orgID userID : influxdb_ID)
    (appliers : list (applier W)) (mErrs : list (string * list applyErrBody))
    : M (list (string * list applyErrBody) * rollbackCoordinator W) :=
  match appliers with
  | [] => mret (mErrs, r)
  | app :: appliers' =>
      let r' := mkCoordinator (rollbacks r ++ [app_rollbacker app]) in
      mErrs' ← runEntries app orgID userID (seq 0 (entries (app_creater app))) mErrs;
      runAppliers r' orgID userID appliers' mErrs'
  end.

(** [func (r *rollbackCoordinator) runTilEnd(ctx, orgID, userID, appliers ...applier) error];
    the coordinator comes back with the rollbackers appended. *)
Definition runTilEnd (r : rollbackCoordinator W) (orgID userID : influxdb_ID)
    (appliers : list (applier W)) : M (option error * rollbackCoordinator W) :=
  '(mErrs, r') ← runAppliers r orgID userID appliers [];
  mret (errStream_close mErrs, r').

(** The body of the loop of [rollback]. *)
Definition rollbackOne (orgID : influxdb_ID) (rb : rollbacker W) : ST (Sys W) unit :=
  _ ← emit (EvRollback (resource rb));
  err ← liftM (rb_fn rb orgID);
  match err with
  | Some e => emit (EvLogError ("failed to delete " +:+ resource rb) e)
  | None => mret tt
  end.

(** [func (r *rollbackCoordinator) rollback(l *zap.Logger, err *error, orgID influxdb.ID)] *)
Definition rollback (r : rollbackCoordinator W) (err : option error) (orgID : influxdb_ID)
    : ST (Sys W) unit :=
  match err with
  | None => mret tt
  | Some _ => forM_ (rollbackOne orgID) (rollbacks r)
  end.

End coordinator.

(** ** The service *)

(** [type ApplyOpt struct] and the functional options. *)
Record ApplyOpt := mkApplyOpt {
  EnvRefs : gmap string string;
  MissingSecrets : gmap string string;
  StackID : influxdb_ID }.

Definition ApplyOptFn : Type := ApplyOpt → ApplyOpt.

Definition ApplyWithEnvRefs (envRefs : gmap string string) : ApplyOptFn :=
  λ o, mkApplyOpt envRefs (MissingSecrets o) (StackID o).
Definition ApplyWithSecrets (secrets : gmap string string) : ApplyOptFn :=
  λ o, mkApplyOpt (EnvRefs o) secrets (StackID o).
Definition ApplyWithStackID (stackID : influxdb_ID) : ApplyOptFn :=
  λ o, mkApplyOpt (EnvRefs o) (MissingSecrets o) stackID.

Definition applyOptFromOptFns (opts : list ApplyOptFn) : ApplyOpt :=
  fold_left (λ opt o, o opt) opts (mkApplyOpt ∅ ∅ 0%N).

(** [type Service struct]: the stack store and the resource services. *)
Record Service (W : Type) := mkService {
  store : Store W;
  bucketSVC : BucketService W;
  checkSVC : CheckService W;
  dashSVC : DashboardService W;
  labelSVC : LabelService W;
  endpointSVC : NotificationEndpointService W;
  ruleSVC : NotificationRuleStore W;
  secretSVC : SecretService W;
  taskSVC : TaskService W;
  teleSVC : TelegrafConfigStore W;
  varSVC : VariableService W }.

Arguments store {W}. Arguments bucketSVC {W}. Arguments checkSVC {W}.
Arguments dashSVC {W}. Arguments labelSVC {W}. Arguments endpointSVC {W}.
Arguments ruleSVC {W}. Arguments secretSVC {W}. Arguments taskSVC {W}.
Arguments teleSVC {W}. Arguments varSVC {W}.

(** What the engine is given.  The methods of [*Pkg] belong to the parser
    half of the package ([Validate] and [applyEnvRefs] return the package as
    they leave it); the appliers of the kinds whose apply functions are not
    looked into here, and the dry run of the label mappings, are taken as
    they come: each is a function of the platform and of the state, and none
    is handed the stack store.  [Now] is the reading of the clock. *)
Record Given (W : Type) := mkGiven {
  Validate : Pkg → option error * Pkg;
  IsParseErr : error → bool;
  applyEnvRefs : gmap string string → Pkg → option error * Pkg;
  pkg_applySecrets : gmap string string → Pkg → Pkg;
  ResourceTypeOf : Kind → string;
  Now : Time;
  dryRunLabelMappings : stateCoordinator → W → option (error + list stateLabelMapping);
  applyNotificationGenerator :
    influxdb_ID → list string → list string → ST (Machine W) (error + applier W * applier W);
  applyDashboards : list string → applier W;
  applyTasks : list string → applier W;
  applyTelegrafs : influxdb_ID → list string → applier W;
  applyLabelMappings : list stateLabelMapping → applier W;
  removeLabelMappings : list stateLabelMappingForRemoval → applier W }.

Arguments Validate {W}. Arguments IsParseErr {W}. Arguments applyEnvRefs {W}.
Arguments pkg_applySecrets {W}. Arguments ResourceTypeOf {W}. Arguments Now {W}.
Arguments dryRunLabelMappings {W}. Arguments applyNotificationGenerator {W}.
Arguments applyDashboards {W}. Arguments applyTasks {W}. Arguments applyTelegrafs {W}.
Arguments applyLabelMappings {W}. Arguments removeLabelMappings {W}.

Section service.
Context {W : Type} {R : MapRange}.
Context (s : Service W) (g : Given W).

Local Abbreviation M := (ST (Machine W)).

(** [state.buckets()], [state.checks()], ...: the pointers to the records
    of a map, in the order the map is ranged over. *)
Definition pointers {V} (m : gmap string V) : list string := (range_map m).*1.

(** Running the groups of [applyState]: [if err := coordinator.runTilEnd(...);
    err != nil { return internalErr(err) }]. *)
Fixpoint runGroups (coordinator : rollbackCoordinator W) (orgID userID : influxdb_ID)
    (groups : list (list (applier W))) : M (option error * rollbackCoordinator W) :=
  match groups with
  | [] => mret (None, coordinator)
  | group :: groups' =>
      '(err, coordinator') ← runTilEnd coordinator orgID userID group;
      match err with
      | Some _ => mret (internalErr err, coordinator')
      | None => runGroups coordinator' orgID userID groups'
      end
  end.

(** [func (s *Service) applyState(ctx, coordinator, orgID, userID, state, missingSecrets) (e error)] *)
Definition applyState (coordinator : rollbackCoordinator W) (orgID userID : influxdb_ID)
    (missingSecrets : gmap string string) : M (option error * rollbackCoordinator W) :=
  st ← gets state;
  gen ← applyNotificationGenerator g userID (pointers (mRules st)) (pointers (mEndpoints st));
  match gen with
  | inl err => mret (Some err, coordinator)
  | inr (endpointApp, ruleApp) =>
      st ← gets state;
      let appliers :=
        [ [ applySecrets (secretSVC s) missingSecrets ];
          [ applyLabels (labelSVC s) (pointers (mLabels st)) ];
          [ applyVariables (varSVC s) (pointers (mVariables st));
            applyBuckets (bucketSVC s) (pointers (mBuckets st));
            applyChecks (checkSVC s) (pointers (mChecks st));
            applyDashboards g (pointers (mDashboards st));
            endpointApp;
            applyTasks g (pointers (mTasks st));
            applyTelegrafs g userID (pointers (mTelegrafs st)) ] ] in
      '(err, coordinator) ← runGroups coordinator orgID userID appliers;
      match err with
      | Some _ => mret (err, coordinator)
      | None =>
          '(err, coordinator) ← runTilEnd coordinator orgID userID [ruleApp];
          match err with
          | Some _ => mret (err, coordinator)
          | None =>
              st ← gets state;
              let secondary :=
                [ applyLabelMappings g (labelMappings st);
                  removeLabelMappings g (labelMappingsToRemove st) ] in
              '(err, coordinator) ← runTilEnd coordinator orgID userID secondary;
              mret (internalErr err, coordinator)
          end
      end
  end.

(** *** The stack store, with its calls recorded *)

Definition world_of : ST (Sys W) W := gets (λ sy, world (machine sy)).

Definition store_ReadStackByID (stackID : influxdb_ID) : ST (Sys W) (error + Stack) :=
  _ ← emit (EvReadStackByID stackID);
  w ← world_of;
  mret (ReadStackByID (store s) stackID w).

Definition store_UpdateStack (stack : Stack) : ST (Sys W) (option error) :=
  _ ← emit (EvUpdateStack stack);
  liftM (call (UpdateStack (store s) stack)).

Definition set_Stack_Resources (resources : list StackResource) (stack : Stack) : Stack :=
  mkStack (Stack_ID stack) (Stack_OrgID stack) (Stack_Name stack) (Stack_Description stack)
    (Stack_URLs stack) resources (Stack_CreatedAt stack) (Stack_UpdatedAt stack).

Definition set_Stack_UpdatedAt (t : Time) (stack : Stack) : Stack :=
  mkStack (Stack_ID stack) (Stack_OrgID stack) (Stack_Name stack) (Stack_Description stack)
    (Stack_URLs stack) (Stack_Resources stack) (Stack_CreatedAt stack) t.

(** *** The stack after a successful apply *)

(** [func stateLabelsToStackAssociations(stateLabels []*stateLabel) []StackResourceAssociation];
    a nil label is dereferenced. *)
Definition stateLabelsToStackAssociations (stateLabels : list (option stateLabel))
    : option (list StackResourceAssociation) :=
  mapM (fmap (λ l : stateLabel, mkAssociation KindLabel (pkgNameOf (parserLabel l)))) stateLabels.

(** [func (r *stateRule) endpointPkgName() string]: the package name of the
    endpoint the rule points to. *)
Definition stateRule_endpointPkgName (st : stateCoordinator) (r : stateRule) : string :=
  match associatedEndpoint r with
  | Some k =>
      match mEndpoints st !! k with
      | Some e => pkgNameOf (parserEndpoint e)
      | None => EmptyString
      end
  | None => EmptyString
  end.

(** [func (r *stateRule) endpointAssociation() StackResourceAssociation] *)
Definition endpointAssociation (st : stateCoordinator) (r : stateRule) : StackResourceAssociation :=
  match associatedEndpoint r with
  | None => mkAssociation EmptyString EmptyString
  | Some _ => mkAssociation KindNotificationEndpoint (stateRule_endpointPkgName st r)
  end.

(** The body of the loops of [updateStackAfterSuccess] and the resource
    each appends; [extra] is what a rule adds to the associations. *)
Definition stackResourceOf {P E} `{HasID E} `{Parsed P} (st : stateCoordinator) (k : Kind)
    (extra : list StackResourceAssociation) (r : stateRecord P E) : option StackResource :=
  associatedLabels ← labelAssociations st k (pkgNameOf (parser r));
  associations ← stateLabelsToStackAssociations associatedLabels;
  Some (mkStackResource APIVersion (ID r) k (pkgNameOf (parser r)) (app associations extra)).

Definition notRemoved {P E} (kr : string * stateRecord P E) : bool :=
  negb (IsRemoval (stateStatus kr.2)).

Definition stackResourcesOf {P E} `{HasID E} `{Parsed P} (st : stateCoordinator) (k : Kind)
    (m : gmap string (stateRecord P E)) : option (list StackResource) :=
  mapM (λ kr, stackResourceOf st k [] kr.2) (filter (λ kr, notRemoved kr) (range_map m)).

Definition stackResourcesOfLabels (m : gmap string stateLabel) : list StackResource :=
  (λ kr : string * stateLabel,
     mkStackResource APIVersion (ID kr.2) KindLabel (pkgNameOf (parserLabel kr.2)) [])
    <$> filter (λ kr, notRemoved kr) (range_map m).

Definition stackResourcesOfRules (st : stateCoordinator) (m : gmap string stateRule)
    : option (list StackResource) :=
  mapM (λ kr : string * stateRule,
          stackResourceOf st KindNotificationRule [endpointAssociation st kr.2] (rule_state kr.2))
       (filter (λ kr : string * stateRule, negb (IsRemoval (stateStatus kr.2))) (range_map m)).

(** The nine loops, in the order of the source. *)
Definition stackResourcesAfterSuccess (st : stateCoordinator) : option (list StackResource) :=
  bs ← stackResourcesOf st KindBucket (mBuckets st);
  cs ← stackResourcesOf st KindCheck (mChecks st);
  ds ← stackResourcesOf st KindDashboard (mDashboards st);
  ns ← stackResourcesOf st KindNotificationEndpoint (mEndpoints st);
  let ls := stackResourcesOfLabels (mLabels st) in
  rs ← stackResourcesOfRules st (mRules st);
  ts ← stackResourcesOf st KindTask (mTasks st);
  tes ← stackResourcesOf st KindTelegraf (mTelegrafs st);
  vs ← stackResourcesOf st KindVariable (mVariables st);
  Some (concat [bs; cs; ds; ns; ls; rs; ts; tes; vs]).

(** [func (s *Service) updateStackAfterSuccess(ctx, stackID, state) error] *)
Definition updateStackAfterSuccess (stackID : influxdb_ID) (st : stateCoordinator)
    : ST (Sys W) (option error) :=
  res ← store_ReadStackByID stackID;
  match res with
  | inl err => mret (Some err)
  | inr stack =>
      stackResources ← deref (stackResourcesAfterSuccess st);
      let stack := set_Stack_Resources stackResources stack in
      let stack := set_Stack_UpdatedAt (Now g) stack in
      store_UpdateStack stack
  end.

(** *** The stack after a rollback *)

(** [existingResources[newKey(res.Kind, res.PkgName)] = &stack.Resources[i]]
    for every [i]: a key points to the last resource that has it. *)
Fixpoint existingResource (k : Kind) (pkgName : string) (resources : list StackResource)
    (i : nat) : option nat :=
  match resources with
  | [] => None
  | res :: resources' =>
      match existingResource k pkgName resources' (S i) with
      | Some j => Some j
      | None =>
          if str_eq (res_Kind res) k && str_eq (res_PkgName res) pkgName then Some i else None
      end
  end.

Definition set_res_ID (v : influxdb_ID) (res : StackResource) : StackResource :=
  mkStackResource (res_APIVersion res) v (res_Kind res) (res_PkgName res) (res_Associations res).

Definition set_res_Associations (ass : list StackResourceAssociation) (res : StackResource)
    : StackResource :=
  mkStackResource (res_APIVersion res) (res_ID res) (res_Kind res) (res_PkgName res) ass.

(** [if ok && res.ID != b.ID() { hasChanges = true; res.ID = b.existing.ID }] *)
Definition rollbackResourceID {P E} `{HasID E} `{Parsed P} (k : Kind)
    (acc : bool * list StackResource) (r : stateRecord P E) : option (bool * list StackResource) :=
  match existingResource k (pkgNameOf (parser r)) acc.2 0 with
  | None => Some acc
  | Some i =>
      res ← acc.2 !! i;
      if negb (N.eqb (res_ID res) (ID r)) then
        e ← existing r;
        Some (true, <[i := set_res_ID (GetID e) res]> acc.2)
      else Some acc
  end.

(** The loop over the rules, which also moves the endpoint association. *)
Definition rollbackResourceRule (st : stateCoordinator)
    (acc : bool * list StackResource) (r : stateRule) : option (bool * list StackResource) :=
  match existingResource KindNotificationRule (pkgNameOf (parserRule r)) acc.2 0 with
  | None => Some acc
  | Some i =>
      acc ← rollbackResourceID KindNotificationRule acc (rule_state r);
      res ← acc.2 !! i;
      let endpointAssociation := endpointAssociation st r in
      let moved (ass : StackResourceAssociation) : bool :=
        Kind_is (ass_Kind ass) KindNotificationEndpoint
        && negb (bool_decide (ass = endpointAssociation)) in
      let newAss := (λ ass, if moved ass then endpointAssociation else ass)
                      <$> res_Associations res in
      if existsb moved (res_Associations res)
      then Some (true, <[i := set_res_Associations newAss res]> acc.2)
      else Some acc
  end.

Definition stackResourcesAfterRollback (st : stateCoordinator) (resources : list StackResource)
    : option (bool * list StackResource) :=
  acc ← foldM (rollbackResourceID KindBucket) (false, resources) (range_map (mBuckets st)).*2;
  acc ← foldM (rollbackResourceID KindCheck) acc (range_map (mChecks st)).*2;
  acc ← foldM (rollbackResourceID KindDashboard) acc (range_map (mDashboards st)).*2;
  acc ← foldM (rollbackResourceID KindNotificationEndpoint) acc (range_map (mEndpoints st)).*2;
  acc ← foldM (rollbackResourceID KindLabel) acc (range_map (mLabels st)).*2;
  acc ← foldM (rollbackResourceRule st) acc (range_map (mRules st)).*2;
  acc ← foldM (rollbackResourceID KindTask) acc (range_map (mTasks st)).*2;
  acc ← foldM (rollbackResourceID KindTelegraf) acc (range_map (mTelegrafs st)).*2;
  foldM (rollbackResourceID KindVariable) acc (range_map (mVariables st)).*2.

(** [func (s *Service) updateStackAfterRollback(ctx, stackID, state) error] *)
Definition updateStackAfterRollback (stackID : influxdb_ID) (st : stateCoordinator)
    : ST (Sys W) (option error) :=
  res ← store_ReadStackByID stackID;
  match res with
  | inl err => mret (Some err)
  | inr stack =>
      '(hasChanges, resources) ← deref (stackResourcesAfterRollback st (Stack_Resources stack));
      if negb hasChanges then mret None
      else
        let stack := set_Stack_Resources resources stack in
        let stack := set_Stack_UpdatedAt (Now g) stack in
        store_UpdateStack stack
  end.

(** *** Dry run *)

(** [func (s *Service) addStackState(ctx, stackID, state) error] *)
Definition service_addStackState (stackID : influxdb_ID) (st : stateCoordinator)
    : ST (Sys W) (option error * stateCoordinator) :=
  res ← store_ReadStackByID stackID;
  match res with
  | inl err => mret (Wrap (internalErr (Some err)) "reading stack", st)
  | inr stack =>
      st' ← deref (addStackState (ResourceTypeOf g) st stack);
      mret (None, st')
  end.

(** [func (s *Service) dryRunSecrets(ctx, orgID, pkg) error]; the keys the
    platform has are marked in [pkg.mSecrets]. *)
Definition dryRunSecrets (orgID : influxdb_ID) (pkg : Pkg) (w : W) : option error * Pkg :=
  if bool_decide (size (mSecrets pkg) = 0) then (None, pkg)
  else
    match GetSecretKeys (secretSVC s) orgID w with
    | inl err => (Some (ErrInfluxErr EInternal err), pkg)
    | inr existingSecrets =>
        (None,
         mkPkg (isParsed pkg) (pkg_buckets pkg) (pkg_checks pkg) (pkg_dashboards pkg)
           (pkg_notificationEndpoints pkg) (pkg_labels pkg) (pkg_notificationRules pkg)
           (pkg_tasks pkg) (pkg_telegrafs pkg) (pkg_variables pkg)
           (fold_left (λ m secret, <[secret := true]> m) existingSecrets (mSecrets pkg)))
    end.

(** The tail of [dryRun], from [dryRunBuckets] on. *)
Definition dryRunResources (orgID : influxdb_ID) (st : stateCoordinator) (w : W)
    : option (error + stateCoordinator) :=
  let st := set_mBuckets (λ m, dryRunBuckets (bucketSVC s) orgID m w) st in
  let st := set_mChecks (λ m, dryRunChecks (checkSVC s) orgID m w) st in
  let st := set_mDashboards (λ m, dryRunDashboards (dashSVC s) orgID m w) st in
  let st := set_mLabels (λ m, dryRunLabels (labelSVC s) orgID m w) st in
  let st := set_mTasks (λ m, dryRunTasks (taskSVC s) orgID m w) st in
  let st := set_mTelegrafs (λ m, dryRunTelegrafConfigs (teleSVC s) orgID m w) st in
  let st := set_mVariables (λ m, dryRunVariables (varSVC s) orgID m w) st in
  match dryRunNotificationEndpoints (endpointSVC s) orgID (mEndpoints st) w with
  | inl err => Some (inl (ErrWrap err "failed to dry run notification endpoints"))
  | inr endpoints =>
      let st := set_mEndpoints (λ _, endpoints) st in
      match dryRunNotificationRules (ruleSVC s) orgID (mRules st) (mEndpoints st) w with
      | inl err => Some (inl err)
      | inr rules =>
          let st := set_mRules (λ _, rules) st in
          match dryRunLabelMappings g st w with
          | None => None
          | Some (inl err) => Some (inl err)
          | Some (inr stateLabelMappings) =>
              Some (inr (set_labelMappings stateLabelMappings st))
          end
      end
  end.

(** [err != nil && !IsParseErr(err)] *)
Definition notParseErr (err : option error) : bool :=
  match err with
  | Some e => negb (IsParseErr g e)
  | None => false
  end.

(** [func (s *Service) dryRun(ctx, orgID, pkg, opts ...ApplyOptFn)], which returns
    the state and an error; the package comes back as the dry run leaves it. *)
Definition dryRun (orgID : influxdb_ID) (pkg : Pkg) (opts : list ApplyOptFn)
    : ST (Sys W) (option stateCoordinator * option error * Pkg) :=
  let '(err, pkg1) := if negb (isParsed pkg) then Validate g pkg else (None, pkg) in
  if notParseErr err then mret (None, internalErr err, pkg1)
  else
    let parseErr := err in
    let opt := applyOptFromOptFns opts in
    let '(err, pkg2) :=
      if bool_decide (0 < size (EnvRefs opt)) then applyEnvRefs g (EnvRefs opt) pkg1
      else (None, pkg1) in
    if notParseErr err then mret (None, internalErr err, pkg2)
    else
      let parseErr := if bool_decide (0 < size (EnvRefs opt)) then err else parseErr in
      let st := newStateCoordinator pkg2 in
      '(err, st) ← (if (0 <? StackID opt)%N then service_addStackState (StackID opt) st
                    else mret (None, st));
      match err with
      | Some _ => mret (None, internalErr err, pkg2)
      | None =>
          w ← world_of;
          let '(err, pkg3) := dryRunSecrets orgID pkg2 w in
          match err with
          | Some _ => mret (None, err, pkg3)
          | None =>
              res ← deref (dryRunResources orgID st w);
              match res with
              | inl err => mret (None, Some err, pkg3)
              | inr st => mret (Some st, parseErr, pkg3)
              end
          end
      end.

(** [func (s *Service) DryRun(ctx, orgID, userID, pkg, opts ...ApplyOptFn) (Summary, Diff, error)].
    The summary and the diff are computed from the state and the package:
    the state stands for them in the result, next to the package as the
    call leaves it. *)
Definition DryRun (orgID userID : influxdb_ID) (pkg : Pkg) (opts : list ApplyOptFn)
    : ST (Sys W) (option stateCoordinator * option error * Pkg) :=
  '(st, err, pkg) ← dryRun orgID pkg opts;
  match err with
  | Some _ => mret (None, err, pkg)
  | None => mret (st, None, pkg)
  end.

(** *** Apply *)

(** The first deferred function of [Apply]: the stack is brought up to
    date unless there is no stack. *)
Definition deferredStackUpdate (stackID : influxdb_ID) (e : option error) : ST (Sys W) unit :=
  if N.eqb stackID 0 then mret tt
  else
    st ← gets (λ sy, state (machine sy));
    let updateStackFn :=
      match e with
      | Some _ => updateStackAfterRollback
      | None => updateStackAfterSuccess
      end in
    err ← updateStackFn stackID st;
    match err with
    | Some err => emit (EvLogError "failed to update stack" err)
    | None => mret tt
    end.

(** The state the dry run built becomes the state the appliers work on,
    and the slices their closures capture start empty. *)
Definition enter (st : stateCoordinator) : ST (Sys W) unit :=
  modify (λ sy, mkSys (mkMachine (world (machine sy)) st [] [] [] [] []) (trace sy)).

(** [Apply] from the call of [applyState] on: the body, then the deferred
    calls, the last deferred first (the rollback, then the stack update);
    both read the named result [e].  A crash is the end of the run: what
    the deferred calls of a panicking [Apply] would still do is not
    followed. *)
Definition applyThenUnwind (orgID userID : influxdb_ID) (opt : ApplyOpt)
    (st : stateCoordinator) (pkg : Pkg)
    : ST (Sys W) (option stateCoordinator * option error * Pkg) :=
  _ ← enter st;
  let coordinator := mkCoordinator [] in
  '(e, coordinator) ← liftM (applyState coordinator orgID userID (MissingSecrets opt));
  st ← gets (λ sy, state (machine sy));
  let pkg' := if e is None then pkg_applySecrets g (MissingSecrets opt) pkg else pkg in
  _ ← rollback coordinator e orgID;
  _ ← deferredStackUpdate (StackID opt) e;
  mret (if e is None then Some st else None, e, pkg').

(** [func (s *Service) Apply(ctx, orgID, userID, pkg, opts ...ApplyOptFn) (sum Summary, diff Diff, e error)].
    As in [DryRun] the state stands for the summary and the diff. *)
Definition Apply (orgID userID : influxdb_ID) (pkg : Pkg) (opts : list ApplyOptFn)
    : ST (Sys W) (option stateCoordinator * option error * Pkg) :=
  let '(err, pkg1) := if negb (isParsed pkg) then Validate g pkg else (None, pkg) in
  match err with
  | Some _ => mret (None, failedValidationErr err, pkg1)
  | None =>
      let opt := applyOptFromOptFns opts in
      let '(err, pkg2) := applyEnvRefs g (EnvRefs opt) pkg1 in
      match err with
      | Some _ => mret (None, failedValidationErr err, pkg2)
      | None =>
          '(st, err, pkg3) ← dryRun orgID pkg2 opts;
          match err with
          | Some _ => mret (None, err, pkg3)
          | None =>
              st ← deref st;
              applyThenUnwind orgID userID opt st pkg3
          end
      end
  end.

End service.

(** ** Reading a run

    The views the properties are stated with. *)

(** The compensations called, by the resource they were registered for. *)
Definition rollbackCalls (t : list Event) : list string :=
  omap (λ ev, match ev with EvRollback res => Some res | _ => None end) t.

(** The lines written to the logger. *)
Definition logged (t : list Event) : list (string * error) :=
  omap (λ ev, match ev with EvLogError m e => Some (m, e) | _ => None end) t.

(** The calls of the stack store. *)
Definition isStoreCall (ev : Event) : bool :=
  match ev with
  | EvReadStackByID _ | EvUpdateStack _ => true
  | _ => false
  end.

Definition storeCalls (t : list Event) : list Event := filter (λ ev, isStoreCall ev) t.

(** The compensations run one after the other, each on the machine the one
    before left: what each returned, and the machine at the end. *)
Fixpoint compensate {W} (orgID : influxdb_ID) (rbs : list (rollbacker W)) (m : Machine W)
    : option (list (string * option error) * Machine W) :=
  match rbs with
  | [] => Some ([], m)
  | rb :: rbs' =>
      match rb_fn rb orgID m with
      | None => None
      | Some (err, m1) =>
          match compensate orgID rbs' m1 with
          | None => None
          | Some (outs, m2) => Some ((resource rb, err) :: outs, m2)
          end
      end
  end.

(** What [rollback] records for these outcomes. *)
Definition rollbackEvents (outs : list (string * option error)) : list Event :=
  flat_map (λ out : string * option error,
              EvRollback out.1 ::
              match out.2 with
              | Some e => [EvLogError ("failed to delete " +:+ out.1) e]
              | None => []
              end) outs.

(** The machine [Apply] hands to [applyState]. *)
Definition entered {W} (st : stateCoordinator) (sy : Sys W) : Machine W :=
  mkMachine (world (machine sy)) st [] [] [] [] [].

(** ** A small platform

    A platform to run the engine on: it keeps the secrets of the org, the
    key lists [DeleteSecret] was called with, the number of check updates
    it served and one stack.  It creates labels and variables, refuses to
    create buckets and to delete labels, has one variable, and has no
    dashboards, tasks, telegraf configs, endpoints or rules. *)

Record exWorld := mkExWorld {
  ex_secrets : gmap string string;
  ex_deleted : list (list string);
  ex_checkUpdates : nat;
  ex_stack : option Stack }.

Definition ex_secretSVC : SecretService exWorld :=
  {| GetSecretKeys := λ _ w, inr (map_to_list (ex_secrets w)).*1;
     PutSecrets := λ _ m w,
       (mkExWorld (m ∪ ex_secrets w) (ex_deleted w) (ex_checkUpdates w) (ex_stack w), None);
     DeleteSecret := λ _ ks w,
       (mkExWorld (foldr delete (ex_secrets w) ks) (app (ex_deleted w) [ks])
          (ex_checkUpdates w) (ex_stack w), None) |}.

Definition ex_labelSVC : LabelService exWorld :=
  {| FindLabelByID := λ _ _, None;
     FindLabels := λ _ _ _, inr [];
     CreateLabel := λ l w, (w, inr (mkLabel 7%N (Label_OrgID l) (Label_Name l) (Label_Properties l)));
     UpdateLabel := λ i upd w,
       (w, inr (Some (mkLabel i 1%N (LabelUpdate_Name upd) (LabelUpdate_Properties upd))));
     DeleteLabel := λ _ w, (w, Some (ErrNew "label is in use" [])) |}.

Definition ex_bucketSVC : BucketService exWorld :=
  {| FindBucketByID := λ _ _, None;
     FindBucketByName := λ _ _ _, None;
     CreateBucket := λ _ w, (w, inl (ErrNew "bucket quota exceeded" []));
     UpdateBucket := λ _ _ w, (w, inl (ErrNew "bucket not found" []));
     DeleteBucket := λ _ w, (w, None) |}.

Definition ex_checkSVC : CheckService exWorld :=
  {| FindCheckByID := λ _ _, None;
     FindCheck := λ _ _ _, None;
     CreateCheck := λ cc _ w, (w, inr (CheckCreate_Check cc));
     UpdateCheck := λ _ cc w,
       (mkExWorld (ex_secrets w) (ex_deleted w) (S (ex_checkUpdates w)) (ex_stack w),
        inr (CheckCreate_Check cc));
     DeleteCheck := λ _ w, (w, None) |}.

Definition ex_varSVC : VariableService exWorld :=
  {| AllVariables := λ _ _, [mkVariable 13%N 1%N "var zero" EmptyString None];
     CreateVariable := λ v w,
       (w, inr (mkVariable 21%N (Variable_OrganizationID v) (Variable_Name v)
                  (Variable_Description v) (Variable_Arguments v)));
     UpdateVariable := λ _ _ w, (w, inl (ErrNew "variable not found" []));
     DeleteVariable := λ _ w, (w, None) |}.

Definition ex_store : Store exWorld :=
  {| ReadStackByID := λ stackID w,
       match ex_stack w with
       | Some stack =>
           if N.eqb (Stack_ID stack) stackID then inr stack
           else inl (ErrInfluxMsg ENotFound "stack not found")
       | None => inl (ErrInfluxMsg ENotFound "stack not found")
       end;
     UpdateStack := λ stack w,
       (mkExWorld (ex_secrets w) (ex_deleted w) (ex_checkUpdates w) (Some stack), None) |}.

Definition ex_service : Service exWorld :=
  {| store := ex_store;
     bucketSVC := ex_bucketSVC;
     checkSVC := ex_checkSVC;
     dashSVC := {| FindDashboardByID := λ _ _, None |};
     labelSVC := ex_labelSVC;
     endpointSVC := {| FindNotificationEndpoints := λ _ _, inr [] |};
     ruleSVC := {| FindNotificationRuleByID := λ _ _, None |};
     secretSVC := ex_secretSVC;
     taskSVC := {| FindTaskByID := λ _ _, None |};
     teleSVC := {| FindTelegrafConfigByID := λ _ _, None |};
     varSVC := ex_varSVC |}.

(** An applier with nothing to apply and nothing to undo. *)
Definition idle {W} (res : string) : applier W :=
  mkApplier (mkCreater 0 (λ _ _ _, mret None)) (mkRollbacker res (λ _, mret None)).

(** A package that passes validation, and appliers for a state that has no
    dashboard, endpoint, rule, task, telegraf config or label mapping. *)
Definition ex_given : Given exWorld :=
  {| Validate := λ pkg, (None, pkg);
     IsParseErr := λ _, false;
     applyEnvRefs := λ _ pkg, (None, pkg);
     pkg_applySecrets := λ _ pkg, pkg;
     ResourceTypeOf := λ k, k;
     Now := 1000%Z;
     dryRunLabelMappings := λ _ _, Some (inr []);
     applyNotificationGenerator := λ _ _ _, mret (inr (idle EmptyString, idle EmptyString));
     applyDashboards := λ _, idle "dashboard";
     applyTasks := λ _, idle "tasks";
     applyTelegrafs := λ _ _, idle "telegrafs";
     applyLabelMappings := λ _, idle "label_mapping";
     removeLabelMappings := λ _, idle "removed_label_mapping" |}.

Definition ex_label : label := mkParsedLabel (mkIdentity "label_1" "label one") "a label" "red".

Definition ex_bucket : bucket :=
  mkParsedBucket (mkIdentity "bucket_1" "bucket one") "a bucket" 3600%Z [ex_label].

Definition ex_emptyPkg : Pkg := mkPkg true [] [] [] [] [] [] [] [] [] ∅.

(** One label and one bucket that carries the label. *)
Definition ex_pkg : Pkg := mkPkg true [ex_bucket] [] [] [] [ex_label] [] [] [] [] ∅.

(** Only the label. *)
Definition ex_labelPkg : Pkg := mkPkg true [] [] [] [] [ex_label] [] [] [] [] ∅.

Definition ex_world : exWorld := mkExWorld ∅ [] 0 None.

Definition ex_sys : Sys exWorld :=
  mkSys (mkMachine ex_world (newStateCoordinator ex_emptyPkg) [] [] [] [] []) [].

(** The secret key [token] is handed to the apply. *)
Definition ex_opts : list ApplyOptFn := [ApplyWithSecrets {[ "token" := "v" ]}].

(** [Apply] gets as far as [applyState]: the package is valid, its
    references resolve, and the dry run returns the state [st] with no
    error, leaving the package [pkg'] and the system [sy']. *)
Definition reachesApplyState {W} `{MapRange} (s : Service W) (g : Given W)
    (orgID : influxdb_ID) (pkg : Pkg) (opts : list ApplyOptFn) (sy : Sys W)
    (st : stateCoordinator) (pkg' : Pkg) (sy' : Sys W) : Prop :=
  ∃ pkg1 pkg2,
    (if negb (isParsed pkg) then Validate g pkg else (None, pkg)) = (None, pkg1) ∧
    applyEnvRefs g (EnvRefs (applyOptFromOptFns opts)) pkg1 = (None, pkg2) ∧
    dryRun s g orgID pkg2 opts sy = Some (Some st, None, pkg', sy').

(** The service with another stack store. *)
Definition withStore {W} (store' : Store W) (s : Service W) : Service W :=
  mkService W store' (bucketSVC s) (checkSVC s) (dashSVC s) (labelSVC s) (endpointSVC s)
    (ruleSVC s) (secretSVC s) (taskSVC s) (teleSVC s) (varSVC s).

(** The state the dry run of [ex_pkg] builds on the small platform. *)
Definition ex_state : stateCoordinator :=
  match dryRun ex_service ex_given 1%N ex_pkg ex_opts ex_sys with
  | Some (Some st, _, _, _) => st
  | _ => newStateCoordinator ex_emptyPkg
  end.

(** What [applyState] returns for it. *)
Definition ex_applied
    : option (option error * rollbackCoordinator exWorld * Machine exWorld) :=
  applyState ex_service ex_given (mkCoordinator []) 1%N 2%N
    (MissingSecrets (applyOptFromOptFns ex_opts)) (entered ex_state ex_sys).

Definition ex_error : error :=
  match ex_applied with
  | Some (Some e, _, _) => e
  | _ => ErrNew EmptyString []
  end.

Definition ex_coordinator : rollbackCoordinator exWorld :=
  match ex_applied with
  | Some (_, coordinator, _) => coordinator
  | None => mkCoordinator []
  end.

Definition ex_machine : Machine exWorld :=
  match ex_applied with
  | Some (_, _, m) => m
  | None => machine ex_sys
  end.

(** What the compensations return on it. *)
Definition ex_outcomes : list (string * option error) :=
  match compensate 1%N (rollbacks ex_coordinator) ex_machine with
  | Some (outs, _) => outs
  | None => []
  end.

Definition ex_unwound : Machine exWorld :=
  match compensate 1%N (rollbacks ex_coordinator) ex_machine with
  | Some (_, m) => m
  | None => ex_machine
  end.

(** The rollback order in the words of the specification: the
    compensations called by an [Apply] that had a stage fail are the
    registered ones, last registered first. *)
Definition rollsBackInReverse {W} `{MapRange} (s : Service W) (g : Given W)
    (orgID userID : influxdb_ID) (pkg : Pkg) (opts : list ApplyOptFn) (sy : Sys W) : Prop :=
  ∀ st pkg' sy0 e coordinator m2 res sy',
    reachesApplyState s g orgID pkg opts sy st pkg' sy0 →
    applyState s g (mkCoordinator []) orgID userID
      (MissingSecrets (applyOptFromOptFns opts)) (entered st sy0)
      = Some (Some e, coordinator, m2) →
    Apply s g orgID userID pkg opts sy = Some (res, sy') →
    rollbackCalls (trace sy')
    = app (rollbackCalls (trace sy0)) (rev (resource <$> rollbacks coordinator)).

(** [Apply] of [ex_pkg] with the secret, on the small platform. *)
Definition ex_run
    : option (option stateCoordinator * option error * Pkg * Sys exWorld) :=
  Apply ex_service ex_given 1%N 2%N ex_pkg ex_opts ex_sys.

(** A stack written by an earlier apply: the bucket of [ex_pkg] with its
    label, the label, and a bucket the package no longer declares. *)
Definition ex_stack0 : Stack :=
  mkStack 9%N 1%N "stack" EmptyString []
    [ mkStackResource APIVersion 11%N KindBucket "bucket_1" [mkAssociation KindLabel "label_1"];
      mkStackResource APIVersion 12%N KindLabel "label_1" [];
      mkStackResource APIVersion 13%N KindBucket "bucket_0" [] ]
    0%Z 0%Z.

(** The gate in the words of the specification, for a check: it is open
    when the record is to be removed, or has no [existing] check, or the
    check its parsed form describes is not the [existing] one. *)
Definition spec_check_shouldApply (c : stateCheck) : bool :=
  IsRemoval (stateStatus c) ||
  match existing c with
  | None => true
  | Some e => negb_eq (stateCheck_summarize c) (Some e)
  end.

(** A record whose gate is closed is skipped: the create function of the
    checks returns no error and leaves the platform as it was. *)
Definition checksSkippedWhenUnchanged {W} (checkSVC : CheckService W) (checks : list string)
    (i : nat) (orgID userID : influxdb_ID) (m : Machine W) : Prop :=
  ∀ k c, checks !! i = Some k → mChecks (state m) !! k = Some c →
    spec_check_shouldApply (set_orgID orgID c) = false →
    ∃ m', cr_fn (app_creater (applyChecks checkSVC checks)) i orgID userID m = Some (None, m') ∧
          world m' = world m.

(** A check the platform has already, exactly as the package describes
    it. *)
Definition ex_influxCheck : Check := mkCheck 5%N 1%N 2%N "check one" "a check".

Definition ex_check : stateCheck :=
  StateRecord 5%N 1%N StateStatusExists
    (mkParsedCheck (mkIdentity "check_1" "check one") "active" "active"
       (Some ex_influxCheck) [])
    (Some ex_influxCheck).

Definition ex_checkMachine : Machine exWorld :=
  mkMachine ex_world
    (set_mChecks (λ _, {[ "check_1" := ex_check ]}) (newStateCoordinator ex_emptyPkg))
    [] [] [] [] [].

(** ** The records of a state, one by one *)

(** The [ID()] method and the kind the stack rewrite writes, read through
    the interface. *)
Definition obj_ID (o : stateObject) : influxdb_ID :=
  match o with
  | ObjBucket r => ID r | ObjCheck r => ID r | ObjDashboard r => ID r
  | ObjLabel r => ID r | ObjEndpoint r => ID r | ObjRule r => ID r
  | ObjTask r => ID r | ObjTelegraf r => ID r | ObjVariable r => ID r
  end.

Definition obj_kind (o : stateObject) : Kind :=
  match o with
  | ObjBucket _ => KindBucket | ObjCheck _ => KindCheck | ObjDashboard _ => KindDashboard
  | ObjLabel _ => KindLabel | ObjEndpoint _ => KindNotificationEndpoint
  | ObjRule _ => KindNotificationRule | ObjTask _ => KindTask
  | ObjTelegraf _ => KindTelegraf | ObjVariable _ => KindVariable
  end.

(** The records of one map with the keys they are stored under. *)
Definition keyed {X} (inj : X → stateObject) (m : gmap string X) : list (string * stateObject) :=
  (λ kx : string * X, (kx.1, inj kx.2)) <$> map_to_list m.

(** Every record of the state with its key. *)
Definition keyedObjects (st : stateCoordinator) : list (string * stateObject) :=
  keyed ObjBucket (mBuckets st) ++ keyed ObjCheck (mChecks st) ++
  keyed ObjDashboard (mDashboards st) ++ keyed ObjEndpoint (mEndpoints st) ++
  keyed ObjLabel (mLabels st) ++ keyed ObjRule (mRules st) ++
  keyed ObjTask (mTasks st) ++ keyed ObjTelegraf (mTelegrafs st) ++
  keyed ObjVariable (mVariables st).

(** Every record is stored under its package name, as [newStateCoordinator]
    and [addObjectForRemoval] store it. *)
Definition wellKeyed (st : stateCoordinator) : Prop :=
  Forall (λ e : string * stateObject, PkgName (obj_identity e.2) = e.1) (keyedObjects st).

(** Every label a record is associated with is a record of the state. *)
Definition labelsPresent (st : stateCoordinator) : Prop :=
  Forall (λ e : string * stateObject,
            Forall (λ l : label, is_Some (mLabels st !! pkgNameOf l))
                   (default [] (obj_labels e.2)))
         (keyedObjects st).

(** The stack resource of a record, in the words of the specification: its
    current platform id and its label associations (a rule also names its
    endpoint). *)
Definition labelAssociationsOf (o : stateObject) : list StackResourceAssociation :=
  (λ l : label, mkAssociation KindLabel (pkgNameOf l)) <$> default [] (obj_labels o).

Definition spec_stackResource (st : stateCoordinator) (o : stateObject) : StackResource :=
  mkStackResource APIVersion (obj_ID o) (obj_kind o) (PkgName (obj_identity o))
    (labelAssociationsOf o ++
     match o with
     | ObjRule r => [endpointAssociation st r]
     | _ => []
     end).

(** One resource for every record that is not a removal. *)
Definition spec_stackResources (st : stateCoordinator) : list StackResource :=
  spec_stackResource st
    <$> filter (λ o, negb (IsRemoval (obj_stateStatus o))) (keyedObjects st).*2.

(** A run that succeeds, with a stack: the package declares the label and a
    variable that carries it; the stack was written by an earlier apply of
    the label and of a variable the package no longer declares. *)
Definition ex_variable : variable :=
  mkParsedVariable (mkIdentity "var_1" "var one") "a variable" None [ex_label].

Definition ex_okPkg : Pkg := mkPkg true [] [] [] [] [ex_label] [] [] [] [ex_variable] ∅.

Definition ex_stack1 : Stack :=
  mkStack 9%N 1%N "stack" EmptyString []
    [ mkStackResource APIVersion 12%N KindLabel "label_1" [];
      mkStackResource APIVersion 13%N KindVariable "var_0" [] ]
    0%Z 0%Z.

Definition ex_sys1 : Sys exWorld :=
  mkSys (mkMachine (mkExWorld ∅ [] 0 (Some ex_stack1)) (newStateCoordinator ex_emptyPkg)
           [] [] [] [] []) [].

Definition ex_stackOpts : list ApplyOptFn := [ApplyWithStackID 9%N].

Definition ex_state1 : stateCoordinator :=
  match dryRun ex_service ex_given 1%N ex_okPkg ex_stackOpts ex_sys1 with
  | Some (Some st, _, _, _) => st
  | _ => newStateCoordinator ex_emptyPkg
  end.

Definition ex_sys1' : Sys exWorld :=
  match dryRun ex_service ex_given 1%N ex_okPkg ex_stackOpts ex_sys1 with
  | Some (_, sy) => sy
  | None => ex_sys1
  end.

Definition ex_applied1
    : option (option error * rollbackCoordinator exWorld * Machine exWorld) :=
  applyState ex_service ex_given (mkCoordinator []) 1%N 2%N
    (MissingSecrets (applyOptFromOptFns ex_stackOpts)) (entered ex_state1 ex_sys1').

Definition ex_coordinator1 : rollbackCoordinator exWorld :=
  match ex_applied1 with
  | Some (_, coordinator, _) => coordinator
  | None => mkCoordinator []
  end.

Definition ex_machine1 : Machine exWorld :=
  match ex_applied1 with
  | Some (_, _, m) => m
  | None => machine ex_sys1
  end.

(** ** Views used to follow the state through a dry run *)

(** What a record takes from the parsed object behind it and never
    rewrites: its identity and its label associations. *)
Definition obj_parsed (o : stateObject) : identity * option (list label) :=
  (obj_identity o, obj_labels o).

(** The id the stack records for the label with the given package name:
    that of its last label resource under the name, zero when it has
    none. *)
Definition stackLabelID (rs : list StackResource) (n : string) : influxdb_ID :=
  default 0%N
    (res_ID <$> last (filter (λ r, res_Kind r = KindLabel ∧ res_PkgName r = n) rs)).

(** A rule after the third reconciler has looked at its stack resource:
    the first endpoint association of the resource, when it has one,
    becomes the endpoint of the rule. *)
Definition boundToStack (s : stateCoordinator) (r : StackResource) (rule : stateRule)
    : stateRule :=
  match find (λ a, Kind_is (ass_Kind a) KindNotificationEndpoint) (res_Associations r) with
  | Some a =>
      set_associatedEndpoint
        (if mEndpoints s !! ass_PkgName a is Some _ then Some (ass_PkgName a) else None) rule
  | None => rule
  end.

(** ** More runs on the small platform *)

(** The package of [ex_okPkg] against the stack [ex_stack0]: the variable
    is not in the stack. *)
Definition ex_reconciled : stateCoordinator :=
  default (newStateCoordinator ex_emptyPkg)
    (addStackState (λ k, k) (newStateCoordinator ex_okPkg) ex_stack0).

(** The bucket of [ex_pkg] without its label: the stack [ex_stack0] still
    records the association. *)
Definition ex_bareBucket : bucket :=
  mkParsedBucket (mkIdentity "bucket_1" "bucket one") "a bucket" 3600%Z [].

Definition ex_barePkg : Pkg := mkPkg true [ex_bareBucket] [] [] [] [ex_label] [] [] [] [] ∅.

Definition ex_bareState : stateCoordinator :=
  reconcileStackResources (newStateCoordinator ex_barePkg) (Stack_Resources ex_stack0).

Definition ex_bareReconciled : stateCoordinator :=
  default ex_bareState
    (reconcileLabelMappings (λ k, k) ex_bareState (Stack_Resources ex_stack0)).

(** A rule and the endpoint it names; the stack of an earlier apply bound
    the rule to another endpoint, which the package no longer declares. *)
Definition ex_endpoint : notificationEndpoint :=
  mkParsedEndpoint (mkIdentity "endpoint_1" "endpoint one") [].

Definition ex_rule : notificationRule :=
  mkParsedRule (mkIdentity "rule_1" "rule one") "endpoint_1" [].

Definition ex_rulePkg : Pkg := mkPkg true [] [] [] [ex_endpoint] [] [ex_rule] [] [] [] ∅.

Definition ex_stack2 : Stack :=
  mkStack 9%N 1%N "stack" EmptyString []
    [ mkStackResource APIVersion 30%N KindNotificationEndpointHTTP "endpoint_0" [];
      mkStackResource APIVersion 31%N KindNotificationRule "rule_1"
        [mkAssociation KindNotificationEndpoint "endpoint_0"] ]
    0%Z 0%Z.

(** The map of the coordinator a record lives in. *)
Definition obj_family (o : stateObject) : kindFamily :=
  match o with
  | ObjBucket _ => FBucket | ObjCheck _ => FCheck | ObjDashboard _ => FDashboard
  | ObjLabel _ => FLabel | ObjEndpoint _ => FEndpoint | ObjRule _ => FRule
  | ObjTask _ => FTask | ObjTelegraf _ => FTelegraf | ObjVariable _ => FVariable
  end.




(** A stack store that reads as [ex_store] does and refuses every write. *)
Definition ex_readOnlyStore : Store exWorld :=
  {| ReadStackByID := ReadStackByID ex_store;
     UpdateStack := λ _ w, (w, Some (ErrNew "stack store is read-only" [])) |}.

Definition ex_readOnlyService : Service exWorld := withStore ex_readOnlyStore ex_service.

(** The apply of [ex_okPkg] on the platform whose stack store is
    read-only. *)
Definition ex_appliedRO
    : option (option error * rollbackCoordinator exWorld * Machine exWorld) :=
  applyState ex_readOnlyService ex_given (mkCoordinator []) 1%N 2%N
    (MissingSecrets (applyOptFromOptFns ex_stackOpts)) (entered ex_state1 ex_sys1').

Definition ex_coordinatorRO : rollbackCoordinator exWorld :=
  match ex_appliedRO with
  | Some (_, coordinator, _) => coordinator
  | None => mkCoordinator []
  end.

Definition ex_machineRO : Machine exWorld :=
  match ex_appliedRO with
  | Some (_, _, m) => m
  | None => machine ex_sys1
  end.

Definition ex_resourcesRO : list StackResource :=
  default [] (stackResourcesAfterSuccess (state ex_machineRO)).
Lemma str_eq_true (a b : string) : str_eq a b = true ↔ a = b.
Proof. unfold str_eq. apply bool_decide_eq_true. Qed.

Lemma str_eq_false (a b : string) : str_eq a b = false ↔ a ≠ b.
Proof. unfold str_eq. apply bool_decide_eq_false. Qed.

Lemma IsNew_true (s : StateStatus) : IsNew s = true ↔ s = StateStatusNew ∨ s = "".
Proof.
  unfold IsNew. rewrite orb_true_iff, !str_eq_true. reflexivity.
Qed.

Lemma ID_unfold {P E} `{HasID E} (r : stateRecord P E) :
  ID r = if IsNew (stateStatus r) then id r
         else match existing r with Some e => GetID e | None => id r end.
Proof. unfold ID. destruct (IsNew (stateStatus r)); reflexivity. Qed.

(** C9.  [IsNew] holds of the status NEW and of the empty string, and of
    nothing else: the zero value of a status counts as new (and neither as
    existing nor as a removal).  The [ID()] method of every state record
    goes by it: a record that is new, the unset status included, answers
    with its own [id], any other with the id of its [existing] resource
    when it has one. *)
Theorem IsNew_zero_value_is_new :
  (∀ s : StateStatus, IsNew s = true ↔ s = StateStatusNew ∨ s = "") ∧
  IsNew "" = true ∧ IsExisting "" = false ∧ IsRemoval "" = false ∧
  (∀ P E (getID : HasID E) (r : stateRecord P E),
     ID r = if bool_decide (stateStatus r = StateStatusNew ∨ stateStatus r = "")
            then id r
            else match existing r with Some e => GetID e | None => id r end).
Proof.
  split; [exact IsNew_true|]. repeat split.
  intros P E getID r. rewrite ID_unfold.
  destruct (IsNew (stateStatus r)) eqn:Hn.
  - rewrite bool_decide_eq_true_2; [done|]. by apply IsNew_true.
  - rewrite bool_decide_eq_false_2; [done|]. rewrite <- IsNew_true. congruence.
Qed.
Lemma get_getF s k n : get s k n = familyOf k ≫= λ f, getF s f n.
Proof. unfold get. destruct (familyOf k) as [[]|]; reflexivity. Qed.

Lemma Contains_true s k n : Contains s k n = true ↔ is_Some (get s k n).
Proof. unfold Contains. apply bool_decide_eq_true. Qed.

Lemma Contains_false s k n : Contains s k n = false ↔ get s k n = None.
Proof.
  unfold Contains. rewrite bool_decide_eq_false, eq_None_not_Some. reflexivity.
Qed.

Ltac case_lookup_of Ho :=
  match type of Ho with
  | _ <$> ?m !! ?k = _ =>
      let x := fresh "x" in let Hx := fresh "Hx" in
      destruct (m !! k) as [x|] eqn:Hx; try discriminate Ho; simpl in Ho
  end.

(** One step of the first pass, seen through [getF]. *)
Lemma reconcileStackResource_getF s r f :
  familyOf (res_Kind r) = Some f →
  ∀ f' n',
    getF (reconcileStackResource s r) f' n' =
      if bool_decide (f' = f ∧ n' = res_PkgName r)
      then match getF s f (res_PkgName r) with
           | None => Some (obj_removal f (res_PkgName r) (res_ID r))
           | Some o => Some (obj_idSet (res_ID r) o)
           end
      else getF s f' n'.
Proof.
  intros Hf f' n'. unfold reconcileStackResource.
  destruct (Contains s (res_Kind r) (res_PkgName r)) eqn:Hc; simpl.
  - apply Contains_true in Hc. rewrite get_getF, Hf in Hc. simpl in Hc.
    destruct Hc as [o Ho]. rewrite Ho.
    unfold setObjectID, getObjectIDSetter. rewrite Hf.
    case_bool_decide as Hk.
    + destruct Hk as [-> ->].
      destruct f; simpl in *; case_lookup_of Ho; simplify_eq; simpl;
        rewrite lookup_alter_eq; match goal with H : _ !! _ = Some _ |- _ => rewrite H end;
        reflexivity.
    + destruct f; simpl in *; case_lookup_of Ho;
        destruct f'; simpl; try reflexivity;
        (rewrite lookup_alter_ne; [reflexivity|]); intros <-; apply Hk; done.
  - apply Contains_false in Hc. rewrite get_getF, Hf in Hc. simpl in Hc. rewrite Hc.
    unfold addObjectForRemoval. rewrite Hf.
    case_bool_decide as Hk.
    + destruct Hk as [-> ->]. destruct f; simpl; rewrite lookup_insert_eq; reflexivity.
    + destruct f, f'; simpl; try reflexivity;
        (rewrite lookup_insert_ne; [reflexivity|]); intros <-; apply Hk; done.
Qed.

Lemma reconcileStackResource_unknown s r :
  familyOf (res_Kind r) = None → reconcileStackResource s r = s.
Proof.
  intros Hf. unfold reconcileStackResource, Contains.
  rewrite get_getF, Hf. simpl.
  unfold addObjectForRemoval. by rewrite Hf.
Qed.

(** Records no stack resource addresses are left alone by the first pass. *)
Lemma reconcileStackResources_other rs : ∀ s f n,
  (Some f, n) ∉ resKey <$> rs →
  getF (reconcileStackResources s rs) f n = getF s f n.
Proof.
  induction rs as [|r rs IH]; intros s f n Hn; [reflexivity|].
  simpl. rewrite fmap_cons, not_elem_of_cons in Hn. destruct Hn as [Hr Hrs].
  unfold reconcileStackResources in *. simpl. rewrite IH by done.
  destruct (familyOf (res_Kind r)) as [f0|] eqn:Hf.
  - rewrite (reconcileStackResource_getF _ _ _ Hf).
    rewrite bool_decide_eq_false_2; [done|].
    intros [-> ->]. apply Hr. unfold resKey. by rewrite Hf.
  - by rewrite reconcileStackResource_unknown.
Qed.

(** The first pass, for a well-formed stack. *)
Lemma reconcileStackResources_getF rs : ∀ s,
  stackWellFormed rs →
  ∀ r f, r ∈ rs → familyOf (res_Kind r) = Some f →
    getF (reconcileStackResources s rs) f (res_PkgName r) =
      Some (match getF s f (res_PkgName r) with
            | None => obj_removal f (res_PkgName r) (res_ID r)
            | Some o => obj_idSet (res_ID r) o
            end).
Proof.
  induction rs as [|r0 rs IH]; intros s [Hk Hnd] r f Hr Hf; [by apply elem_of_nil in Hr|].
  rewrite fmap_cons in Hnd. apply NoDup_cons in Hnd as [Hr0 Hnd].
  apply Forall_cons in Hk as [Hk0 Hk].
  unfold reconcileStackResources. simpl.
  apply elem_of_cons in Hr as [->|Hr].
  - fold (reconcileStackResources (reconcileStackResource s r0) rs).
    rewrite reconcileStackResources_other.
    + rewrite (reconcileStackResource_getF _ _ _ Hf).
      rewrite bool_decide_eq_true_2 by done. by destruct (getF s f (res_PkgName r0)).
    + unfold resKey in Hr0 at 1. by rewrite Hf in Hr0.
  - fold (reconcileStackResources (reconcileStackResource s r0) rs).
    rewrite (IH _ (conj Hk Hnd) r f Hr Hf). f_equal.
    destruct Hk0 as [f0 Hf0].
    rewrite (reconcileStackResource_getF _ _ _ Hf0).
    rewrite bool_decide_eq_false_2; [done|].
    intros [-> Hn]. apply Hr0. apply list_elem_of_fmap. exists r. split; [|done].
    unfold resKey. by rewrite Hf, Hf0, Hn.
Qed.

(** *** The later passes leave ids and statuses alone *)

Lemma mLabels_getF s x : ObjLabel <$> mLabels s !! x = getF s FLabel x.
Proof. reflexivity. Qed.

Lemma mLabels_is_Some s x : is_Some (mLabels s !! x) ↔ is_Some (getF s FLabel x).
Proof. simpl. by rewrite fmap_is_Some. Qed.

Lemma obj_labels_removal f n v : default [] (obj_labels (obj_removal f n v)) = [].
Proof. by destruct f. Qed.

Lemma obj_labels_idSet v o : obj_labels (obj_idSet v o) = obj_labels o.
Proof. by destruct o. Qed.

Lemma reconcileStackResource_labelsResolved s r :
  labelsResolved s → labelsResolved (reconcileStackResource s r).
Proof.
  intros Hs. destruct (familyOf (res_Kind r)) as [f0|] eqn:Hf;
    [|by rewrite reconcileStackResource_unknown].
  assert (Hgrow : ∀ x, is_Some (mLabels s !! x) →
                       is_Some (mLabels (reconcileStackResource s r) !! x)).
  { intros x Hx. apply mLabels_is_Some. apply mLabels_is_Some in Hx.
    rewrite (reconcileStackResource_getF _ _ _ Hf). case_bool_decide; [|done].
    by destruct (getF s f0 (res_PkgName r)). }
  intros f n o l Ho Hl. rewrite (reconcileStackResource_getF _ _ _ Hf) in Ho.
  case_bool_decide as Hk.
  - destruct Hk as [-> ->]. destruct (getF s f0 (res_PkgName r)) as [o0|] eqn:Ho0.
    + simplify_eq. rewrite obj_labels_idSet in Hl. apply Hgrow. by eapply Hs.
    + simplify_eq. rewrite obj_labels_removal in Hl. by apply elem_of_nil in Hl.
  - apply Hgrow. by eapply Hs.
Qed.

Lemma reconcileStackResources_labelsResolved rs : ∀ s,
  labelsResolved s → labelsResolved (reconcileStackResources s rs).
Proof.
  induction rs as [|r rs IH]; intros s Hs; [done|].
  unfold reconcileStackResources. simpl. apply IH.
  by apply reconcileStackResource_labelsResolved.
Qed.

Lemma foldM_inv {A B} (f : A → B → option A) (I : A → Prop) (bs : list B) :
  (∀ a b, b ∈ bs → I a → ∃ a', f a b = Some a' ∧ I a') →
  ∀ a, I a → ∃ a', foldM f a bs = Some a' ∧ I a'.
Proof.
  induction bs as [|b bs IH]; intros Hstep a Ha; simpl; [by exists a|].
  destruct (Hstep a b) as (a' & -> & Ha'); [by left|done|].
  apply IH; [|done]. intros a0 b0 Hb0. apply Hstep. by right.
Qed.

Lemma keepStackAssociations_is_Some ls : ∀ m,
  Forall is_Some ls → is_Some (keepStackAssociations m ls).
Proof.
  induction ls as [|[l|] ls IH]; intros m Hls; simpl; [done| |].
  - apply IH. by apply Forall_cons in Hls as [_ ?].
  - apply Forall_cons in Hls as [[? ?] _]. done.
Qed.

Lemma getF_set_labelMappingsToRemove g s f n :
  getF (set_labelMappingsToRemove g s) f n = getF s f n.
Proof. by destruct f. Qed.

(** A step of the second pass succeeds on a state that has the record the
    resource addresses and resolves its labels, and changes no record. *)
Lemma reconcileLabelMapping_step RT m s r f :
  familyOf (res_Kind r) = Some f →
  is_Some (getF s f (res_PkgName r)) →
  labelsResolved s →
  ∃ s', reconcileLabelMapping RT m s r = Some s' ∧ ∀ f' n', getF s' f' n' = getF s f' n'.
Proof.
  intros Hf [o Ho] Hres. unfold reconcileLabelMapping, labelAssociations.
  rewrite get_getF, Hf. simpl. rewrite Ho.
  assert (Hall : Forall is_Some ((λ l : label, mLabels s !! pkgNameOf l) <$>
                                   default [] (obj_labels o))).
  { apply Forall_fmap, Forall_forall. intros l Hl. simpl. by eapply Hres. }
  assert (Hgoal : ∀ ls, Forall is_Some ls →
    ∃ s', (if bool_decide (length (res_Associations r) = 0) then Some s
           else match keepStackAssociations
                        (remove_dups (filter (λ a, Kind_is (ass_Kind a) KindLabel = true)
                                             (res_Associations r))) ls with
                | None => None
                | Some forRemoval =>
                    Some (set_labelMappingsToRemove
                            (λ old, app old
                               ((λ a, {| LabelPkgName := ass_PkgName a;
                                         LabelID := idOf m (ass_PkgName a);
                                         ResourceID := res_ID r;
                                         ResourcePkgName := res_PkgName r;
                                         ResourceType := RT (res_Kind r) |}) <$> forRemoval))
                            s)
                end) = Some s' ∧ ∀ f' n', getF s' f' n' = getF s f' n').
  { intros ls Hls. case_bool_decide; [by exists s|].
    destruct (keepStackAssociations_is_Some ls
                (remove_dups (filter (λ a, Kind_is (ass_Kind a) KindLabel = true)
                                     (res_Associations r))) Hls) as [fr ->].
    eexists; split; [reflexivity|]. intros. apply getF_set_labelMappingsToRemove. }
  destruct f; try (apply Hgoal; exact Hall).
  apply (Hgoal []). constructor.
Qed.

Lemma labelsResolved_ext s s' :
  (∀ f n, getF s' f n = getF s f n) → labelsResolved s → labelsResolved s'.
Proof.
  intros Heq Hs f n o l Ho Hl. rewrite Heq in Ho.
  apply mLabels_is_Some. rewrite Heq. apply mLabels_is_Some. by eapply Hs.
Qed.

Lemma reconcileLabelMappings_total RT s rs :
  Forall (λ r, ∃ f, familyOf (res_Kind r) = Some f ∧ is_Some (getF s f (res_PkgName r))) rs →
  labelsResolved s →
  ∃ s', reconcileLabelMappings RT s rs = Some s' ∧ ∀ f n, getF s' f n = getF s f n.
Proof.
  intros Hrs Hres. unfold reconcileLabelMappings.
  apply (foldM_inv _ (λ a, ∀ f n, getF a f n = getF s f n)); [|done].
  intros a r Hr Ha. rewrite Forall_forall in Hrs.
  destruct (Hrs r Hr) as (f & Hf & Hsome).
  destruct (reconcileLabelMapping_step RT
              (fold_left (λ m r, if Kind_is (res_Kind r) KindLabel
                                 then <[res_PkgName r := res_ID r]> m else m) rs ∅)
              a r f Hf) as (s' & Hs' & Heq).
  - by rewrite Ha.
  - by apply (labelsResolved_ext s).
  - exists s'. split; [done|]. intros. by rewrite Heq.
Qed.

Lemma Kind_is_true k c : Kind_is k c = true ↔ k = c.
Proof. apply str_eq_true. Qed.

Lemma getF_FRule_is_Some s n : is_Some (getF s FRule n) ↔ is_Some (mRules s !! n).
Proof. simpl. by rewrite fmap_is_Some. Qed.

Lemma obj_forget_idem o : obj_forget (obj_forget o) = obj_forget o.
Proof. by destruct o. Qed.

(** A step of the third pass succeeds when the rule it addresses is in the
    state, and writes nothing but that rule's [associatedEndpoint]. *)
Lemma reconcileNotificationDependency_step s r :
  (res_Kind r = KindNotificationRule → is_Some (mRules s !! res_PkgName r)) →
  ∃ s', reconcileNotificationDependency s r = Some s' ∧
        ∀ f n, obj_forget <$> getF s' f n = obj_forget <$> getF s f n.
Proof.
  intros Hpresent. unfold reconcileNotificationDependency.
  destruct (Kind_is (res_Kind r) KindNotificationRule) eqn:Hk; [|by exists s].
  apply Kind_is_true in Hk.
  destruct (find _ (res_Associations r)) as [a|]; [|by exists s].
  destruct (Hpresent Hk) as [x Hx]. rewrite Hx.
  eexists; split; [reflexivity|].
  intros f n. destruct f; simpl; try reflexivity.
  destruct (decide (n = res_PkgName r)) as [->|Hne].
  - rewrite lookup_alter_eq, Hx. reflexivity.
  - by rewrite lookup_alter_ne.
Qed.

Lemma reconcileNotificationDependencies_total s rs :
  Forall (λ r, res_Kind r = KindNotificationRule → is_Some (mRules s !! res_PkgName r)) rs →
  ∃ s', reconcileNotificationDependencies s rs = Some s' ∧
        ∀ f n, obj_forget <$> getF s' f n = obj_forget <$> getF s f n.
Proof.
  intros Hrs. unfold reconcileNotificationDependencies.
  apply (foldM_inv _ (λ a, ∀ f n, obj_forget <$> getF a f n = obj_forget <$> getF s f n));
    [|done].
  intros a r Hr Ha. rewrite Forall_forall in Hrs.
  destruct (reconcileNotificationDependency_step a r) as (s' & Hs' & Heq).
  - intros Hk. specialize (Hrs r Hr Hk). apply getF_FRule_is_Some.
    apply getF_FRule_is_Some in Hrs. specialize (Ha FRule (res_PkgName r)).
    destruct Hrs as [o Ho]. rewrite Ho in Ha.
    destruct (getF a FRule (res_PkgName r)); [done|discriminate].
  - exists s'. split; [done|]. intros. by rewrite Heq.
Qed.

(** [addStackState] does not panic on a well-formed stack and a state that
    resolves its labels; each record a stack resource addresses ends up, up
    to a rule's [associatedEndpoint], as the first pass left it. *)
Lemma addStackState_getF RT s stack :
  stackWellFormed (Stack_Resources stack) →
  labelsResolved s →
  ∃ s', addStackState RT s stack = Some s' ∧
    ∀ r f, r ∈ Stack_Resources stack → familyOf (res_Kind r) = Some f →
      obj_forget <$> getF s' f (res_PkgName r) =
        Some (obj_forget (match getF s f (res_PkgName r) with
                          | None => obj_removal f (res_PkgName r) (res_ID r)
                          | Some o => obj_idSet (res_ID r) o
                          end)).
Proof.
  intros Hwf Hres. unfold addStackState.
  set (rs := Stack_Resources stack) in *.
  set (s1 := reconcileStackResources s rs).
  assert (H1 : ∀ r f, r ∈ rs → familyOf (res_Kind r) = Some f →
             getF s1 f (res_PkgName r) =
               Some (match getF s f (res_PkgName r) with
                     | None => obj_removal f (res_PkgName r) (res_ID r)
                     | Some o => obj_idSet (res_ID r) o
                     end)).
  { intros. by apply reconcileStackResources_getF. }
  destruct (reconcileLabelMappings_total RT s1 rs) as (s2 & -> & H2).
  { apply Forall_forall. intros r Hr. destruct Hwf as [Hk _].
    rewrite Forall_forall in Hk. destruct (Hk r Hr) as [f Hf].
    exists f. split; [done|]. by rewrite (H1 r f Hr Hf). }
  { by apply reconcileStackResources_labelsResolved. }
  destruct (reconcileNotificationDependencies_total s2 rs) as (s3 & -> & H3).
  { apply Forall_forall. intros r Hr Hk. apply getF_FRule_is_Some.
    rewrite H2. by rewrite (H1 r FRule Hr) by (by rewrite Hk). }
  exists s3. split; [done|]. intros r f Hr Hf.
  by rewrite H3, H2, (H1 r f Hr Hf).
Qed.

(** *** The state built from a package *)

Lemma fromPkg_fold_lookup {P E} `{Parsed P} (ps : list P) :
  ∀ (m : gmap string (stateRecord P E)) n r,
    fold_left (λ m p, <[pkgNameOf p := newState p]> m) ps m !! n = Some r →
    (∃ p, p ∈ ps ∧ pkgNameOf p = n ∧ r = newState p) ∨ m !! n = Some r.
Proof.
  induction ps as [|p ps IH]; intros m n r Hr; simpl in Hr; [by right|].
  apply IH in Hr as [(q & Hq & Hn & ->)|Hr].
  - left. exists q. split; [by right|done].
  - destruct (decide (pkgNameOf p = n)) as [<-|Hne].
    + rewrite lookup_insert_eq in Hr. simplify_eq. left. exists p. split; [by left|done].
    + rewrite lookup_insert_ne in Hr by done. by right.
Qed.

Lemma fromPkg_fold_is_Some {P E} `{Parsed P} (ps : list P) :
  ∀ (m : gmap string (stateRecord P E)) n,
    n ∈ (pkgNameOf <$> ps) ∨ is_Some (m !! n) →
    is_Some (fold_left (λ m p, <[pkgNameOf p := newState p]> m) ps m !! n).
Proof.
  induction ps as [|p ps IH]; intros m n Hn; simpl.
  - destruct Hn as [Hn|Hn]; [by apply elem_of_nil in Hn|done].
  - apply IH. destruct Hn as [Hn|Hn].
    + rewrite fmap_cons in Hn. apply elem_of_cons in Hn as [->|Hn]; [|by left].
      right. by rewrite lookup_insert_eq.
    + right. destruct (decide (pkgNameOf p = n)) as [<-|Hne].
      * by rewrite lookup_insert_eq.
      * by rewrite lookup_insert_ne.
Qed.

Lemma fromPkg_lookup_Some {P E} `{Parsed P} (ps : list P) n (r : stateRecord P E) :
  fromPkg ps !! n = Some r → ∃ p, p ∈ ps ∧ pkgNameOf p = n ∧ r = newState p.
Proof.
  intros Hr. apply fromPkg_fold_lookup in Hr as [?|Hr]; [done|].
  by rewrite lookup_empty in Hr.
Qed.

Lemma fromPkg_is_Some {P E} `{Parsed P} (ps : list P) n :
  is_Some (fromPkg (E:=E) ps !! n) ↔ n ∈ (pkgNameOf <$> ps).
Proof.
  split.
  - intros [r Hr]. apply fromPkg_lookup_Some in Hr as (p & Hp & <- & _).
    apply list_elem_of_fmap. by exists p.
  - intros Hn. apply fromPkg_fold_is_Some. by left.
Qed.

(** A record is in the state built from a package exactly when the
    package declares it. *)
Lemma newStateCoordinator_getF pkg f n :
  is_Some (getF (newStateCoordinator pkg) f n) ↔ pkgHas pkg f n.
Proof.
  destruct f; simpl; rewrite fmap_is_Some; try apply fromPkg_is_Some.
  rewrite lookup_fmap, fmap_is_Some. apply fromPkg_is_Some.
Qed.

Lemma newStateCoordinator_fresh pkg f n o :
  getF (newStateCoordinator pkg) f n = Some o →
  obj_id o = 0%N ∧ obj_stateStatus o = StateStatusNew ∧ PkgName (obj_identity o) = n.
Proof.
  destruct f; simpl; intros Ho;
    try (apply fmap_Some in Ho as (r & Hr & ->);
         apply fromPkg_lookup_Some in Hr as (p & _ & <- & ->); done).
  apply fmap_Some in Ho as (r & Hr & ->). rewrite lookup_fmap in Hr.
  apply fmap_Some in Hr as (r0 & Hr & ->).
  apply fromPkg_lookup_Some in Hr as (p & _ & <- & ->). done.
Qed.

Lemma newStateCoordinator_labelsResolved pkg :
  pkgLabelsDeclared pkg → labelsResolved (newStateCoordinator pkg).
Proof.
  intros (Hb & Hc & Hd & He & Hr & Ht & Hte & Hv) f n o l Ho Hl.
  apply mLabels_is_Some, newStateCoordinator_getF. simpl.
  assert (Hof : ∀ P (HP : Parsed P) E (ps : list P) (r : stateRecord P E),
            labelsDeclared pkg ps → fromPkg ps !! n = Some r → l ∈ labelsOf (parser r) →
            pkgNameOf l ∈ (pkgNameOf <$> pkg_labels pkg)).
  { intros P HP E ps r Hps Hlook Hin.
    apply fromPkg_lookup_Some in Hlook as (p & Hp & _ & ->). simpl in Hin.
    unfold labelsDeclared in Hps. rewrite Forall_forall in Hps.
    specialize (Hps p Hp). rewrite Forall_forall in Hps. by apply Hps. }
  destruct f; simpl in Ho; apply fmap_Some in Ho as (r & Hlook & ->); simpl in Hl.
  - exact (Hof _ _ _ _ r Hb Hlook Hl).
  - exact (Hof _ _ _ _ r Hc Hlook Hl).
  - exact (Hof _ _ _ _ r Hd Hlook Hl).
  - by apply elem_of_nil in Hl.
  - exact (Hof _ _ _ _ r He Hlook Hl).
  - rewrite lookup_fmap in Hlook. apply fmap_Some in Hlook as (r0 & Hlook & ->).
    exact (Hof _ _ _ _ r0 Hr Hlook Hl).
  - exact (Hof _ _ _ _ r Ht Hlook Hl).
  - exact (Hof _ _ _ _ r Hte Hlook Hl).
  - exact (Hof _ _ _ _ r Hv Hlook Hl).
Qed.

Lemma obj_id_forget o : obj_id (obj_forget o) = obj_id o.
Proof. by destruct o. Qed.
Lemma obj_stateStatus_forget o : obj_stateStatus (obj_forget o) = obj_stateStatus o.
Proof. by destruct o. Qed.
Lemma obj_identity_forget o : obj_identity (obj_forget o) = obj_identity o.
Proof. by destruct o. Qed.
Lemma obj_forget_removal f n v : obj_forget (obj_removal f n v) = obj_removal f n v.
Proof. by destruct f. Qed.
Lemma obj_id_idSet v o : obj_id (obj_idSet v o) = v.
Proof. by destruct o. Qed.
Lemma obj_stateStatus_idSet v o : obj_stateStatus (obj_idSet v o) = StateStatusExists.
Proof. by destruct o. Qed.
Lemma obj_identity_idSet v o : obj_identity (obj_idSet v o) = obj_identity o.
Proof. by destruct o. Qed.
Lemma obj_id_removal f n v : obj_id (obj_removal f n v) = v.
Proof. by destruct f. Qed.
Lemma obj_stateStatus_removal f n v : obj_stateStatus (obj_removal f n v) = StateStatusRemove.
Proof. by destruct f. Qed.
Lemma obj_identity_removal f n v : obj_identity (obj_removal f n v) = newIdentity n.
Proof. by destruct f. Qed.

(** C5.  Adding stack state to the coordinator built from a package: for
    each stack resource whose (kind, pkg-name) the package declares, the
    record keeps its parsed object, gets the stack-recorded id and becomes
    EXISTS; for each stack resource the package does not declare, a
    placeholder record (identity only) with status REMOVE and the
    stack-recorded id is in the state.  The stack is one the engine writes
    (kinds of the switch, one entry per record), the package's label
    associations name labels it declares, and the later two reconcilers do
    not undo any of this. *)
Theorem addStackState_reconciles_stack_resources
    (ResourceTypeOf : Kind → string) (pkg : Pkg) (stack : Stack) :
  stackWellFormed (Stack_Resources stack) →
  pkgLabelsDeclared pkg →
  ∃ s', addStackState ResourceTypeOf (newStateCoordinator pkg) stack = Some s' ∧
    ∀ r f, r ∈ Stack_Resources stack → familyOf (res_Kind r) = Some f →
      (pkgHas pkg f (res_PkgName r) →
         ∃ o o', get (newStateCoordinator pkg) (res_Kind r) (res_PkgName r) = Some o ∧
                 get s' (res_Kind r) (res_PkgName r) = Some o' ∧
                 obj_id o' = res_ID r ∧
                 obj_stateStatus o' = StateStatusExists ∧
                 obj_forget o' = obj_forget (obj_idSet (res_ID r) o)) ∧
      (¬ pkgHas pkg f (res_PkgName r) →
         ∃ o', get s' (res_Kind r) (res_PkgName r) = Some o' ∧
               obj_id o' = res_ID r ∧
               obj_stateStatus o' = StateStatusRemove ∧
               obj_forget o' = obj_removal f (res_PkgName r) (res_ID r)).
Proof.
  intros Hwf Hlabels.
  destruct (addStackState_getF ResourceTypeOf (newStateCoordinator pkg) stack Hwf
              (newStateCoordinator_labelsResolved pkg Hlabels)) as (s' & Hs' & Hget).
  exists s'. split; [done|]. intros r f Hr Hf.
  specialize (Hget r f Hr Hf). rewrite !get_getF, Hf. simpl.
  destruct (getF s' f (res_PkgName r)) as [o'|] eqn:Ho'; [|discriminate].
  simpl in Hget. injection Hget as Hget.
  split.
  - intros Hpkg. apply newStateCoordinator_getF in Hpkg as [o Ho]. rewrite Ho in Hget.
    exists o, o'. repeat split; try done.
    + by rewrite <- obj_id_forget, Hget, obj_id_forget, obj_id_idSet.
    + by rewrite <- obj_stateStatus_forget, Hget, obj_stateStatus_forget, obj_stateStatus_idSet.
  - intros Hpkg. rewrite <- newStateCoordinator_getF, <- eq_None_not_Some in Hpkg.
    rewrite Hpkg, obj_forget_removal in Hget.
    exists o'. repeat split; try done.
    + by rewrite <- obj_id_forget, Hget, obj_id_removal.
    + by rewrite <- obj_stateStatus_forget, Hget, obj_stateStatus_removal.
Qed.

(** *** Binding rules to endpoints *)

Lemma boundRule_bound endpoints (r : stateRule) x :
  associatedEndpoint r = Some x → boundRule endpoints r = r.
Proof. unfold boundRule. by intros ->. Qed.

Lemma boundRule_unbound endpoints (r : stateRule) :
  associatedEndpoint r = None →
  boundRule endpoints r =
    set_associatedEndpoint
      (if bool_decide (is_Some (endpoints !! rule_endpointName (parserRule r)))
       then Some (rule_endpointName (parserRule r)) else None) r.
Proof.
  unfold boundRule. intros ->.
  destruct (endpoints !! rule_endpointName (parserRule r)) eqn:He.
  - by rewrite bool_decide_eq_true_2.
  - rewrite bool_decide_eq_false_2; [done|]. by intros [? ?].
Qed.

Lemma bindEndpoints_error endpoints todo : ∀ rules err,
  bindEndpoints endpoints todo rules = inl err →
  ErrorCode err = EUnprocessableEntity ∧
  ∃ k r, (k, r) ∈ todo ∧ unboundRule endpoints r.
Proof.
  induction todo as [|[k0 r0] todo IH]; intros rules err Herr; simpl in Herr; [done|].
  destruct (associatedEndpoint r0) as [x|] eqn:Ha.
  - apply IH in Herr as (Hc & k & r & Hin & Hu). split; [done|].
    exists k, r. split; [by right|done].
  - destruct (negb (IsRemoval (stateStatus r0)) &&
              negb (bool_decide (is_Some (endpoints !! rule_endpointName (parserRule r0)))))
      eqn:Hcond.
    + simplify_eq. split; [done|]. exists k0, r0. split; [by left|].
      apply andb_true_iff in Hcond as [Hrm Hok].
      apply negb_true_iff in Hrm, Hok. apply bool_decide_eq_false in Hok.
      repeat split; [done..|]. by apply eq_None_not_Some.
    + apply IH in Herr as (Hc & k & r & Hin & Hu). split; [done|].
      exists k, r. split; [by right|done].
Qed.

Lemma bindEndpoints_fails endpoints todo : ∀ rules,
  (∃ k r, (k, r) ∈ todo ∧ unboundRule endpoints r) →
  ∃ err, bindEndpoints endpoints todo rules = inl err.
Proof.
  induction todo as [|[k0 r0] todo IH]; intros rules (k & r & Hin & Hu).
  { by apply elem_of_nil in Hin. }
  simpl. destruct (decide (unboundRule endpoints r0)) as [(Ha & Hrm & He)|Hn0].
  - rewrite Ha, Hrm, He. simpl. eauto.
  - assert (Htail : ∃ k r, (k, r) ∈ todo ∧ unboundRule endpoints r).
    { apply elem_of_cons in Hin as [Heq|Hin]; [by simplify_eq|eauto]. }
    destruct (associatedEndpoint r0) as [x|] eqn:Ha; [by apply IH|].
    destruct (negb (IsRemoval (stateStatus r0)) &&
              negb (bool_decide (is_Some (endpoints !! rule_endpointName (parserRule r0)))))
      eqn:Hcond; [eauto|by apply IH].
Qed.

Lemma bindEndpoints_bound endpoints todo : ∀ rules rules',
  NoDup todo.*1 →
  (∀ k r, (k, r) ∈ todo → rules !! k = Some r) →
  bindEndpoints endpoints todo rules = inr rules' →
  ∀ k, rules' !! k = if bool_decide (k ∈ todo.*1)
                     then boundRule endpoints <$> rules !! k else rules !! k.
Proof.
  induction todo as [|[k0 r0] todo IH]; intros rules rules' Hnd Hin Hres k; simpl in Hres.
  { simplify_eq. rewrite bool_decide_eq_false_2; [done|]. apply not_elem_of_nil. }
  rewrite fmap_cons in Hnd. apply NoDup_cons in Hnd as [Hk0 Hnd]. simpl in Hk0.
  assert (H0 : rules !! k0 = Some r0) by (apply Hin; by left).
  assert (Hin' : ∀ k r, (k, r) ∈ todo → rules !! k = Some r).
  { intros. apply Hin. by right. }
  destruct (associatedEndpoint r0) as [x|] eqn:Ha.
  - rewrite (IH _ _ Hnd Hin' Hres k). rewrite fmap_cons. simpl.
    destruct (decide (k = k0)) as [->|Hne].
    + rewrite (bool_decide_eq_false_2 _ Hk0),
        (bool_decide_eq_true_2 (k0 ∈ k0 :: todo.*1)) by (by left).
      rewrite H0. simpl. by rewrite (boundRule_bound _ _ x).
    + rewrite (bool_decide_ext (k ∈ k0 :: todo.*1) (k ∈ todo.*1)); [done|].
      rewrite elem_of_cons. tauto.
  - destruct (negb (IsRemoval (stateStatus r0)) &&
              negb (bool_decide (is_Some (endpoints !! rule_endpointName (parserRule r0)))))
      eqn:Hcond; [done|].
    assert (Hin2 : ∀ k r, (k, r) ∈ todo →
              <[k0 := set_associatedEndpoint
                        (if bool_decide (is_Some (endpoints !! rule_endpointName (parserRule r0)))
                         then Some (rule_endpointName (parserRule r0)) else None) r0]> rules !! k
              = Some r).
    { intros k1 r1 Hk1. rewrite lookup_insert_ne; [by apply Hin'|].
      intros ->. apply Hk0. apply list_elem_of_fmap. by exists (k1, r1). }
    rewrite (IH _ _ Hnd Hin2 Hres k). rewrite fmap_cons. simpl.
    destruct (decide (k = k0)) as [->|Hne].
    + rewrite (bool_decide_eq_false_2 _ Hk0),
        (bool_decide_eq_true_2 (k0 ∈ k0 :: todo.*1)) by (by left).
      rewrite lookup_insert_eq, H0. simpl. by rewrite boundRule_unbound.
    + rewrite lookup_insert_ne by done.
      rewrite (bool_decide_ext (k ∈ k0 :: todo.*1) (k ∈ todo.*1)); [done|].
      rewrite elem_of_cons. tauto.
Qed.

Lemma range_map_elem `{MapRange} {V} (m : gmap string V) k v :
  (k, v) ∈ range_map m ↔ m !! k = Some v.
Proof. rewrite (range_map_perm V m). apply elem_of_map_to_list. Qed.

Lemma range_map_NoDup_fst `{MapRange} {V} (m : gmap string V) : NoDup (range_map m).*1.
Proof. rewrite (range_map_perm V m). apply NoDup_fst_map_to_list. Qed.

Lemma range_map_fst `{MapRange} {V} (m : gmap string V) k :
  k ∈ (range_map m).*1 ↔ is_Some (m !! k).
Proof.
  rewrite list_elem_of_fmap. split.
  - intros ([k' v] & -> & Hin). apply range_map_elem in Hin. by exists v.
  - intros [v Hv]. exists (k, v). split; [done|]. by apply range_map_elem.
Qed.

(** The first loop of [dryRunNotificationRules] on one rule. *)
Lemma dryRunNotificationRules_unfold {W} `{MapRange} (svc : NotificationRuleStore W)
    org rules endpoints (w : W) :
  ∃ prep : stateRule → stateRule,
    dryRunNotificationRules svc org rules endpoints w =
      bindEndpoints endpoints (range_map (prep <$> rules)) (prep <$> rules) ∧
    ∀ r : stateRule,
      associatedEndpoint (prep r) = associatedEndpoint r ∧
      stateStatus (prep r) = stateStatus r ∧
      parserRule (prep r) = parserRule r ∧
      id (prep r) = id r ∧
      orgID (prep r) = org ∧
      existing (prep r) = (if negb (N.eqb (ID r) 0)
                           then FindNotificationRuleByID svc (ID r) w else None).
Proof. eexists. split; [reflexivity|]. intros r. by destruct r as [[]]. Qed.

Lemma unboundRule_ext endpoints (r r' : stateRule) :
  associatedEndpoint r' = associatedEndpoint r → stateStatus r' = stateStatus r →
  parserRule r' = parserRule r → unboundRule endpoints r' ↔ unboundRule endpoints r.
Proof. unfold unboundRule. by intros -> -> ->. Qed.

(** The two outcomes of [dryRunNotificationRules], whatever the order in
    which the rules are visited. *)
Lemma dryRunNotificationRules_outcome {W} (R : MapRange)
    (ruleSVC : NotificationRuleStore W) (org : influxdb_ID)
    (rules : gmap string stateRule) (endpoints : gmap string stateEndpoint) (w : W) :
  ((∃ k r, rules !! k = Some r ∧ unboundRule endpoints r) →
     ∃ err, dryRunNotificationRules ruleSVC org rules endpoints w = inl err ∧
            ErrorCode err = EUnprocessableEntity) ∧
  ((∀ k r, rules !! k = Some r → ¬ unboundRule endpoints r) →
     ∃ rules', dryRunNotificationRules ruleSVC org rules endpoints w = inr rules' ∧
       ∀ k, associatedEndpoint <$> rules' !! k =
              (λ r, associatedEndpoint (boundRule endpoints r)) <$> rules !! k).
Proof.
  destruct (dryRunNotificationRules_unfold ruleSVC org rules endpoints w)
    as (prep & -> & Hprep).
  assert (Hub : ∀ r, unboundRule endpoints (prep r) ↔ unboundRule endpoints r).
  { intros r. destruct (Hprep r) as (? & ? & ? & _). by apply unboundRule_ext. }
  split.
  - intros (k & r & Hk & Hu).
    destruct (bindEndpoints_fails endpoints (range_map (prep <$> rules)) (prep <$> rules))
      as [err Herr].
    { exists k, (prep r). split; [|by apply Hub].
      apply range_map_elem. by rewrite lookup_fmap, Hk. }
    exists err. split; [done|]. by apply bindEndpoints_error in Herr as [? _].
  - intros Hok.
    destruct (bindEndpoints endpoints (range_map (prep <$> rules)) (prep <$> rules))
      as [err|rules'] eqn:Hres.
    { apply bindEndpoints_error in Hres as (_ & k & r & Hin & Hu).
      apply range_map_elem in Hin. rewrite lookup_fmap in Hin.
      apply fmap_Some in Hin as (r0 & Hr0 & ->). apply (proj1 (Hub r0)) in Hu.
      exfalso. exact (Hok k r0 Hr0 Hu). }
    exists rules'. split; [done|]. intros k.
    rewrite (bindEndpoints_bound _ _ _ _ (range_map_NoDup_fst _)
               (λ k r, proj1 (range_map_elem _ k r)) Hres k).
    rewrite lookup_fmap. destruct (rules !! k) as [r|] eqn:Hk; simpl.
    + rewrite bool_decide_eq_true_2.
      2:{ apply range_map_fst. by rewrite lookup_fmap, Hk. }
      simpl. f_equal. destruct (Hprep r) as (Ha & _ & Hp & _).
      unfold boundRule. rewrite Ha.
      destruct (associatedEndpoint r) eqn:Har; [by rewrite Ha|]. simpl. by rewrite Hp.
    + by case_bool_decide.
Qed.

(** *** Dry run *)

Lemma ID_set_orgID {P E} `{HasID E} v (r : stateRecord P E) : ID (set_orgID v r) = ID r.
Proof. reflexivity. Qed.

Lemma attachExisting_outcome {P E} (found : option E) v (r : stateRecord P E) :
  dryRunOutcome r (attachExisting found (set_orgID v r)) found.
Proof.
  unfold dryRunOutcome, attachExisting. simpl.
  destruct (IsNew (stateStatus r) && bool_decide (is_Some found)); done.
Qed.

Lemma attachExisting_outcome' {P E} (found : option E) (r : stateRecord P E) :
  dryRunOutcome r (attachExisting found r) found.
Proof.
  unfold dryRunOutcome, attachExisting. simpl.
  destruct (IsNew (stateStatus r) && bool_decide (is_Some found)); done.
Qed.

Lemma lookup_fmap_Some_2 {A B} (f : A → B) (m : gmap string A) k r :
  m !! k = Some r → (f <$> m) !! k = Some (f r).
Proof. intros Hk. by rewrite lookup_fmap, Hk. Qed.

(** C3 (as the code has it).  The dry run of every record of every kind
    attaches the result of a lookup as [existing] and promotes a NEW record
    that was found to EXISTS (rules excepted: their status is left alone).
    The lookup is: by id when the record's id is not zero, else by name
    within the org, for buckets, checks, labels and variables; by id only,
    and none when the id is zero, for dashboards, tasks, telegraf configs
    and rules; for endpoints, by id in the org's endpoint list, and by name
    in that list when the id finds nothing. *)
Theorem dryRun_lookup_per_kind {W} (w : W) (org : influxdb_ID) :
  (∀ (svc : BucketService W) m k r, m !! k = Some r →
     ∃ r', dryRunBuckets svc org m w !! k = Some r' ∧ orgID r' = org ∧
       dryRunOutcome r r'
         (spec_dryRun_lookup (λ i, FindBucketByID svc i w)
                             (λ n, FindBucketByName svc org n w) r)) ∧
  (∀ (svc : CheckService W) m k r, m !! k = Some r →
     ∃ r', dryRunChecks svc org m w !! k = Some r' ∧
       dryRunOutcome r r'
         (spec_dryRun_lookup (λ i, FindCheckByID svc i w)
                             (λ n, FindCheck svc n org w) r)) ∧
  (∀ (svc : LabelService W) m k r, m !! k = Some r →
     ∃ r', dryRunLabels svc org m w !! k = Some r' ∧
       dryRunOutcome r r'
         (spec_dryRun_lookup (λ i, FindLabelByID svc i w)
            (λ n, match FindLabels svc n org w with
                  | inl _ => None | inr ls => head ls end) r)) ∧
  (∀ (svc : VariableService W) m k r, m !! k = Some r →
     ∃ r', dryRunVariables svc org m w !! k = Some r' ∧
       dryRunOutcome r r'
         (spec_dryRun_lookup (λ i, variablesByID (AllVariables svc org w) !! i)
                             (λ n, variablesByName (AllVariables svc org w) !! n) r)) ∧
  (∀ (svc : DashboardService W) m k r, m !! k = Some r →
     ∃ r', dryRunDashboards svc org m w !! k = Some r' ∧
       dryRunOutcome r r' (if negb (N.eqb (ID r) 0) then FindDashboardByID svc (ID r) w else None)) ∧
  (∀ (svc : TaskService W) m k r, m !! k = Some r →
     ∃ r', dryRunTasks svc org m w !! k = Some r' ∧
       dryRunOutcome r r' (if negb (N.eqb (ID r) 0) then FindTaskByID svc (ID r) w else None)) ∧
  (∀ (svc : TelegrafConfigStore W) m k r, m !! k = Some r →
     ∃ r', dryRunTelegrafConfigs svc org m w !! k = Some r' ∧
       dryRunOutcome r r'
         (if negb (N.eqb (ID r) 0) then FindTelegrafConfigByID svc (ID r) w else None)) ∧
  (∀ (svc : NotificationEndpointService W) m k r es,
     FindNotificationEndpoints svc org w = inr es → m !! k = Some r →
     ∃ m' r', dryRunNotificationEndpoints svc org m w = inr m' ∧ m' !! k = Some r' ∧
       dryRunOutcome r r'
         (match endpointsByID es !! ID r with
          | Some e => Some e
          | None => endpointsByName es !! nameOf (parserEndpoint r)
          end)) ∧
  (∀ (R : MapRange) (svc : NotificationRuleStore W) (m : gmap string stateRule) es k
     (r : stateRule) m',
     dryRunNotificationRules svc org m es w = inr m' → m !! k = Some r →
     ∃ r' : stateRule, m' !! k = Some r' ∧
       existing r' = (if negb (N.eqb (ID r) 0)
                      then FindNotificationRuleByID svc (ID r) w else None) ∧
       stateStatus r' = stateStatus r ∧ id r' = id r ∧ parser r' = parser r).
Proof.
  repeat apply conj.
  - intros svc m k r Hk. unfold dryRunBuckets.
    eexists. split; [exact (lookup_fmap_Some_2 _ _ _ _ Hk)|]. split; [by destruct r as [? ? st ? ?]; simpl;
      destruct (IsNew st && _)|]. apply attachExisting_outcome.
  - intros svc m k r Hk. unfold dryRunChecks.
    eexists. split; [exact (lookup_fmap_Some_2 _ _ _ _ Hk)|]. apply attachExisting_outcome.
  - intros svc m k r Hk. unfold dryRunLabels.
    eexists. split; [exact (lookup_fmap_Some_2 _ _ _ _ Hk)|]. apply attachExisting_outcome.
  - intros svc m k r Hk. unfold dryRunVariables.
    eexists. split; [exact (lookup_fmap_Some_2 _ _ _ _ Hk)|]. apply attachExisting_outcome'.
  - intros svc m k r Hk. unfold dryRunDashboards.
    eexists. split; [exact (lookup_fmap_Some_2 _ _ _ _ Hk)|]. apply attachExisting_outcome.
  - intros svc m k r Hk. unfold dryRunTasks.
    eexists. split; [exact (lookup_fmap_Some_2 _ _ _ _ Hk)|]. apply attachExisting_outcome.
  - intros svc m k r Hk. unfold dryRunTelegrafConfigs.
    eexists. split; [exact (lookup_fmap_Some_2 _ _ _ _ Hk)|]. apply attachExisting_outcome.
  - intros svc m k r es Hes Hk. unfold dryRunNotificationEndpoints. rewrite Hes.
    eexists _, _. split; [reflexivity|].
    split; [exact (lookup_fmap_Some_2 _ _ _ _ Hk)|]. apply attachExisting_outcome'.
  - intros R svc m es k r m' Hres Hk.
    destruct (dryRunNotificationRules_unfold svc org m es w) as (prep & Heq & Hprep).
    rewrite Heq in Hres.
    pose proof (bindEndpoints_bound _ _ _ _ (range_map_NoDup_fst _)
                  (λ k r, proj1 (range_map_elem _ k r)) Hres k) as Hm'.
    rewrite (lookup_fmap_Some_2 prep _ _ _ Hk) in Hm'. simpl in Hm'.
    rewrite bool_decide_eq_true_2 in Hm'.
    2:{ apply range_map_fst. by rewrite (lookup_fmap_Some_2 prep _ _ _ Hk). }
    eexists. split; [exact Hm'|].
    destruct (Hprep r) as (_ & Hs & Hp & Hi & _ & He).
    unfold boundRule. destruct (associatedEndpoint (prep r)); simpl; by rewrite ?Hs, ?Hp, ?Hi, ?He.
Qed.

(** C3, counterexample to the claim as stated.  A new dashboard of the
    package (no id) whose name is the name of a dashboard of the org is not
    looked up by name: it stays NEW with no [existing], though the lookup
    by name would have found the platform's dashboard. *)
Lemma dryRun_dashboard_not_looked_up_by_name :
  ¬ dashboardsLookedUpByIdElseName listDashboardSVC listDashboardByName 1%N
      {[ "dash_1" := example_dashboard ]} example_dashboard_world.
Proof.
  intros Hclaim.
  destruct (Hclaim "dash_1" example_dashboard) as (r' & Hr' & Hex & _); [done..|].
  vm_compute in Hr'. injection Hr' as <-. vm_compute in Hex. discriminate Hex.
Qed.


(** C5, witness: [ex_stack0] against [ex_pkg]. *)
Lemma addStackState_reconciles_stack_resources_witness :
  ∃ s', addStackState (λ k, k) (newStateCoordinator ex_pkg) ex_stack0 = Some s' ∧
    ∀ r f, r ∈ Stack_Resources ex_stack0 → familyOf (res_Kind r) = Some f →
      (pkgHas ex_pkg f (res_PkgName r) →
         ∃ o o', get (newStateCoordinator ex_pkg) (res_Kind r) (res_PkgName r) = Some o ∧
                 get s' (res_Kind r) (res_PkgName r) = Some o' ∧
                 obj_id o' = res_ID r ∧
                 obj_stateStatus o' = StateStatusExists ∧
                 obj_forget o' = obj_forget (obj_idSet (res_ID r) o)) ∧
      (¬ pkgHas ex_pkg f (res_PkgName r) →
         ∃ o', get s' (res_Kind r) (res_PkgName r) = Some o' ∧
               obj_id o' = res_ID r ∧
               obj_stateStatus o' = StateStatusRemove ∧
               obj_forget o' = obj_removal f (res_PkgName r) (res_ID r)).
Proof.
  apply (addStackState_reconciles_stack_resources (λ k, k) ex_pkg ex_stack0).
  - split.
    + repeat constructor; vm_compute; by eexists.
    + apply (bool_decide_unpack _). vm_compute. exact I.
  - repeat split; repeat constructor.
Defined.

(** ** The apply engine *)

Open Scope list_scope.

(** *** The state transformer *)

Lemma bind_unfold {S A B} (m : ST S A) (k : A → ST S B) (s : S) :
  (m ≫= k) s = match m s with None => None | Some (a, s') => k a s' end.
Proof. reflexivity. Qed.

Lemma bind_Some {S A B} (m : ST S A) (k : A → ST S B) (s s' : S) (b : B) :
  (m ≫= k) s = Some (b, s') ↔ ∃ a s1, m s = Some (a, s1) ∧ k a s1 = Some (b, s').
Proof.
  rewrite bind_unfold. split.
  - destruct (m s) as [[a s1]|]; [|discriminate]. intros Hk. by exists a, s1.
  - intros (a & s1 & -> & Hk). exact Hk.
Qed.

Lemma liftM_Some {W A} (m : ST (Machine W) A) (sy sy' : Sys W) (a : A) :
  liftM m sy = Some (a, sy') ↔
  ∃ m', m (machine sy) = Some (a, m') ∧ sy' = mkSys m' (trace sy).
Proof.
  unfold liftM. split.
  - destruct (m (machine sy)) as [[a' m']|]; [|discriminate].
    intros [= <- <-]. by exists m'.
  - intros (m' & -> & ->). reflexivity.
Qed.

(** *** The rollback loop *)

Lemma rollbackCalls_app t1 t2 : rollbackCalls (t1 ++ t2) = rollbackCalls t1 ++ rollbackCalls t2.
Proof. apply omap_app. Qed.

Lemma logged_app t1 t2 : logged (t1 ++ t2) = logged t1 ++ logged t2.
Proof. apply omap_app. Qed.

Lemma storeCalls_app t1 t2 : storeCalls (t1 ++ t2) = storeCalls t1 ++ storeCalls t2.
Proof. apply filter_app. Qed.

Lemma rollbackEvents_cons out outs :
  rollbackEvents (out :: outs) = rollbackEvents [out] ++ rollbackEvents outs.
Proof. unfold rollbackEvents. simpl. by rewrite app_nil_r. Qed.

Lemma rollbackOne_unfold {W} orgID (rb : rollbacker W) (sy : Sys W) :
  rollbackOne orgID rb sy =
  match rb_fn rb orgID (machine sy) with
  | None => None
  | Some (err, m1) => Some (tt, mkSys m1 (trace sy ++ rollbackEvents [(resource rb, err)]))
  end.
Proof.
  destruct sy as [m t].
  unfold rollbackOne, emit, modify, liftM, mbind, ST_bind, mret, ST_ret. simpl.
  destruct (rb_fn rb orgID m) as [[[e|] m1]|]; simpl; [| |done].
  - by rewrite <- app_assoc.
  - reflexivity.
Qed.

Lemma forM_cons {S A} (body : A → ST S unit) x xs (s : S) :
  forM_ body (x :: xs) s =
  match body x s with None => None | Some (_, s') => forM_ body xs s' end.
Proof. reflexivity. Qed.

Lemma forM_rollbackOne {W} orgID (rbs : list (rollbacker W)) (sy : Sys W) :
  forM_ (rollbackOne orgID) rbs sy =
  match compensate orgID rbs (machine sy) with
  | None => None
  | Some (outs, m') => Some (tt, mkSys m' (trace sy ++ rollbackEvents outs))
  end.
Proof.
  revert sy. induction rbs as [|rb rbs IH]; intros [m t].
  { simpl. by rewrite app_nil_r. }
  rewrite forM_cons, rollbackOne_unfold. simpl.
  destruct (rb_fn rb orgID m) as [[err m1]|]; [|done].
  rewrite IH. simpl. destruct (compensate orgID rbs m1) as [[outs m2]|]; [|done].
  by rewrite (rollbackEvents_cons (resource rb, err)), app_assoc.
Qed.

Lemma rollback_compensate {W} (r : rollbackCoordinator W) e orgID (sy : Sys W) :
  rollback r (Some e) orgID sy =
  match compensate orgID (rollbacks r) (machine sy) with
  | None => None
  | Some (outs, m') => Some (tt, mkSys m' (trace sy ++ rollbackEvents outs))
  end.
Proof. apply forM_rollbackOne. Qed.

Lemma compensate_resources {W} orgID (rbs : list (rollbacker W)) m outs m' :
  compensate orgID rbs m = Some (outs, m') → outs.*1 = resource <$> rbs.
Proof.
  revert m outs. induction rbs as [|rb rbs IH]; intros m outs; simpl.
  { by intros [= <- <-]. }
  destruct (rb_fn rb orgID m) as [[err m1]|]; [|done].
  destruct (compensate orgID rbs m1) as [[outs' m2]|] eqn:Hc; [|done].
  intros [= <- <-]. simpl. f_equal. by eapply IH.
Qed.

Lemma compensate_total {W} orgID (rbs : list (rollbacker W)) m :
  (∀ rb m, rb ∈ rbs → is_Some (rb_fn rb orgID m)) → is_Some (compensate orgID rbs m).
Proof.
  revert m. induction rbs as [|rb rbs IH]; intros m Hok; simpl; [by eexists|].
  destruct (Hok rb m) as [[err m1] ->]; [by left|].
  destruct (IH m1) as [[outs m2] ->]; [|by eexists].
  intros rb' m' Hin. apply Hok. by right.
Qed.

Lemma rollbackCalls_rollbackEvents outs : rollbackCalls (rollbackEvents outs) = outs.*1.
Proof.
  induction outs as [|out outs IH]; [done|].
  rewrite rollbackEvents_cons, rollbackCalls_app, IH. by destruct out as [res [e|]].
Qed.

Lemma logged_rollbackEvents outs :
  logged (rollbackEvents outs) =
  omap (λ out : string * option error, (λ e, ("failed to delete " +:+ out.1, e)) <$> out.2) outs.
Proof.
  induction outs as [|out outs IH]; [done|].
  rewrite rollbackEvents_cons, logged_app, IH. by destruct out as [res [e|]].
Qed.

Lemma storeCalls_rollbackEvents outs : storeCalls (rollbackEvents outs) = [].
Proof.
  induction outs as [|out outs IH]; [done|].
  rewrite rollbackEvents_cons, storeCalls_app, IH. by destruct out as [res [e|]].
Qed.

(** *** Registration *)

Lemma runAppliers_rollbacks {W} (r : rollbackCoordinator W) orgID userID apps mErrs m
    mErrs' r' m' :
  runAppliers r orgID userID apps mErrs m = Some (mErrs', r', m') →
  rollbacks r' = rollbacks r ++ (app_rollbacker <$> apps).
Proof.
  revert r mErrs m. induction apps as [|a apps IH]; intros r mErrs m; simpl.
  { intros [= <- <- <-]. by rewrite app_nil_r. }
  rewrite bind_unfold.
  destruct (runEntries a orgID userID _ mErrs m) as [[mErrs1 m1]|]; [|done].
  intros Hrun. apply IH in Hrun. rewrite Hrun. simpl. by rewrite <- app_assoc.
Qed.

Lemma runTilEnd_rollbacks {W} (r : rollbackCoordinator W) orgID userID apps m err r' m' :
  runTilEnd r orgID userID apps m = Some (err, r', m') →
  rollbacks r' = rollbacks r ++ (app_rollbacker <$> apps).
Proof.
  unfold runTilEnd. rewrite bind_unfold.
  destruct (runAppliers r orgID userID apps [] m) as [[[mErrs r1] m1]|] eqn:Hrun; [|done].
  intros [= <- <- <-]. by eapply runAppliers_rollbacks.
Qed.

(** *** The stack store *)

Section store_calls.
Context {W : Type} {R : MapRange} (s : Service W) (g : Given W).

Lemma store_ReadStackByID_unfold stackID (sy : Sys W) :
  store_ReadStackByID s stackID sy =
  Some (ReadStackByID (store s) stackID (world (machine sy)),
        mkSys (machine sy) (trace sy ++ [EvReadStackByID stackID])).
Proof. reflexivity. Qed.

Lemma store_UpdateStack_unfold stack (sy : Sys W) :
  store_UpdateStack s stack sy =
  Some ((UpdateStack (store s) stack (world (machine sy))).2,
        mkSys (set_world (λ _, (UpdateStack (store s) stack (world (machine sy))).1) (machine sy))
              (trace sy ++ [EvUpdateStack stack])).
Proof.
  unfold store_UpdateStack, emit, modify, liftM, call, mbind, ST_bind. simpl.
  by destruct (UpdateStack (store s) stack (world (machine sy))).
Qed.

Lemma updateStackAfterSuccess_unfold stackID st (sy : Sys W) :
  updateStackAfterSuccess s g stackID st sy =
  match ReadStackByID (store s) stackID (world (machine sy)) with
  | inl err => Some (Some err, mkSys (machine sy) (trace sy ++ [EvReadStackByID stackID]))
  | inr stack =>
      match stackResourcesAfterSuccess st with
      | None => None
      | Some stackResources =>
          store_UpdateStack s
            (set_Stack_UpdatedAt (Now g) (set_Stack_Resources stackResources stack))
            (mkSys (machine sy) (trace sy ++ [EvReadStackByID stackID]))
      end
  end.
Proof.
  unfold updateStackAfterSuccess. rewrite bind_unfold, store_ReadStackByID_unfold.
  destruct (ReadStackByID (store s) stackID (world (machine sy))) as [err|stack]; [done|].
  rewrite bind_unfold. by destruct (stackResourcesAfterSuccess st).
Qed.

Lemma updateStackAfterRollback_unfold stackID st (sy : Sys W) :
  updateStackAfterRollback s g stackID st sy =
  match ReadStackByID (store s) stackID (world (machine sy)) with
  | inl err => Some (Some err, mkSys (machine sy) (trace sy ++ [EvReadStackByID stackID]))
  | inr stack =>
      match stackResourcesAfterRollback st (Stack_Resources stack) with
      | None => None
      | Some (hasChanges, resources) =>
          if negb hasChanges
          then Some (None, mkSys (machine sy) (trace sy ++ [EvReadStackByID stackID]))
          else store_UpdateStack s
                 (set_Stack_UpdatedAt (Now g) (set_Stack_Resources resources stack))
                 (mkSys (machine sy) (trace sy ++ [EvReadStackByID stackID]))
      end
  end.
Proof.
  unfold updateStackAfterRollback. rewrite bind_unfold, store_ReadStackByID_unfold.
  destruct (ReadStackByID (store s) stackID (world (machine sy))) as [err|stack]; [done|].
  rewrite bind_unfold.
  destruct (stackResourcesAfterRollback st (Stack_Resources stack)) as [[[] rs]|]; done.
Qed.

(** The stack update calls no compensation. *)
Lemma updateStack_rollbackCalls stackID e st (sy sy' : Sys W) err :
  (match e : option error with
   | Some _ => updateStackAfterRollback s g
   | None => updateStackAfterSuccess s g
   end) stackID st sy = Some (err, sy') →
  rollbackCalls (trace sy') = rollbackCalls (trace sy).
Proof.
  destruct e as [e|].
  - rewrite updateStackAfterRollback_unfold.
    destruct (ReadStackByID _ _ _) as [err0|stack].
    { intros [= <- <-]. simpl. by rewrite rollbackCalls_app, app_nil_r. }
    destruct (stackResourcesAfterRollback _ _) as [[[] rs]|]; simpl; [| |done].
    + rewrite store_UpdateStack_unfold. intros [= <- <-]. simpl.
      by rewrite !rollbackCalls_app, !app_nil_r.
    + intros [= <- <-]. simpl. by rewrite rollbackCalls_app, app_nil_r.
  - rewrite updateStackAfterSuccess_unfold.
    destruct (ReadStackByID _ _ _) as [err0|stack].
    { intros [= <- <-]. simpl. by rewrite rollbackCalls_app, app_nil_r. }
    destruct (stackResourcesAfterSuccess _) as [rs|]; [|done].
    rewrite store_UpdateStack_unfold. intros [= <- <-]. simpl.
    by rewrite !rollbackCalls_app, !app_nil_r.
Qed.

Lemma deferredStackUpdate_unfold stackID e (sy : Sys W) :
  deferredStackUpdate s g stackID e sy =
  if N.eqb stackID 0 then Some (tt, sy)
  else
    match (match e with
           | Some _ => updateStackAfterRollback s g
           | None => updateStackAfterSuccess s g
           end) stackID (state (machine sy)) sy with
    | None => None
    | Some (Some err, sy1) =>
        Some (tt, mkSys (machine sy1) (trace sy1 ++ [EvLogError "failed to update stack" err]))
    | Some (None, sy1) => Some (tt, sy1)
    end.
Proof.
  unfold deferredStackUpdate. destruct (N.eqb stackID 0); [done|].
  rewrite bind_unfold. simpl. rewrite bind_unfold.
  destruct (_ stackID (state (machine sy)) sy) as [[[err|] sy1]|]; done.
Qed.

Lemma deferredStackUpdate_rollbackCalls stackID e (sy sy' : Sys W) u :
  deferredStackUpdate s g stackID e sy = Some (u, sy') →
  rollbackCalls (trace sy') = rollbackCalls (trace sy).
Proof.
  rewrite deferredStackUpdate_unfold. destruct (N.eqb stackID 0).
  { by intros [= <- <-]. }
  destruct (_ stackID (state (machine sy)) sy) as [[err sy1]|] eqn:Hupd; [|done].
  apply updateStack_rollbackCalls in Hupd.
  destruct err as [err|]; intros [= <- <-]; simpl;
    rewrite ?rollbackCalls_app, ?app_nil_r; done.
Qed.

Lemma deferredStackUpdate_no_stack e (sy : Sys W) :
  deferredStackUpdate s g 0%N e sy = Some (tt, sy).
Proof. reflexivity. Qed.

(** [Apply], from the call of [applyState] on, step by step. *)
Lemma applyThenUnwind_unfold orgID userID opt st pkg (sy : Sys W) :
  applyThenUnwind s g orgID userID opt st pkg sy =
  match applyState s g (mkCoordinator []) orgID userID (MissingSecrets opt) (entered st sy) with
  | None => None
  | Some (e, coordinator, m2) =>
      match rollback coordinator e orgID (mkSys m2 (trace sy)) with
      | None => None
      | Some (_, sy1) =>
          match deferredStackUpdate s g (StackID opt) e sy1 with
          | None => None
          | Some (_, sy2) =>
              Some (if e is None then Some (state m2) else None, e,
                    if e is None then pkg_applySecrets g (MissingSecrets opt) pkg else pkg,
                    sy2)
          end
      end
  end.
Proof.
  unfold applyThenUnwind. rewrite bind_unfold. simpl. rewrite bind_unfold.
  unfold liftM at 1. simpl. fold (entered st sy).
  destruct (applyState s g _ orgID userID (MissingSecrets opt) (entered st sy))
    as [[[e coordinator] m2]|]; [|done].
  rewrite bind_unfold. simpl. rewrite bind_unfold.
  destruct (rollback coordinator e orgID _) as [[[] sy1]|]; [|done].
  rewrite bind_unfold.
  destruct (deferredStackUpdate s g (StackID opt) e sy1) as [[[] sy2]|]; done.
Qed.

End store_calls.

(** *** Apply and its rollback *)

Section apply_unwinds.
Context {W : Type} {R : MapRange} (s : Service W) (g : Given W).

Lemma Apply_reaches orgID userID pkg opts (sy : Sys W) st pkg' sy' :
  reachesApplyState s g orgID pkg opts sy st pkg' sy' →
  Apply s g orgID userID pkg opts sy =
  applyThenUnwind s g orgID userID (applyOptFromOptFns opts) st pkg' sy'.
Proof.
  intros (pkg1 & pkg2 & Hvalid & Hrefs & Hdry). unfold Apply.
  rewrite Hvalid, Hrefs, bind_unfold, Hdry. reflexivity.
Qed.

Lemma deferredStackUpdate_trace stackID e (sy sy' : Sys W) u :
  deferredStackUpdate s g stackID e sy = Some (u, sy') →
  ∃ evs, trace sy' = trace sy ++ evs.
Proof.
  rewrite deferredStackUpdate_unfold. destruct (N.eqb stackID 0).
  { intros [= <- <-]. exists []. by rewrite app_nil_r. }
  destruct e as [e|].
  - rewrite updateStackAfterRollback_unfold.
    destruct (ReadStackByID _ _ _) as [err0|stack].
    { intros [= <- <-]. simpl. eexists. by rewrite <- app_assoc. }
    destruct (stackResourcesAfterRollback _ _) as [[[] rs]|]; simpl; [| |done].
    + rewrite store_UpdateStack_unfold.
      destruct (UpdateStack _ _ _).2; intros [= <- <-]; simpl; eexists;
        by rewrite <- ?app_assoc.
    + intros [= <- <-]. by eexists.
  - rewrite updateStackAfterSuccess_unfold.
    destruct (ReadStackByID _ _ _) as [err0|stack].
    { intros [= <- <-]. simpl. eexists. by rewrite <- app_assoc. }
    destruct (stackResourcesAfterSuccess _) as [rs|]; [|done].
    rewrite store_UpdateStack_unfold.
    destruct (UpdateStack _ _ _).2; intros [= <- <-]; simpl; eexists;
      by rewrite <- ?app_assoc.
Qed.

(** What [Apply] does once a stage has failed: the compensations run, and
    the deferred stack update follows. *)
Lemma Apply_unwinds orgID userID pkg opts (sy : Sys W) st pkg' sy0 e coordinator m2 outs m3 :
  reachesApplyState s g orgID pkg opts sy st pkg' sy0 →
  applyState s g (mkCoordinator []) orgID userID
    (MissingSecrets (applyOptFromOptFns opts)) (entered st sy0) = Some (Some e, coordinator, m2) →
  compensate orgID (rollbacks coordinator) m2 = Some (outs, m3) →
  rollback coordinator (Some e) orgID (mkSys m2 (trace sy0))
    = Some (tt, mkSys m3 (trace sy0 ++ rollbackEvents outs)) ∧
  Apply s g orgID userID pkg opts sy =
    match deferredStackUpdate s g (StackID (applyOptFromOptFns opts)) (Some e)
            (mkSys m3 (trace sy0 ++ rollbackEvents outs)) with
    | None => None
    | Some (_, sy2) => Some (None, Some e, pkg', sy2)
    end.
Proof.
  intros Hreach Happly Hcomp.
  assert (Hroll : rollback coordinator (Some e) orgID (mkSys m2 (trace sy0))
                  = Some (tt, mkSys m3 (trace sy0 ++ rollbackEvents outs))).
  { rewrite rollback_compensate. simpl. by rewrite Hcomp. }
  split; [exact Hroll|].
  rewrite (Apply_reaches _ _ _ _ _ _ _ _ Hreach), applyThenUnwind_unfold, Happly, Hroll.
  by destruct (deferredStackUpdate _ _ _ _ _) as [[[] sy2]|].
Qed.

End apply_unwinds.

(** C1 (as the code has it).  When a stage of [Apply] reports an error, the
    coordinator calls every registered compensation in registration order,
    first registered first: [runTilEnd] appends the rollbacker of each
    applier it is handed, in the order it is handed them, and the rollback
    loop walks that list from the front.  Unless a compensation crashes the
    loop runs to its end, and the calls [Apply] has made when it returns are
    the resources of the registered rollbackers, in that order. *)
Theorem rollback_in_registration_order {W} {R : MapRange} (s : Service W) (g : Given W)
    orgID userID pkg opts (sy : Sys W) st pkg' sy0 e coordinator m2 outs m3 :
  reachesApplyState s g orgID pkg opts sy st pkg' sy0 →
  applyState s g (mkCoordinator []) orgID userID
    (MissingSecrets (applyOptFromOptFns opts)) (entered st sy0) = Some (Some e, coordinator, m2) →
  compensate orgID (rollbacks coordinator) m2 = Some (outs, m3) →
  (∃ sy1, rollback coordinator (Some e) orgID (mkSys m2 (trace sy0)) = Some (tt, sy1) ∧
          rollbackCalls (trace sy1)
          = rollbackCalls (trace sy0) ++ (resource <$> rollbacks coordinator)) ∧
  (∀ res sy', Apply s g orgID userID pkg opts sy = Some (res, sy') →
     rollbackCalls (trace sy')
     = rollbackCalls (trace sy0) ++ (resource <$> rollbacks coordinator)) ∧
  (∀ (r : rollbackCoordinator W) appliers m err r' m',
     runTilEnd r orgID userID appliers m = Some (err, r', m') →
     rollbacks r' = rollbacks r ++ (app_rollbacker <$> appliers)).
Proof.
  intros Hreach Happly Hcomp.
  destruct (Apply_unwinds s g _ _ _ _ _ _ _ _ _ _ _ _ _ Hreach Happly Hcomp) as [Hroll HApply].
  assert (Hcalls : rollbackCalls (trace sy0 ++ rollbackEvents outs)
                   = rollbackCalls (trace sy0) ++ (resource <$> rollbacks coordinator)).
  { rewrite rollbackCalls_app, rollbackCalls_rollbackEvents.
    by rewrite (compensate_resources _ _ _ _ _ Hcomp). }
  split; [|split].
  - eexists. split; [exact Hroll|exact Hcalls].
  - intros res sy'. rewrite HApply.
    destruct (deferredStackUpdate _ _ _ _ _) as [[[] sy2]|] eqn:Hdef; [|done].
    intros [= <- <-]. apply deferredStackUpdate_rollbackCalls in Hdef.
    rewrite Hdef. exact Hcalls.
  - intros r appliers m err r' m'. apply runTilEnd_rollbacks.
Qed.

(** C7.  A compensation that fails is logged and the loop goes on: every
    registered compensation is attempted whatever the earlier ones returned
    ([outs] holds one outcome per rollbacker, failures included), each
    failure is written to the logger as [failed to delete] followed by the
    resource, and the error [Apply] returns is the error of the stage. *)
Theorem rollback_logs_failures_and_goes_on {W} {R : MapRange} (s : Service W) (g : Given W)
    orgID userID pkg opts (sy : Sys W) st pkg' sy0 e coordinator m2 outs m3 :
  reachesApplyState s g orgID pkg opts sy st pkg' sy0 →
  applyState s g (mkCoordinator []) orgID userID
    (MissingSecrets (applyOptFromOptFns opts)) (entered st sy0) = Some (Some e, coordinator, m2) →
  compensate orgID (rollbacks coordinator) m2 = Some (outs, m3) →
  outs.*1 = resource <$> rollbacks coordinator ∧
  ∀ res sy', Apply s g orgID userID pkg opts sy = Some (res, sy') →
    res.1.2 = Some e ∧
    rollbackCalls (trace sy') = rollbackCalls (trace sy0) ++ outs.*1 ∧
    ∀ rsc err, (rsc, Some err) ∈ outs →
      ("failed to delete " +:+ rsc, err) ∈ logged (trace sy').
Proof.
  intros Hreach Happly Hcomp.
  destruct (Apply_unwinds s g _ _ _ _ _ _ _ _ _ _ _ _ _ Hreach Happly Hcomp) as [_ HApply].
  split; [by eapply compensate_resources|].
  intros res sy'. rewrite HApply.
  destruct (deferredStackUpdate _ _ _ _ _) as [[[] sy2]|] eqn:Hdef; [|done].
  intros [= <- <-]. split; [done|]. split.
  - apply deferredStackUpdate_rollbackCalls in Hdef. rewrite Hdef. simpl.
    by rewrite rollbackCalls_app, rollbackCalls_rollbackEvents.
  - intros rsc err Hin. apply deferredStackUpdate_trace in Hdef as [evs ->]. simpl.
    rewrite !logged_app, logged_rollbackEvents.
    apply elem_of_app. left. apply elem_of_app. right.
    apply list_elem_of_omap. exists (rsc, Some err). by split.
Qed.

(** *** The run on the small platform *)

Lemma ex_reaches :
  reachesApplyState ex_service ex_given 1%N ex_pkg ex_opts ex_sys ex_state ex_pkg ex_sys.
Proof.
  exists ex_pkg, ex_pkg. split; [reflexivity|]. split; [reflexivity|].
  vm_compute. reflexivity.
Defined.

Lemma ex_applyState :
  applyState ex_service ex_given (mkCoordinator []) 1%N 2%N
    (MissingSecrets (applyOptFromOptFns ex_opts)) (entered ex_state ex_sys)
  = Some (Some ex_error, ex_coordinator, ex_machine).
Proof. vm_compute. reflexivity. Defined.

Lemma ex_compensate :
  compensate 1%N (rollbacks ex_coordinator) ex_machine = Some (ex_outcomes, ex_unwound).
Proof. vm_compute. reflexivity. Defined.

(** C1, witness: on the small platform the bucket stage fails, and the
    compensations are called first registered first. *)
Lemma rollback_in_registration_order_witness :
  reachesApplyState ex_service ex_given 1%N ex_pkg ex_opts ex_sys ex_state ex_pkg ex_sys ∧
  compensate 1%N (rollbacks ex_coordinator) ex_machine = Some (ex_outcomes, ex_unwound) ∧
  ∀ res sy', Apply ex_service ex_given 1%N 2%N ex_pkg ex_opts ex_sys = Some (res, sy') →
    rollbackCalls (trace sy')
    = rollbackCalls (trace ex_sys) ++ (resource <$> rollbacks ex_coordinator).
Proof.
  split; [exact ex_reaches|]. split; [exact ex_compensate|].
  exact (proj1 (proj2 (rollback_in_registration_order ex_service ex_given 1%N 2%N ex_pkg ex_opts
                         ex_sys ex_state ex_pkg ex_sys ex_error ex_coordinator ex_machine
                         ex_outcomes ex_unwound ex_reaches ex_applyState ex_compensate))).
Defined.

(** C1, counterexample to the claim as stated: on the small platform the
    secrets are registered first and their compensation is called first,
    not last. *)
Lemma rollback_not_in_reverse_order :
  ¬ rollsBackInReverse ex_service ex_given 1%N 2%N ex_pkg ex_opts ex_sys.
Proof.
  intros Hrev.
  destruct ex_run as [[res sy']|] eqn:Hrun; [|by vm_compute in Hrun].
  specialize (Hrev _ _ _ _ _ _ res sy' ex_reaches ex_applyState Hrun).
  vm_compute in Hrun. injection Hrun as <- <-.
  vm_compute in Hrev. discriminate Hrev.
Qed.

(** C7, witness: on the small platform the compensation of the label
    fails (the platform refuses to delete it); the seven compensations
    registered after it are called all the same, and the error of the
    bucket stage is returned. *)
Lemma rollback_logs_failures_and_goes_on_witness :
  ("label", Some (ErrNew "error for label[%q]: %s 0000000000000007 label is in use" []))
    ∈ ex_outcomes ∧
  ex_outcomes.*1 = resource <$> rollbacks ex_coordinator ∧
  ∀ res sy', Apply ex_service ex_given 1%N 2%N ex_pkg ex_opts ex_sys = Some (res, sy') →
    res.1.2 = Some ex_error ∧
    rollbackCalls (trace sy') = rollbackCalls (trace ex_sys) ++ ex_outcomes.*1 ∧
    ∀ rsc err, (rsc, Some err) ∈ ex_outcomes →
      ("failed to delete " +:+ rsc, err) ∈ logged (trace sy').
Proof.
  split; [vm_compute; apply list_elem_of_further, list_elem_of_here|].
  exact (rollback_logs_failures_and_goes_on ex_service ex_given 1%N 2%N ex_pkg ex_opts
           ex_sys ex_state ex_pkg ex_sys ex_error ex_coordinator ex_machine
           ex_outcomes ex_unwound ex_reaches ex_applyState ex_compensate).
Defined.

(** C8, at the failing input.  The compensation of the secrets calls
    [DeleteSecret] with no key, whatever keys were put.  On the small
    platform the apply puts the secret [token], the bucket stage fails, the
    compensation of the secrets is called, [DeleteSecret] receives the
    empty key list, and [token] is still there when [Apply] returns. *)
Theorem applySecrets_rollback_passes_no_key :
  (∀ W (R : MapRange) (secretSVC : SecretService W) secrets orgID (m : Machine W),
     rb_fn (app_rollbacker (applySecrets secretSVC secrets)) orgID m =
     if bool_decide (size secrets = 0) then Some (None, m)
     else call (DeleteSecret secretSVC orgID []) m) ∧
  ∃ res sy',
    ex_run = Some (res, sy') ∧
    is_Some res.1.2 ∧
    "secrets" ∈ rollbackCalls (trace sy') ∧
    secretsDone (machine sy') = ["token"] ∧
    ex_deleted (world (machine sy')) = [[]] ∧
    ex_secrets (world (machine sy')) !! "token" = Some "v".
Proof.
  split.
  - intros W R secretSVC secrets orgID m. unfold applySecrets.
    by destruct (bool_decide (size secrets = 0)).
  - destruct ex_run as [[res sy']|] eqn:Hrun; [|by vm_compute in Hrun].
    exists res, sy'. split; [done|].
    vm_compute in Hrun. injection Hrun as <- <-.
    split; [by eexists|]. split; [|by vm_compute].
    vm_compute. apply list_elem_of_here.
Qed.

(** *** Without a stack *)

Section no_stack.
Context {W : Type} {R : MapRange} (s : Service W) (g : Given W).

Lemma dryRun_withStore store' orgID pkg opts (sy : Sys W) :
  StackID (applyOptFromOptFns opts) = 0%N →
  dryRun (withStore store' s) g orgID pkg opts sy = dryRun s g orgID pkg opts sy.
Proof.
  intros Hno. unfold dryRun. cbv zeta. rewrite Hno. reflexivity.
Qed.

Lemma dryRun_no_stack orgID pkg opts (sy sy' : Sys W) res :
  StackID (applyOptFromOptFns opts) = 0%N →
  dryRun s g orgID pkg opts sy = Some (res, sy') → sy' = sy.
Proof.
  intros Hno. unfold dryRun. cbv zeta. rewrite Hno.
  destruct (if negb (isParsed pkg) then Validate g pkg else (None, pkg)) as [err pkg1].
  destruct (notParseErr g err); [by intros [= _ <-]|].
  destruct (if bool_decide (0 < size (EnvRefs (applyOptFromOptFns opts)))
            then applyEnvRefs g (EnvRefs (applyOptFromOptFns opts)) pkg1
            else (None, pkg1)) as [err2 pkg2].
  destruct (notParseErr g err2); [by intros [= _ <-]|].
  simpl. rewrite bind_unfold. simpl. rewrite bind_unfold. simpl.
  destruct (dryRunSecrets s orgID pkg2 (world (machine sy))) as [[err3|] pkg3];
    [by intros [= _ <-]|].
  rewrite bind_unfold.
  destruct (dryRunResources s g orgID (newStateCoordinator pkg2) (world (machine sy)))
    as [[err4|st]|]; simpl; [by intros [= _ <-]..|done].
Qed.

Lemma applyThenUnwind_withStore store' orgID userID opt st pkg (sy : Sys W) :
  StackID opt = 0%N →
  applyThenUnwind (withStore store' s) g orgID userID opt st pkg sy
  = applyThenUnwind s g orgID userID opt st pkg sy.
Proof.
  intros Hno. rewrite !applyThenUnwind_unfold, Hno. reflexivity.
Qed.

Lemma applyThenUnwind_no_stack orgID userID opt st pkg (sy sy' : Sys W) res :
  StackID opt = 0%N →
  applyThenUnwind s g orgID userID opt st pkg sy = Some (res, sy') →
  storeCalls (trace sy') = storeCalls (trace sy).
Proof.
  intros Hno. rewrite applyThenUnwind_unfold, Hno.
  destruct (applyState s g _ orgID userID _ _) as [[[e coordinator] m2]|]; [|done].
  destruct e as [e|].
  - rewrite rollback_compensate. simpl.
    destruct (compensate orgID (rollbacks coordinator) m2) as [[outs m3]|]; [|done].
    rewrite ?deferredStackUpdate_no_stack. simpl. intros [= _ <-]. simpl.
    by rewrite storeCalls_app, storeCalls_rollbackEvents, app_nil_r.
  - simpl. intros [= _ <-]. reflexivity.
Qed.

End no_stack.

(** C10.  With no stack id among the options, [Apply] and [DryRun] never
    call the stack store: what they return and what they leave behind is
    the same whatever store the service has, and the run records no call of
    [ReadStackByID] or [UpdateStack]. *)
Theorem no_stack_no_store_call {W} {R : MapRange} (s : Service W) (g : Given W)
    orgID userID pkg opts (sy : Sys W) :
  StackID (applyOptFromOptFns opts) = 0%N →
  (∀ store', Apply (withStore store' s) g orgID userID pkg opts sy
             = Apply s g orgID userID pkg opts sy) ∧
  (∀ store', DryRun (withStore store' s) g orgID userID pkg opts sy
             = DryRun s g orgID userID pkg opts sy) ∧
  (∀ res sy', Apply s g orgID userID pkg opts sy = Some (res, sy') →
              storeCalls (trace sy') = storeCalls (trace sy)) ∧
  (∀ res sy', DryRun s g orgID userID pkg opts sy = Some (res, sy') →
              storeCalls (trace sy') = storeCalls (trace sy)).
Proof.
  intros Hno. repeat apply conj.
  - intros store'. unfold Apply.
    destruct (if negb (isParsed pkg) then Validate g pkg else (None, pkg)) as [[err|] pkg1];
      [done|].
    cbv zeta. destruct (applyEnvRefs g _ pkg1) as [[err|] pkg2]; [done|].
    rewrite !bind_unfold, dryRun_withStore by done.
    destruct (dryRun s g orgID pkg2 opts sy) as [[[[st err] pkg3] sy0]|]; [|done].
    destruct err as [err|]; [done|]. rewrite !bind_unfold.
    destruct st as [st|]; [|done]. simpl. by apply applyThenUnwind_withStore.
  - intros store'. unfold DryRun. by rewrite !bind_unfold, dryRun_withStore.
  - intros res sy'. unfold Apply.
    destruct (if negb (isParsed pkg) then Validate g pkg else (None, pkg)) as [[err|] pkg1];
      [by intros [= _ <-]|].
    cbv zeta. destruct (applyEnvRefs g _ pkg1) as [[err|] pkg2]; [by intros [= _ <-]|].
    rewrite bind_unfold.
    destruct (dryRun s g orgID pkg2 opts sy) as [[[[st err] pkg3] sy0]|] eqn:Hdry; [|done].
    apply dryRun_no_stack in Hdry as ->; [|done].
    destruct err as [err|]; [by intros [= _ <-]|]. rewrite bind_unfold.
    destruct st as [st|]; [|done]. simpl. by apply applyThenUnwind_no_stack.
  - intros res sy'. unfold DryRun. rewrite bind_unfold.
    destruct (dryRun s g orgID pkg opts sy) as [[[[st err] pkg3] sy0]|] eqn:Hdry; [|done].
    apply dryRun_no_stack in Hdry as ->; [|done].
    by destruct err; intros [= _ <-].
Qed.

(** C10, witness: the options of the run on the small platform name no
    stack. *)
Lemma no_stack_no_store_call_witness :
  StackID (applyOptFromOptFns ex_opts) = 0%N ∧
  ∀ store', Apply (withStore store' ex_service) ex_given 1%N 2%N ex_pkg ex_opts ex_sys
            = Apply ex_service ex_given 1%N 2%N ex_pkg ex_opts ex_sys.
Proof.
  split; [reflexivity|].
  exact (proj1 (no_stack_no_store_call ex_service ex_given 1%N 2%N ex_pkg ex_opts ex_sys
                  eq_refl)).
Defined.

(** *** The gate of the appliers *)

Lemma stateBucket_shouldApply_true (b : stateBucket) :
  stateBucket_shouldApply b = true ↔
  stateStatus b = StateStatusRemove ∨ existing b = None ∨
  ∃ e, existing b = Some e ∧
       (bucket_Description (parserBkt b) ≠ Bucket_Description e ∨
        nameOf (parserBkt b) ≠ Bucket_Name e ∨
        bucket_RP (parserBkt b) ≠ Bucket_RetentionPeriod e).
Proof.
  unfold stateBucket_shouldApply, IsRemoval, negb_eq. rewrite orb_true_iff, str_eq_true.
  destruct (existing b) as [e|]; [|by intuition].
  rewrite !orb_true_iff, !negb_true_iff, !bool_decide_eq_false. split.
  - intros [?|?]; [by left|]. right. right. exists e. split; [done|tauto].
  - intros [?|[?|(e' & [= <-] & ?)]]; [by left|done|right; tauto].
Qed.

Lemma stateLabel_shouldApply_true (l : stateLabel) :
  stateLabel_shouldApply l = true ↔
  stateStatus l = StateStatusRemove ∨ existing l = None ∨
  ∃ e, existing l = Some e ∧
       (label_Description (parserLabel l) ≠ prop (Label_Properties e) "description" ∨
        nameOf (parserLabel l) ≠ Label_Name e ∨
        label_Color (parserLabel l) ≠ prop (Label_Properties e) "color").
Proof.
  unfold stateLabel_shouldApply, IsRemoval, negb_eq. rewrite orb_true_iff, str_eq_true.
  destruct (existing l) as [e|]; [|by intuition].
  rewrite !orb_true_iff, !negb_true_iff, !bool_decide_eq_false. split.
  - intros [?|?]; [by left|]. right. right. exists e. split; [done|tauto].
  - intros [?|[?|(e' & [= <-] & ?)]]; [by left|done|right; tauto].
Qed.

Lemma stateVariable_shouldApply_when (v : stateVariable) :
  stateStatus v = StateStatusRemove ∨ existing v = None ∨
  (∃ e, existing v = Some e ∧
        (Variable_Description e ≠ variable_Description (parserVar v) ∨
         Variable_Arguments e ≠ variable_influxVarArgs (parserVar v))) →
  stateVariable_shouldApply v = true.
Proof.
  unfold stateVariable_shouldApply, IsRemoval, negb_eq. rewrite orb_true_iff, str_eq_true.
  destruct (existing v) as [e|]; [|by intuition].
  rewrite !orb_true_iff, !negb_true_iff, !bool_decide_eq_false, bool_decide_eq_true.
  intros [?|[?|(e' & [= <-] & ?)]]; [by left|done|].
  right. destruct (decide (Variable_Arguments e = None)); tauto.
Qed.

Section gate.
Context {W : Type} {R : MapRange}.

Lemma applyBuckets_skips (bucketSVC : BucketService W) buckets i orgID userID (m : Machine W)
    k b :
  buckets !! i = Some k → mBuckets (state m) !! k = Some b →
  stateBucket_shouldApply b = false →
  cr_fn (app_creater (applyBuckets bucketSVC buckets)) i orgID userID m
  = Some (None, set_state (set_mBuckets (alter (set_orgID orgID) k)) m).
Proof.
  intros Hi Hk Hgate. simpl.
  unfold getBucket, gets, modify, deref, mbind, ST_bind, mret, ST_ret.
  rewrite Hi. simpl. rewrite lookup_alter_eq, Hk. simpl.
  destruct b as [? ? ? ? ?]. unfold stateBucket_shouldApply in *. simpl in *.
  by rewrite Hgate.
Qed.

Lemma applyLabels_skips (labelSVC : LabelService W) labels i orgID userID (m : Machine W)
    k l :
  labels !! i = Some k → mLabels (state m) !! k = Some l →
  stateLabel_shouldApply l = false →
  cr_fn (app_creater (applyLabels labelSVC labels)) i orgID userID m
  = Some (None, set_state (set_mLabels (alter (set_orgID orgID) k)) m).
Proof.
  intros Hi Hk Hgate. simpl.
  unfold getLabel, gets, modify, deref, mbind, ST_bind, mret, ST_ret.
  rewrite Hi. simpl. rewrite lookup_alter_eq, Hk. simpl.
  destruct l as [? ? ? ? ?]. unfold stateLabel_shouldApply in *. simpl in *.
  by rewrite Hgate.
Qed.

Lemma applyVariables_skips (varSVC : VariableService W) vars i orgID userID (m : Machine W)
    k v :
  vars !! i = Some k → mVariables (state m) !! k = Some v →
  stateVariable_shouldApply v = false →
  cr_fn (app_creater (applyVariables varSVC vars)) i orgID userID m
  = Some (None, set_state (set_mVariables (alter (set_orgID orgID) k)) m).
Proof.
  intros Hi Hk Hgate. simpl.
  unfold getVariable, gets, modify, deref, mbind, ST_bind, mret, ST_ret.
  rewrite Hi. simpl. rewrite lookup_alter_eq, Hk. simpl.
  destruct v as [? ? ? ? ?]. unfold stateVariable_shouldApply in *. simpl in *.
  by rewrite Hgate.
Qed.

(** The create function of the checks on a record that exists: the check
    is updated, whatever the platform has. *)
Lemma applyChecks_updates (checkSVC : CheckService W) checks i orgID userID (m : Machine W)
    k (c : stateCheck) :
  checks !! i = Some k → mChecks (state m) !! k = Some c →
  stateStatus c = StateStatusExists →
  let c' := set_orgID orgID c in
  let m1 := set_state (set_mChecks (alter (set_orgID orgID) k)) m in
  let called := UpdateCheck checkSVC (ID c')
                  (mkCheckCreate (stateCheck_summarize c') (check_status (parserCheck c')))
                  (world m) in
  cr_fn (app_creater (applyChecks checkSVC checks)) i orgID userID m
  = match called.2 with
    | inl err =>
        Some (Some (ApplyErrBody (nameOf (parserCheck c')) (Error_string err)),
              set_world (λ _, called.1) m1)
    | inr None => None
    | inr (Some influxCheck) =>
        Some (None,
              set_checksDone (λ ks, app ks [k])
                (set_state (set_mChecks (alter (set_id (GetID influxCheck)) k))
                   (set_world (λ _, called.1) m1)))
    end.
Proof.
  intros Hi Hk Hst c' m1 called. subst c' m1 called. simpl.
  unfold getCheck, gets, modify, deref, mbind, ST_bind, mret, ST_ret.
  rewrite Hi. simpl. rewrite lookup_alter_eq, Hk. simpl.
  unfold applyCheck. destruct c as [cid corg cst cp ce]. simpl in *. subst cst.
  simpl. unfold call. simpl.
  destruct (UpdateCheck checkSVC _ _ (world m)) as [w' [err|[ch|]]]; reflexivity.
Qed.

End gate.

(** C4 (as the code has it).  Buckets, labels and variables have a
    [shouldApply]; the other kinds have none.  For a bucket and for a label
    it is true exactly when the record is to be removed, or has no
    [existing] resource, or its description, its name or its retention
    period (for a label: its color) is not that of [existing]; for a
    variable it is true when the record is to be removed, or has no
    [existing] variable, or its description or its arguments are not those
    of [existing].  The predicate gates the create functions of these three
    kinds: a record for which it is false is skipped, the platform is not
    called and only the org id of the record is written.  The create
    function of the checks has no gate: a check that exists is updated
    whatever the platform holds. *)
Theorem shouldApply_gates_buckets_labels_variables :
  (∀ b : stateBucket,
     stateBucket_shouldApply b = true ↔
     stateStatus b = StateStatusRemove ∨ existing b = None ∨
     ∃ e, existing b = Some e ∧
          (bucket_Description (parserBkt b) ≠ Bucket_Description e ∨
           nameOf (parserBkt b) ≠ Bucket_Name e ∨
           bucket_RP (parserBkt b) ≠ Bucket_RetentionPeriod e)) ∧
  (∀ l : stateLabel,
     stateLabel_shouldApply l = true ↔
     stateStatus l = StateStatusRemove ∨ existing l = None ∨
     ∃ e, existing l = Some e ∧
          (label_Description (parserLabel l) ≠ prop (Label_Properties e) "description" ∨
           nameOf (parserLabel l) ≠ Label_Name e ∨
           label_Color (parserLabel l) ≠ prop (Label_Properties e) "color")) ∧
  (∀ v : stateVariable,
     stateStatus v = StateStatusRemove ∨ existing v = None ∨
     (∃ e, existing v = Some e ∧
           (Variable_Description e ≠ variable_Description (parserVar v) ∨
            Variable_Arguments e ≠ variable_influxVarArgs (parserVar v))) →
     stateVariable_shouldApply v = true) ∧
  (∀ W (bucketSVC : BucketService W) buckets i orgID userID (m : Machine W) k b,
     buckets !! i = Some k → mBuckets (state m) !! k = Some b →
     stateBucket_shouldApply b = false →
     cr_fn (app_creater (applyBuckets bucketSVC buckets)) i orgID userID m
     = Some (None, set_state (set_mBuckets (alter (set_orgID orgID) k)) m)) ∧
  (∀ W (labelSVC : LabelService W) labels i orgID userID (m : Machine W) k l,
     labels !! i = Some k → mLabels (state m) !! k = Some l →
     stateLabel_shouldApply l = false →
     cr_fn (app_creater (applyLabels labelSVC labels)) i orgID userID m
     = Some (None, set_state (set_mLabels (alter (set_orgID orgID) k)) m)) ∧
  (∀ W (varSVC : VariableService W) vars i orgID userID (m : Machine W) k v,
     vars !! i = Some k → mVariables (state m) !! k = Some v →
     stateVariable_shouldApply v = false →
     cr_fn (app_creater (applyVariables varSVC vars)) i orgID userID m
     = Some (None, set_state (set_mVariables (alter (set_orgID orgID) k)) m)) ∧
  (∀ W (checkSVC : CheckService W) checks i orgID userID (m : Machine W) k (c : stateCheck),
     checks !! i = Some k → mChecks (state m) !! k = Some c →
     stateStatus c = StateStatusExists →
     let c' := set_orgID orgID c in
     let m1 := set_state (set_mChecks (alter (set_orgID orgID) k)) m in
     let called := UpdateCheck checkSVC (ID c')
                     (mkCheckCreate (stateCheck_summarize c') (check_status (parserCheck c')))
                     (world m) in
     cr_fn (app_creater (applyChecks checkSVC checks)) i orgID userID m
     = match called.2 with
       | inl err =>
           Some (Some (ApplyErrBody (nameOf (parserCheck c')) (Error_string err)),
                 set_world (λ _, called.1) m1)
       | inr None => None
       | inr (Some influxCheck) =>
           Some (None,
                 set_checksDone (λ ks, app ks [k])
                   (set_state (set_mChecks (alter (set_id (GetID influxCheck)) k))
                      (set_world (λ _, called.1) m1)))
       end).
Proof.
  split; [exact stateBucket_shouldApply_true|].
  split; [exact stateLabel_shouldApply_true|].
  split; [exact stateVariable_shouldApply_when|].
  split; [intros W; apply applyBuckets_skips|].
  split; [intros W; apply applyLabels_skips|].
  split; [intros W; apply applyVariables_skips|].
  intros W. apply applyChecks_updates.
Qed.

(** C4, counterexample to the claim as stated: the check [check_1] exists
    on the platform exactly as the package describes it, so the gate the
    specification describes is closed; the create function of the checks
    updates it all the same. *)
Lemma check_applied_though_unchanged :
  ¬ checksSkippedWhenUnchanged ex_checkSVC ["check_1"] 0 1%N 2%N ex_checkMachine.
Proof.
  intros Hskip.
  destruct (Hskip "check_1" ex_check eq_refl eq_refl eq_refl) as (m' & Hrun & Hworld).
  vm_compute in Hrun. injection Hrun as <-.
  vm_compute in Hworld. discriminate Hworld.
Qed.

(** *** The stack after a successful apply *)

Lemma filter_fmap_comm {A B} (f : A → B) (P : B → Prop) `{∀ y, Decision (P y)} (l : list A) :
  filter P (f <$> l) = f <$> filter (λ x, P (f x)) l.
Proof.
  induction l as [|x l IH]; [done|]. rewrite fmap_cons, !filter_cons.
  destruct (decide (P (f x))); by rewrite IH.
Qed.

Lemma mapM_Some_fmap {A B} (g : A → option B) (f : A → B) (l : list A) :
  Forall (λ x, g x = Some (f x)) l → mapM g l = Some (f <$> l).
Proof.
  intros Hl. apply mapM_Some. induction Hl; constructor; done.
Qed.

Section stack_rewrite.
Context {R : MapRange}.
Variable st : stateCoordinator.
Hypothesis Hkeyed : wellKeyed st.
Hypothesis Hpresent : labelsPresent st.

Lemma keyed_elem {X} (inj : X → stateObject) (m : gmap string X) n x :
  m !! n = Some x → (n, inj x) ∈ keyed inj m.
Proof.
  intros Hx. apply list_elem_of_fmap. exists (n, x). split; [done|].
  by apply elem_of_map_to_list.
Qed.

Lemma keyedObjects_elem f n o : getF st f n = Some o → (n, o) ∈ keyedObjects st.
Proof.
  unfold keyedObjects. rewrite !elem_of_app.
  destruct f; simpl; intros (x & Hx & ->)%fmap_Some; eauto 10 using keyed_elem.
Qed.

Lemma wellKeyed_getF f n o : getF st f n = Some o → PkgName (obj_identity o) = n.
Proof.
  intros Hin%keyedObjects_elem. unfold wellKeyed in Hkeyed.
  rewrite Forall_forall in Hkeyed. exact (Hkeyed _ Hin).
Qed.

Lemma labelsPresent_getF f n o l :
  getF st f n = Some o → l ∈ default [] (obj_labels o) → is_Some (mLabels st !! pkgNameOf l).
Proof.
  intros Hin%keyedObjects_elem Hl. unfold labelsPresent in Hpresent.
  rewrite Forall_forall in Hpresent. specialize (Hpresent _ Hin).
  rewrite Forall_forall in Hpresent. exact (Hpresent _ Hl).
Qed.

Lemma stateLabelsToStackAssociations_present (ls : list label) :
  (∀ l, l ∈ ls → is_Some (mLabels st !! pkgNameOf l)) →
  stateLabelsToStackAssociations ((λ l, mLabels st !! pkgNameOf l) <$> ls)
  = Some ((λ l : label, mkAssociation KindLabel (pkgNameOf l)) <$> ls).
Proof.
  unfold stateLabelsToStackAssociations.
  induction ls as [|l ls IH]; intros Hls; [done|].
  destruct (Hls l) as [sl Hsl]; [by left|].
  rewrite !fmap_cons, Hsl. cbn [mapM]. rewrite IH; [|intros; apply Hls; by right].
  simpl. do 3 f_equal.
  exact (wellKeyed_getF FLabel (pkgNameOf l) (ObjLabel sl) (ltac:(simpl; by rewrite Hsl))).
Qed.

(** The label associations of a record that [get] finds. *)
Lemma labelAssociations_present k f n o :
  familyOf k = Some f → f ≠ FLabel → getF st f n = Some o →
  labelAssociations st k n ≫= stateLabelsToStackAssociations = Some (labelAssociationsOf o).
Proof.
  intros Hf Hnl Ho.
  assert (Hassoc : labelAssociations st k n
                   = Some ((λ l, mLabels st !! pkgNameOf l) <$> default [] (obj_labels o))).
  { unfold labelAssociations. rewrite get_getF, Hf. simpl. rewrite Ho. by destruct f. }
  rewrite Hassoc. simpl. apply stateLabelsToStackAssociations_present.
  intros l. by apply (labelsPresent_getF f n o).
Qed.

(** One loop of [updateStackAfterSuccess]. *)
Lemma stackResources_family {X P E} `{HasID E} `{Parsed P} k f
    (proj : X → stateRecord P E) (extra : X → list StackResourceAssociation)
    (inj : X → stateObject) (m : gmap string X) :
  familyOf k = Some f → f ≠ FLabel →
  (∀ n, getF st f n = inj <$> m !! n) →
  (∀ x, spec_stackResource st (inj x)
        = mkStackResource APIVersion (ID (proj x)) k (PkgName (obj_identity (inj x)))
            (labelAssociationsOf (inj x) ++ extra x)) →
  (∀ x, obj_identity (inj x) = identityOf (parser (proj x))) →
  (∀ x, obj_stateStatus (inj x) = stateStatus (proj x)) →
  ∃ rs,
    mapM (λ kx : string * X, stackResourceOf st k (extra kx.2) (proj kx.2))
         (filter (λ kx : string * X, negb (IsRemoval (stateStatus (proj kx.2)))) (range_map m))
    = Some rs ∧
    rs ≡ₚ spec_stackResource st
            <$> filter (λ o, negb (IsRemoval (obj_stateStatus o))) (keyed inj m).*2.
Proof.
  intros Hf Hnl Hget Hspec Hid Hstatus.
  exists ((λ kx : string * X, spec_stackResource st (inj kx.2))
            <$> filter (λ kx : string * X, negb (IsRemoval (stateStatus (proj kx.2))))
                       (range_map m)).
  split.
  - apply mapM_Some_fmap, Forall_forall. intros [n x] [_ Hin]%list_elem_of_filter.
    rewrite range_map_perm in Hin. apply elem_of_map_to_list in Hin.
    assert (Ho : getF st f n = Some (inj x)) by (by rewrite Hget, Hin).
    pose proof (wellKeyed_getF _ _ _ Ho) as Hn. simpl.
    unfold stackResourceOf, pkgNameOf. rewrite <- Hid, Hn.
    pose proof (labelAssociations_present k f n (inj x) Hf Hnl Ho) as Hassoc.
    destruct (labelAssociations st k n) as [ls|]; [|done]. simpl in *.
    rewrite Hassoc. simpl. by rewrite Hspec, Hn.
  - rewrite range_map_perm. unfold keyed.
    rewrite <- list_fmap_compose, filter_fmap_comm, <- list_fmap_compose.
    match goal with |- ?a ≡ₚ ?b => cut (a = b); [by intros ->|] end. f_equal.
    apply list_filter_iff. intros [n x]. simpl. by rewrite Hstatus.
Qed.

Lemma stackResources_labels :
  stackResourcesOfLabels (mLabels st)
  ≡ₚ spec_stackResource st
       <$> filter (λ o, negb (IsRemoval (obj_stateStatus o))) (keyed ObjLabel (mLabels st)).*2.
Proof.
  unfold stackResourcesOfLabels, keyed. rewrite range_map_perm.
  rewrite <- list_fmap_compose, filter_fmap_comm, <- list_fmap_compose.
  match goal with |- ?a ≡ₚ ?b => cut (a = b); [by intros ->|] end.
  apply list_fmap_ext. intros i [n l] _. simpl.
  unfold spec_stackResource, labelAssociationsOf. simpl. reflexivity.
Qed.

Lemma stackResourcesAfterSuccess_spec :
  ∃ rs, stackResourcesAfterSuccess st = Some rs ∧ rs ≡ₚ spec_stackResources st.
Proof.
  destruct (stackResources_family KindBucket FBucket (λ x : stateBucket, x) (λ _, [])
              ObjBucket (mBuckets st)) as (bs & Hbs & Hb); try done.
  destruct (stackResources_family KindCheck FCheck (λ x : stateCheck, x) (λ _, [])
              ObjCheck (mChecks st)) as (cs & Hcs & Hc); try done.
  destruct (stackResources_family KindDashboard FDashboard (λ x : stateDashboard, x) (λ _, [])
              ObjDashboard (mDashboards st)) as (ds & Hds & Hd); try done.
  destruct (stackResources_family KindNotificationEndpoint FEndpoint (λ x : stateEndpoint, x)
              (λ _, []) ObjEndpoint (mEndpoints st)) as (ns & Hns & Hn); try done.
  destruct (stackResources_family KindNotificationRule FRule rule_state
              (λ r, [endpointAssociation st r]) ObjRule (mRules st))
    as (rs & Hrs & Hr); try done.
  destruct (stackResources_family KindTask FTask (λ x : stateTask, x) (λ _, [])
              ObjTask (mTasks st)) as (ts & Hts & Ht); try done.
  destruct (stackResources_family KindTelegraf FTelegraf (λ x : stateTelegraf, x) (λ _, [])
              ObjTelegraf (mTelegrafs st)) as (tes & Htes & Hte); try done.
  destruct (stackResources_family KindVariable FVariable (λ x : stateVariable, x) (λ _, [])
              ObjVariable (mVariables st)) as (vs & Hvs & Hv); try done.
  eexists. split.
  - unfold stackResourcesAfterSuccess.
    rewrite (Hbs : stackResourcesOf st KindBucket (mBuckets st) = Some bs),
            (Hcs : stackResourcesOf st KindCheck (mChecks st) = Some cs),
            (Hds : stackResourcesOf st KindDashboard (mDashboards st) = Some ds),
            (Hns : stackResourcesOf st KindNotificationEndpoint (mEndpoints st) = Some ns),
            (Hrs : stackResourcesOfRules st (mRules st) = Some rs),
            (Hts : stackResourcesOf st KindTask (mTasks st) = Some ts),
            (Htes : stackResourcesOf st KindTelegraf (mTelegrafs st) = Some tes),
            (Hvs : stackResourcesOf st KindVariable (mVariables st) = Some vs).
    reflexivity.
  - unfold spec_stackResources, keyedObjects.
    rewrite !fmap_app, !filter_app, !fmap_app. simpl.
    rewrite Hb, Hc, Hd, Hn, stackResources_labels, Hr, Ht, Hte, Hv, app_nil_r.
    reflexivity.
Qed.

End stack_rewrite.

(** What [Apply] does once every stage has succeeded: no compensation
    runs, and the deferred stack update follows. *)
Lemma Apply_succeeds {W} {R : MapRange} (s : Service W) (g : Given W)
    orgID userID pkg opts (sy : Sys W) st pkg' sy0 coordinator m2 :
  reachesApplyState s g orgID pkg opts sy st pkg' sy0 →
  applyState s g (mkCoordinator []) orgID userID
    (MissingSecrets (applyOptFromOptFns opts)) (entered st sy0) = Some (None, coordinator, m2) →
  Apply s g orgID userID pkg opts sy =
    match deferredStackUpdate s g (StackID (applyOptFromOptFns opts)) None
            (mkSys m2 (trace sy0)) with
    | None => None
    | Some (_, sy2) =>
        Some (Some (state m2), None,
              pkg_applySecrets g (MissingSecrets (applyOptFromOptFns opts)) pkg', sy2)
    end.
Proof.
  intros Hreach Happly.
  rewrite (Apply_reaches _ _ _ _ _ _ _ _ _ _ Hreach), applyThenUnwind_unfold, Happly.
  simpl. by destruct (deferredStackUpdate _ _ _ _ _) as [[[] sy2]|].
Qed.

(** C2.  After an [Apply] with a stack in which every stage succeeded, the
    store is asked to write the stack once, with [resources] rewritten to
    one resource for every record of the state that is not a removal (its
    current platform id, its kind, its package name and its label
    associations), none for a removal, and with [updatedAt] set to the
    current time; the other fields of the stack are as they were read.  The
    records are stored under their package names and the labels they are
    associated with are records of the state. *)
Theorem stack_rewritten_after_success {W} {R : MapRange} (s : Service W) (g : Given W)
    orgID userID pkg opts (sy : Sys W) st pkg' sy0 coordinator m2 stack :
  reachesApplyState s g orgID pkg opts sy st pkg' sy0 →
  applyState s g (mkCoordinator []) orgID userID
    (MissingSecrets (applyOptFromOptFns opts)) (entered st sy0) = Some (None, coordinator, m2) →
  StackID (applyOptFromOptFns opts) ≠ 0%N →
  ReadStackByID (store s) (StackID (applyOptFromOptFns opts)) (world m2) = inr stack →
  wellKeyed (state m2) →
  labelsPresent (state m2) →
  ∃ stack' sy',
    Apply s g orgID userID pkg opts sy
    = Some (Some (state m2), None,
            pkg_applySecrets g (MissingSecrets (applyOptFromOptFns opts)) pkg', sy') ∧
    storeCalls (trace sy')
    = storeCalls (trace sy0)
      ++ [EvReadStackByID (StackID (applyOptFromOptFns opts)); EvUpdateStack stack'] ∧
    world (machine sy') = (UpdateStack (store s) stack' (world m2)).1 ∧
    Stack_Resources stack' ≡ₚ spec_stackResources (state m2) ∧
    Stack_UpdatedAt stack' = Now g ∧
    (Stack_ID stack', Stack_OrgID stack', Stack_Name stack', Stack_Description stack',
     Stack_URLs stack', Stack_CreatedAt stack')
    = (Stack_ID stack, Stack_OrgID stack, Stack_Name stack, Stack_Description stack,
       Stack_URLs stack, Stack_CreatedAt stack).
Proof.
  intros Hreach Happly Hstack Hread Hkeyed Hpresent.
  destruct (stackResourcesAfterSuccess_spec (state m2) Hkeyed Hpresent) as (rs & Hrs & Hperm).
  exists (set_Stack_UpdatedAt (Now g) (set_Stack_Resources rs stack)).
  rewrite (Apply_succeeds s g _ _ _ _ _ _ _ _ _ _ Hreach Happly).
  rewrite deferredStackUpdate_unfold.
  apply N.eqb_neq in Hstack. rewrite Hstack.
  rewrite updateStackAfterSuccess_unfold. simpl. rewrite Hread, Hrs.
  rewrite store_UpdateStack_unfold. simpl.
  destruct (UpdateStack (store s) _ (world m2)) as [w' [err|]] eqn:Hupd; simpl;
    eexists; (split; [reflexivity|]); simpl;
    rewrite ?storeCalls_app, ?app_nil_r, <- ?app_assoc; done.
Qed.

(** C2, witness: the run on the small platform that succeeds, with its
    stack. *)
Lemma stack_rewritten_after_success_witness :
  StackID (applyOptFromOptFns ex_stackOpts) ≠ 0%N ∧
  wellKeyed (state ex_machine1) ∧
  labelsPresent (state ex_machine1) ∧
  ∃ stack' sy',
    Apply ex_service ex_given 1%N 2%N ex_okPkg ex_stackOpts ex_sys1
    = Some (Some (state ex_machine1), None,
            pkg_applySecrets ex_given (MissingSecrets (applyOptFromOptFns ex_stackOpts)) ex_okPkg,
            sy') ∧
    storeCalls (trace sy')
    = storeCalls (trace ex_sys1')
      ++ [EvReadStackByID (StackID (applyOptFromOptFns ex_stackOpts)); EvUpdateStack stack'] ∧
    world (machine sy') = (UpdateStack (store ex_service) stack' (world ex_machine1)).1 ∧
    Stack_Resources stack' ≡ₚ spec_stackResources (state ex_machine1) ∧
    Stack_UpdatedAt stack' = Now ex_given ∧
    (Stack_ID stack', Stack_OrgID stack', Stack_Name stack', Stack_Description stack',
     Stack_URLs stack', Stack_CreatedAt stack')
    = (Stack_ID ex_stack1, Stack_OrgID ex_stack1, Stack_Name ex_stack1,
       Stack_Description ex_stack1, Stack_URLs ex_stack1, Stack_CreatedAt ex_stack1).
Proof.
  assert (Hstack : StackID (applyOptFromOptFns ex_stackOpts) ≠ 0%N) by done.
  assert (Hkeyed : wellKeyed (state ex_machine1)).
  { apply (bool_decide_unpack _). vm_compute. exact I. }
  assert (Hpresent : labelsPresent (state ex_machine1)).
  { apply (bool_decide_unpack _). vm_compute. exact I. }
  split; [exact Hstack|]. split; [exact Hkeyed|]. split; [exact Hpresent|].
  apply (stack_rewritten_after_success ex_service ex_given 1%N 2%N ex_okPkg ex_stackOpts
           ex_sys1 ex_state1 ex_okPkg ex_sys1' ex_coordinator1 ex_machine1 ex_stack1).
  - exists ex_okPkg, ex_okPkg. split; [reflexivity|]. split; [reflexivity|].
    vm_compute. reflexivity.
  - vm_compute. reflexivity.
  - exact Hstack.
  - vm_compute. reflexivity.
  - exact Hkeyed.
  - exact Hpresent.
Defined.

(** *** Rules and endpoints in the dry run *)

Lemma unboundRule_fmap (f : stateEndpoint → stateEndpoint)
    (endpoints : gmap string stateEndpoint) (r : stateRule) :
  unboundRule (f <$> endpoints) r ↔ unboundRule endpoints r.
Proof.
  unfold unboundRule. rewrite lookup_fmap, fmap_None. reflexivity.
Qed.

(** C6.  [dryRunNotificationRules] fails, with an UnprocessableEntity
    error, exactly when some rule has no associated endpoint, is not being
    removed, and names an endpoint that is not in the state's endpoint map;
    otherwise it succeeds and every rule that had no endpoint is bound to
    the endpoint it names (to none, for a rule being removed whose endpoint
    is gone), whatever the order in which the rules are visited.  In the
    dry run, once the endpoints have been looked up, the first case ends
    the dry run with that error and the second lets it go on to the label
    mappings with the rules bound. *)
Theorem dryRunNotificationRules_binds_or_fails {W} (R : MapRange)
    (svc : NotificationRuleStore W) (org : influxdb_ID)
    (rules : gmap string stateRule) (endpoints : gmap string stateEndpoint) (w : W) :
  ((∃ k r, rules !! k = Some r ∧ unboundRule endpoints r) →
     ∃ err, dryRunNotificationRules svc org rules endpoints w = inl err ∧
            ErrorCode err = EUnprocessableEntity) ∧
  ((∀ k r, rules !! k = Some r → ¬ unboundRule endpoints r) →
     ∃ rules', dryRunNotificationRules svc org rules endpoints w = inr rules' ∧
       ∀ k, associatedEndpoint <$> rules' !! k =
              (λ r, associatedEndpoint (boundRule endpoints r)) <$> rules !! k) ∧
  (∀ (s : Service W) (g : Given W) (st : stateCoordinator) endpoints',
     dryRunNotificationEndpoints (endpointSVC s) org (mEndpoints st) w = inr endpoints' →
     ((∃ k r, mRules st !! k = Some r ∧ unboundRule (mEndpoints st) r) →
        ∃ err, dryRunResources s g org st w = Some (inl err) ∧
               ErrorCode err = EUnprocessableEntity) ∧
     ((∀ k r, mRules st !! k = Some r → ¬ unboundRule (mEndpoints st) r) →
        ∃ st', dryRunNotificationRules (ruleSVC s) org (mRules st) endpoints' w
               = inr (mRules st') ∧
               mEndpoints st' = endpoints' ∧
               dryRunResources s g org st w
               = match dryRunLabelMappings g st' w with
                 | None => None
                 | Some (inl err) => Some (inl err)
                 | Some (inr stateLabelMappings) =>
                     Some (inr (set_labelMappings stateLabelMappings st'))
                 end)).
Proof.
  split; [exact (proj1 (dryRunNotificationRules_outcome R svc org rules endpoints w))|].
  split; [exact (proj2 (dryRunNotificationRules_outcome R svc org rules endpoints w))|].
  intros s g st endpoints' Hends.
  assert (Hub : ∀ r, unboundRule endpoints' r ↔ unboundRule (mEndpoints st) r).
  { intros r. unfold dryRunNotificationEndpoints in Hends.
    destruct (FindNotificationEndpoints (endpointSVC s) org w); [done|].
    injection Hends as <-. apply unboundRule_fmap. }
  destruct (dryRunNotificationRules_outcome R (ruleSVC s) org (mRules st) endpoints' w)
    as [Hfail Hbind].
  split.
  - intros (k & r & Hk & Hu). destruct Hfail as (err & Herr & Hcode).
    { exists k, r. split; [done|]. by apply Hub. }
    exists err. split; [|done]. unfold dryRunResources. simpl. by rewrite Hends, Herr.
  - intros Hok. destruct Hbind as (rules' & Hrules & _).
    { intros k r Hk Hu. apply (Hok k r Hk). by apply Hub. }
    eexists. split; [|split]; cycle 2.
    + unfold dryRunResources. simpl. rewrite Hends. simpl. rewrite Hrules. reflexivity.
    + simpl. exact Hrules.
    + reflexivity.
Qed.

(** * What the state keeps

    The rest of the development follows the state coordinator through a dry
    run: which records [newStateCoordinator] builds, what the reconcilers
    and the dry-run functions leave alone, and what therefore holds of the
    state [dryRun] hands to [Apply]. *)

Lemma keyed_inv {X} (inj : X → stateObject) (m : gmap string X) n o :
  (n, o) ∈ keyed inj m → ∃ x, m !! n = Some x ∧ o = inj x.
Proof.
  unfold keyed. intros [[k x] [Heq Hin]]%list_elem_of_fmap. simpl in Heq.
  injection Heq as -> ->. exists x. split; [|done]. by apply elem_of_map_to_list.
Qed.

Lemma keyedObjects_inv st n o : (n, o) ∈ keyedObjects st → ∃ f, getF st f n = Some o.
Proof.
  unfold keyedObjects. rewrite !elem_of_app.
  intros [H|[H|[H|[H|[H|[H|[H|[H|H]]]]]]]]; apply keyed_inv in H as (x & Hx & ->);
    [exists FBucket | exists FCheck | exists FDashboard | exists FEndpoint | exists FLabel
    | exists FRule | exists FTask | exists FTelegraf | exists FVariable];
    simpl; by rewrite Hx.
Qed.

Lemma wellKeyed_iff st :
  wellKeyed st ↔ ∀ f n o, getF st f n = Some o → PkgName (obj_identity o) = n.
Proof.
  split.
  - intros Hk f n o. by apply wellKeyed_getF.
  - intros Hk. apply Forall_forall. intros [n o] [f Hf]%keyedObjects_inv. simpl. eauto.
Qed.

Lemma labelsPresent_iff st : labelsPresent st ↔ labelsResolved st.
Proof.
  split.
  - intros Hp f n o l. by apply labelsPresent_getF.
  - intros Hr. apply Forall_forall. intros [n o] [f Hf]%keyedObjects_inv.
    apply Forall_forall. intros l Hl. simpl in Hl. eauto.
Qed.

(** A state whose records carry the identities and labels of the records
    of another state, key by key. *)
Lemma wellKeyed_ext st st' :
  (∀ f n, obj_identity <$> getF st' f n = obj_identity <$> getF st f n) →
  wellKeyed st → wellKeyed st'.
Proof.
  rewrite !wellKeyed_iff. intros Hext Hk f n o' Ho'.
  specialize (Hext f n). rewrite Ho' in Hext. simpl in Hext.
  destruct (getF st f n) as [o|] eqn:Ho; [|done]. simpl in Hext.
  injection Hext as ->. eauto.
Qed.

Lemma labelsResolved_ext' st st' :
  (∀ f n, obj_labels <$> getF st' f n = obj_labels <$> getF st f n) →
  labelsResolved st → labelsResolved st'.
Proof.
  intros Hext Hr f n o' l Ho' Hl.
  pose proof (Hext f n) as Hfn. rewrite Ho' in Hfn. simpl in Hfn.
  destruct (getF st f n) as [o|] eqn:Ho; [|done]. simpl in Hfn.
  injection Hfn as Hfn. rewrite Hfn in Hl.
  pose proof (Hr f n o l Ho Hl) as [x Hx].
  apply mLabels_is_Some.
  pose proof (Hext FLabel (pkgNameOf l)) as Hlab. simpl in Hlab. rewrite Hx in Hlab.
  simpl. destruct (mLabels st' !! pkgNameOf l); [by eexists|done].
Qed.

Lemma newStateCoordinator_wellKeyed pkg : wellKeyed (newStateCoordinator pkg).
Proof.
  apply wellKeyed_iff. intros f n o Ho.
  by destruct (newStateCoordinator_fresh pkg f n o Ho) as (_ & _ & ?).
Qed.

Lemma reconcileStackResource_wellKeyed s r :
  wellKeyed s → wellKeyed (reconcileStackResource s r).
Proof.
  destruct (familyOf (res_Kind r)) as [f|] eqn:Hf;
    [|by rewrite reconcileStackResource_unknown].
  rewrite !wellKeyed_iff. intros Hk f' n' o.
  rewrite (reconcileStackResource_getF s r f Hf).
  case_bool_decide as Hd; [|by apply Hk].
  destruct Hd as [-> ->].
  destruct (getF s f (res_PkgName r)) as [o0|] eqn:Ho0; intros [= <-].
  - rewrite obj_identity_idSet. eauto.
  - by rewrite obj_identity_removal.
Qed.

Lemma reconcileStackResources_wellKeyed rs : ∀ s,
  wellKeyed s → wellKeyed (reconcileStackResources s rs).
Proof.
  induction rs as [|r rs IH]; intros s Hs; [done|].
  apply (IH (reconcileStackResource s r)). by apply reconcileStackResource_wellKeyed.
Qed.

(** A loop keeps what each run of its body keeps. *)
Lemma foldM_preserves {A B} (f : A → B → option A) (I : A → Prop) (bs : list B) :
  (∀ a b a', f a b = Some a' → I a → I a') →
  ∀ a a', foldM f a bs = Some a' → I a → I a'.
Proof.
  intros Hf. induction bs as [|b bs IH]; intros a a'; simpl.
  - by intros [= ->].
  - destruct (f a b) as [a1|] eqn:Hab; [|done]. intros Hfold Ha. eauto.
Qed.

Lemma reconcileLabelMapping_getF RT m s r s' :
  reconcileLabelMapping RT m s r = Some s' → ∀ f n, getF s' f n = getF s f n.
Proof.
  unfold reconcileLabelMapping.
  destruct (labelAssociations s (res_Kind r) (res_PkgName r)); [|done].
  case_bool_decide; [by intros [= ->]|].
  destruct (keepStackAssociations _ _); [|done].
  intros [= <-] f n. apply getF_set_labelMappingsToRemove.
Qed.

Lemma reconcileLabelMappings_getF RT s rs s' :
  reconcileLabelMappings RT s rs = Some s' → ∀ f n, getF s' f n = getF s f n.
Proof.
  unfold reconcileLabelMappings. intros Hfold.
  refine (foldM_preserves _ (λ a, ∀ f n, getF a f n = getF s f n) rs _ s s' Hfold _);
    [|done].
  intros a b a' Hab Ha f n. rewrite (reconcileLabelMapping_getF _ _ _ _ _ Hab). apply Ha.
Qed.

Lemma reconcileNotificationDependency_getF s r s' :
  reconcileNotificationDependency s r = Some s' →
  ∀ f n, obj_forget <$> getF s' f n = obj_forget <$> getF s f n.
Proof.
  unfold reconcileNotificationDependency.
  destruct (Kind_is (res_Kind r) KindNotificationRule); [|by intros [= ->]].
  destruct (find _ _) as [a|]; [|by intros [= ->]].
  destruct (mRules s !! res_PkgName r) as [rule|] eqn:Hrule; [|done].
  intros [= <-] f n. destruct f; try done. simpl.
  destruct (decide (n = res_PkgName r)) as [->|Hn].
  - rewrite lookup_alter_eq, Hrule. done.
  - by rewrite lookup_alter_ne.
Qed.

Lemma reconcileNotificationDependencies_getF s rs s' :
  reconcileNotificationDependencies s rs = Some s' →
  ∀ f n, obj_forget <$> getF s' f n = obj_forget <$> getF s f n.
Proof.
  unfold reconcileNotificationDependencies. intros Hfold.
  refine (foldM_preserves _
            (λ a, ∀ f n, obj_forget <$> getF a f n = obj_forget <$> getF s f n)
            rs _ s s' Hfold _); [|done].
  intros a b a' Hab Ha f n.
  rewrite (reconcileNotificationDependency_getF _ _ _ Hab). apply Ha.
Qed.

Lemma obj_labels_forget o : obj_labels (obj_forget o) = obj_labels o.
Proof. by destruct o. Qed.

Lemma forget_ext_identity s s' :
  (∀ f n, obj_forget <$> getF s' f n = obj_forget <$> getF s f n) →
  ∀ f n, obj_identity <$> getF s' f n = obj_identity <$> getF s f n.
Proof.
  intros Hext f n. specialize (Hext f n).
  destruct (getF s' f n) as [o'|], (getF s f n) as [o|]; try done.
  simpl in *. injection Hext as Hext.
  by rewrite <- (obj_identity_forget o'), Hext, obj_identity_forget.
Qed.

Lemma forget_ext_labels s s' :
  (∀ f n, obj_forget <$> getF s' f n = obj_forget <$> getF s f n) →
  ∀ f n, obj_labels <$> getF s' f n = obj_labels <$> getF s f n.
Proof.
  intros Hext f n. specialize (Hext f n).
  destruct (getF s' f n) as [o'|], (getF s f n) as [o|]; try done.
  simpl in *. injection Hext as Hext.
  by rewrite <- (obj_labels_forget o'), Hext, obj_labels_forget.
Qed.

Lemma addStackState_wellKeyed RT s stack s' :
  addStackState RT s stack = Some s' → wellKeyed s → wellKeyed s'.
Proof.
  unfold addStackState.
  destruct (reconcileLabelMappings _ _ _) as [s2|] eqn:H2; [|done].
  intros H3 Hs.
  apply (wellKeyed_ext s2).
  { apply forget_ext_identity. by apply reconcileNotificationDependencies_getF with (rs := Stack_Resources stack). }
  apply (wellKeyed_ext (reconcileStackResources s (Stack_Resources stack))).
  { intros f n. by rewrite (reconcileLabelMappings_getF _ _ _ _ H2). }
  by apply reconcileStackResources_wellKeyed.
Qed.

Lemma addStackState_labelsResolved RT s stack s' :
  addStackState RT s stack = Some s' → labelsResolved s → labelsResolved s'.
Proof.
  unfold addStackState.
  destruct (reconcileLabelMappings _ _ _) as [s2|] eqn:H2; [|done].
  intros H3 Hs.
  apply (labelsResolved_ext' s2).
  { apply forget_ext_labels. by apply reconcileNotificationDependencies_getF with (rs := Stack_Resources stack). }
  apply (labelsResolved_ext _ _ (reconcileLabelMappings_getF _ _ _ _ H2)).
  by apply reconcileStackResources_labelsResolved.
Qed.

(** *** The dry-run functions rewrite no parsed object *)

Lemma parser_attachExisting {P E} (found : option E) (r : stateRecord P E) :
  parser (attachExisting found r) = parser r.
Proof. unfold attachExisting. by destruct (_ && _). Qed.

Lemma bindEndpoints_parser endpoints todo (rules0 : gmap string stateRule) :
  (∀ k (r : stateRule), (k, r) ∈ todo →
     (λ x : stateRule, parserRule x) <$> rules0 !! k = Some (parserRule r)) →
  ∀ rules rules',
    (∀ k, (λ x : stateRule, parserRule x) <$> rules !! k = (λ x : stateRule, parserRule x) <$> rules0 !! k) →
    bindEndpoints endpoints todo rules = inr rules' →
    ∀ k, (λ x : stateRule, parserRule x) <$> rules' !! k = (λ x : stateRule, parserRule x) <$> rules0 !! k.
Proof.
  induction todo as [|[k r] todo IH]; intros Htodo rules rules' Hrules; simpl.
  - by intros [= <-].
  - assert (Htodo' : ∀ k (r : stateRule), (k, r) ∈ todo →
              (λ x : stateRule, parserRule x) <$> rules0 !! k = Some (parserRule r))
      by (intros; apply Htodo; by right).
    destruct (associatedEndpoint r); [by apply IH|].
    destruct (_ && _); [done|].
    apply IH; [done|]. intros k'.
    destruct (decide (k' = k)) as [->|Hk].
    + rewrite lookup_insert_eq. simpl. symmetry. apply Htodo. by left.
    + by rewrite lookup_insert_ne.
Qed.

Lemma dryRunNotificationRules_parser {W} `{MapRange} (svc : NotificationRuleStore W)
    org rules endpoints (w : W) rules' :
  dryRunNotificationRules svc org rules endpoints w = inr rules' →
  ∀ k, (λ x : stateRule, parserRule x) <$> rules' !! k = (λ x : stateRule, parserRule x) <$> rules !! k.
Proof.
  destruct (dryRunNotificationRules_unfold svc org rules endpoints w) as (prep & -> & Hprep).
  intros Hbind k.
  assert (Hsame : ∀ k, (λ x : stateRule, parserRule x) <$> (prep <$> rules) !! k = (λ x : stateRule, parserRule x) <$> rules !! k).
  { intros k'. rewrite lookup_fmap. destruct (rules !! k') as [r|]; [|done]. simpl.
    f_equal. apply Hprep. }
  rewrite <- Hsame.
  refine (bindEndpoints_parser endpoints _ (prep <$> rules) _ _ _ _ Hbind k); [|done].
  intros k' r Hin. apply range_map_elem in Hin. by rewrite Hin.
Qed.

Lemma dryRunNotificationRules_parsed {W} `{MapRange} (svc : NotificationRuleStore W)
    org (rules : gmap string stateRule) endpoints (w : W) (rules' : gmap string stateRule) :
  dryRunNotificationRules svc org rules endpoints w = inr rules' →
  ∀ k, obj_parsed <$> (ObjRule <$> rules' !! k) = obj_parsed <$> (ObjRule <$> rules !! k).
Proof.
  intros Hrules k. pose proof (dryRunNotificationRules_parser _ _ _ _ _ _ Hrules k) as Hk.
  destruct (rules' !! k) as [r'|], (rules !! k) as [r|]; try done.
  cbn in *. injection Hk as Hk. unfold obj_parsed. cbn. unfold labels. by rewrite Hk.
Qed.

Lemma fmap_parsed {X} (inj : X → stateObject) (h : X → X) (m : gmap string X) n :
  (∀ x, obj_parsed (inj (h x)) = obj_parsed (inj x)) →
  obj_parsed <$> (inj <$> (h <$> m) !! n) = obj_parsed <$> (inj <$> m !! n).
Proof.
  intros Hh. rewrite lookup_fmap. destruct (m !! n) as [x|]; [|done]. simpl. by rewrite Hh.
Qed.

Lemma dryRunResources_parsed {W} {R : MapRange} (s : Service W) (g : Given W) org st w st' :
  dryRunResources s g org st w = Some (inr st') →
  ∀ f n, obj_parsed <$> getF st' f n = obj_parsed <$> getF st f n.
Proof.
  unfold dryRunResources, dryRunNotificationEndpoints. cbn [mEndpoints set_mVariables
    set_mTelegrafs set_mTasks set_mLabels set_mDashboards set_mChecks set_mBuckets].
  destruct (FindNotificationEndpoints _ _ _) as [err|es]; [done|].
  cbn [mRules mEndpoints set_mEndpoints].
  destruct (dryRunNotificationRules _ _ _ _ _) as [err|rules'] eqn:Hrules; [done|].
  destruct (dryRunLabelMappings g _ w) as [[err|lms]|]; try done.
  intros [= <-] f n.
  unfold dryRunBuckets, dryRunChecks, dryRunDashboards, dryRunLabels, dryRunTasks,
    dryRunTelegrafConfigs, dryRunVariables.
  destruct f; cbn;
    [apply fmap_parsed | apply fmap_parsed | apply fmap_parsed | apply fmap_parsed
    | apply fmap_parsed | | apply fmap_parsed | apply fmap_parsed | apply fmap_parsed];
    try (intros x; unfold obj_parsed, obj_identity, obj_labels, labels;
         by rewrite ?parser_attachExisting).
  exact (dryRunNotificationRules_parsed _ _ _ _ _ _ Hrules n).
Qed.

Lemma obj_parsed_identity s s' :
  (∀ f n, obj_parsed <$> getF s' f n = obj_parsed <$> getF s f n) →
  ∀ f n, obj_identity <$> getF s' f n = obj_identity <$> getF s f n.
Proof.
  intros Hext f n. specialize (Hext f n).
  destruct (getF s' f n) as [o'|], (getF s f n) as [o|]; try done.
  simpl in *. by injection Hext as -> _.
Qed.

Lemma obj_parsed_labels s s' :
  (∀ f n, obj_parsed <$> getF s' f n = obj_parsed <$> getF s f n) →
  ∀ f n, obj_labels <$> getF s' f n = obj_labels <$> getF s f n.
Proof.
  intros Hext f n. specialize (Hext f n).
  destruct (getF s' f n) as [o'|], (getF s f n) as [o|]; try done.
  simpl in *. by injection Hext as _ ->.
Qed.

(** *** What a dry run returns and what it leaves behind *)

Section dry_run.
Context {W : Type} {R : MapRange} (s : Service W) (g : Given W).

Lemma service_addStackState_unfold stackID st (sy : Sys W) :
  service_addStackState s g stackID st sy =
  match ReadStackByID (store s) stackID (world (machine sy)) with
  | inl err => Some (Wrap (internalErr (Some err)) "reading stack", st,
                     mkSys (machine sy) (trace sy ++ [EvReadStackByID stackID]))
  | inr stack =>
      match addStackState (ResourceTypeOf g) st stack with
      | None => None
      | Some st' => Some (None, st', mkSys (machine sy) (trace sy ++ [EvReadStackByID stackID]))
      end
  end.
Proof.
  unfold service_addStackState. rewrite bind_unfold, store_ReadStackByID_unfold.
  destruct (ReadStackByID _ _ _) as [err|stack]; [done|].
  rewrite bind_unfold. by destruct (addStackState _ _ _).
Qed.

Lemma notParseErr_Some err : notParseErr g err = true → is_Some (internalErr err).
Proof. destruct err; [by eexists|done]. Qed.

(** The runs of [dryRun]: it leaves the machine alone, records at most the
    one read of the stack, and either fails or returns the state the
    dry-run functions make of the reconciled state of the package. *)
Lemma dryRun_cases orgID pkg opts (sy sy' : Sys W) res :
  dryRun s g orgID pkg opts sy = Some (res, sy') →
  machine sy' = machine sy ∧
  (trace sy' = trace sy ∨
   (0 < StackID (applyOptFromOptFns opts))%N ∧
   trace sy' = trace sy ++ [EvReadStackByID (StackID (applyOptFromOptFns opts))]) ∧
  ((res.1.1 = None ∧ is_Some res.1.2) ∨
   ∃ pkg2 st0 st,
     res.1.1 = Some st ∧
     (isParsed pkg = true → size (EnvRefs (applyOptFromOptFns opts)) = 0 → pkg2 = pkg) ∧
     (st0 = newStateCoordinator pkg2 ∨
      ∃ stack,
        ReadStackByID (store s) (StackID (applyOptFromOptFns opts)) (world (machine sy))
          = inr stack ∧
        addStackState (ResourceTypeOf g) (newStateCoordinator pkg2) stack = Some st0) ∧
     dryRunResources s g orgID st0 (world (machine sy)) = Some (inr st)).
Proof.
  unfold dryRun. cbv zeta.
  destruct (if negb (isParsed pkg) then Validate g pkg else (None, pkg)) as [err pkg1] eqn:Hval.
  destruct (notParseErr g err) eqn:Hperr.
  { intros [= <- <-]. simpl. split; [done|]. split; [by left|]. left.
    split; [done|]. by apply notParseErr_Some. }
  destruct (if bool_decide (0 < size (EnvRefs (applyOptFromOptFns opts)))
            then applyEnvRefs g (EnvRefs (applyOptFromOptFns opts)) pkg1
            else (None, pkg1)) as [err2 pkg2] eqn:Henv.
  destruct (notParseErr g err2) eqn:Hperr2.
  { intros [= <- <-]. simpl. split; [done|]. split; [by left|]. left.
    split; [done|]. by apply notParseErr_Some. }
  assert (Hpkg2 : isParsed pkg = true → size (EnvRefs (applyOptFromOptFns opts)) = 0 →
                  pkg2 = pkg).
  { intros Hp He. rewrite Hp in Hval. simpl in Hval. injection Hval as _ <-.
    rewrite He in Henv. rewrite bool_decide_false in Henv by lia. by injection Henv as _ <-. }
  rewrite bind_unfold.
  destruct (0 <? StackID (applyOptFromOptFns opts))%N eqn:Hstack.
  - apply N.ltb_lt in Hstack. rewrite service_addStackState_unfold.
    destruct (ReadStackByID _ _ _) as [rerr|stack] eqn:Hread.
    { intros [= <- <-]. simpl. split; [done|]. split; [by right|]. left. by eauto. }
    destruct (addStackState _ _ _) as [st0|] eqn:Hadd; [|done].
    simpl. rewrite bind_unfold. simpl.
    destruct (dryRunSecrets s orgID pkg2 (world (machine sy))) as [[err3|] pkg3].
    { intros [= <- <-]. simpl. split; [done|]. split; [by right|]. left. by eauto. }
    rewrite bind_unfold.
    destruct (dryRunResources s g orgID st0 (world (machine sy))) as [[err4|st]|] eqn:Hres;
      simpl; [| |done].
    { intros [= <- <-]. simpl. split; [done|]. split; [by right|]. left. by eauto. }
    intros [= <- <-]. simpl. split; [done|]. split; [by right|]. right.
    exists pkg2, st0, st. eauto 10.
  - simpl. rewrite bind_unfold. simpl.
    destruct (dryRunSecrets s orgID pkg2 (world (machine sy))) as [[err3|] pkg3].
    { intros [= <- <-]. simpl. split; [done|]. split; [by left|]. left. by eauto. }
    rewrite bind_unfold.
    destruct (dryRunResources s g orgID (newStateCoordinator pkg2) (world (machine sy)))
      as [[err4|st]|] eqn:Hres; simpl; [| |done].
    { intros [= <- <-]. simpl. split; [done|]. split; [by left|]. left. by eauto. }
    intros [= <- <-]. simpl. split; [done|]. split; [by left|]. right.
    exists pkg2, (newStateCoordinator pkg2), st. eauto 10.
Qed.

End dry_run.

(** X1.  The state a dry run returns is keyed by package name: every
    record of every map is stored under the package name of the object it
    was built from.  When the package came in parsed, no environment
    reference is applied and every label association of the package names
    a label the package declares, every label a record of that state is
    associated with is itself a record of the state. *)
Theorem dryRun_state_keyed_and_resolved {W} {R : MapRange} (s : Service W) (g : Given W)
    orgID pkg opts (sy sy' : Sys W) st err pkg' :
  dryRun s g orgID pkg opts sy = Some (Some st, err, pkg', sy') →
  wellKeyed st ∧
  (isParsed pkg = true → size (EnvRefs (applyOptFromOptFns opts)) = 0 →
   pkgLabelsDeclared pkg → labelsPresent st).
Proof.
  intros Hrun. destruct (dryRun_cases s g _ _ _ _ _ _ Hrun) as (_ & _ & [[Hnone _]|Hst]);
    [done|].
  destruct Hst as (pkg2 & st0 & st1 & [= <-] & Hpkg2 & Hst0 & Hres).
  pose proof (dryRunResources_parsed _ _ _ _ _ _ Hres) as Hparsed.
  split.
  - apply (wellKeyed_ext st0); [by apply obj_parsed_identity|].
    destruct Hst0 as [->|(stack & _ & Hadd)].
    + apply newStateCoordinator_wellKeyed.
    + apply (addStackState_wellKeyed _ _ _ _ Hadd), newStateCoordinator_wellKeyed.
  - intros Hp He Hdecl. rewrite (Hpkg2 Hp He) in Hst0. apply labelsPresent_iff.
    apply (labelsResolved_ext' st0); [by apply obj_parsed_labels|].
    destruct Hst0 as [->|(stack & _ & Hadd)].
    + by apply newStateCoordinator_labelsResolved.
    + apply (addStackState_labelsResolved _ _ _ _ Hadd).
      by apply newStateCoordinator_labelsResolved.
Qed.

(** X1, witness: the dry run of the label and the variable that carries it,
    against the stack of an earlier apply. *)
Lemma dryRun_state_keyed_and_resolved_witness :
  dryRun ex_service ex_given 1%N ex_okPkg ex_stackOpts ex_sys1
    = Some (Some ex_state1, None, ex_okPkg, ex_sys1') ∧
  pkgLabelsDeclared ex_okPkg ∧
  wellKeyed ex_state1 ∧ labelsPresent ex_state1.
Proof.
  assert (Hrun : dryRun ex_service ex_given 1%N ex_okPkg ex_stackOpts ex_sys1
                 = Some (Some ex_state1, None, ex_okPkg, ex_sys1'))
    by (vm_compute; reflexivity).
  assert (Hdecl : pkgLabelsDeclared ex_okPkg) by (repeat split; repeat constructor).
  destruct (dryRun_state_keyed_and_resolved ex_service ex_given 1%N ex_okPkg ex_stackOpts
              ex_sys1 ex_sys1' ex_state1 None ex_okPkg Hrun) as [Hk Hp].
  split; [exact Hrun|]. split; [exact Hdecl|]. split; [exact Hk|].
  apply Hp; [reflexivity|reflexivity|exact Hdecl].
Defined.

(** *** The records of a fresh state *)

Lemma fromPkg_fold_last {P E} `{Parsed P} (ps : list P) :
  ∀ (m : gmap string (stateRecord P E)) n,
    fold_left (λ m p, <[pkgNameOf p := newState p]> m) ps m !! n =
    match last (filter (λ p, pkgNameOf p = n) ps) with
    | Some p => Some (newState p)
    | None => m !! n
    end.
Proof.
  induction ps as [|p ps IH]; intros m n; [done|].
  simpl. rewrite IH, filter_cons.
  destruct (decide (pkgNameOf p = n)) as [<-|Hn].
  - rewrite last_cons. destruct (last _); [done|]. by rewrite lookup_insert_eq.
  - destruct (last _); [done|]. by rewrite lookup_insert_ne.
Qed.

Lemma fromPkg_last {P E} `{Parsed P} (ps : list P) n :
  fromPkg (E:=E) ps !! n = newState <$> last (filter (λ p, pkgNameOf p = n) ps).
Proof.
  unfold fromPkg. rewrite fromPkg_fold_last. by destruct (last _).
Qed.

(** X2.  [newStateCoordinator] makes one record per package name: the
    record under a name is the new, id-less record of the last object the
    package lists under that name, a name the package does not list has no
    record, and the state starts without label mappings. *)
Theorem newStateCoordinator_last_declaration_wins (pkg : Pkg) :
  (∀ n, mBuckets (newStateCoordinator pkg) !! n
        = newState <$> last (filter (λ p, pkgNameOf p = n) (pkg_buckets pkg))) ∧
  (∀ n, mChecks (newStateCoordinator pkg) !! n
        = newState <$> last (filter (λ p, pkgNameOf p = n) (pkg_checks pkg))) ∧
  (∀ n, mDashboards (newStateCoordinator pkg) !! n
        = newState <$> last (filter (λ p, pkgNameOf p = n) (pkg_dashboards pkg))) ∧
  (∀ n, mEndpoints (newStateCoordinator pkg) !! n
        = newState <$> last (filter (λ p, pkgNameOf p = n) (pkg_notificationEndpoints pkg))) ∧
  (∀ n, mLabels (newStateCoordinator pkg) !! n
        = newState <$> last (filter (λ p, pkgNameOf p = n) (pkg_labels pkg))) ∧
  (∀ n, mRules (newStateCoordinator pkg) !! n
        = (λ p, StateRule (newState p) None)
            <$> last (filter (λ p, pkgNameOf p = n) (pkg_notificationRules pkg))) ∧
  (∀ n, mTasks (newStateCoordinator pkg) !! n
        = newState <$> last (filter (λ p, pkgNameOf p = n) (pkg_tasks pkg))) ∧
  (∀ n, mTelegrafs (newStateCoordinator pkg) !! n
        = newState <$> last (filter (λ p, pkgNameOf p = n) (pkg_telegrafs pkg))) ∧
  (∀ n, mVariables (newStateCoordinator pkg) !! n
        = newState <$> last (filter (λ p, pkgNameOf p = n) (pkg_variables pkg))) ∧
  labelMappings (newStateCoordinator pkg) = [] ∧
  labelMappingsToRemove (newStateCoordinator pkg) = [] ∧
  (∀ f n o, getF (newStateCoordinator pkg) f n = Some o →
     obj_id o = 0%N ∧ obj_ID o = 0%N ∧ obj_stateStatus o = StateStatusNew ∧
     PkgName (obj_identity o) = n).
Proof.
  repeat apply conj; try reflexivity; try (intros n; simpl; apply fromPkg_last).
  - intros n. simpl. rewrite lookup_fmap, fromPkg_last. by destruct (last _).
  - intros f n o Ho. destruct (newStateCoordinator_fresh pkg f n o Ho) as (Hid & Hst & Hn).
    repeat apply conj; try done.
    destruct o; simpl in *; unfold ID; rewrite Hst; exact Hid.
Qed.

(** *** What reconciliation with a stack leaves alone *)

Lemma reconcileStackResource_mappings s r :
  labelMappings (reconcileStackResource s r) = labelMappings s ∧
  labelMappingsToRemove (reconcileStackResource s r) = labelMappingsToRemove s.
Proof.
  unfold reconcileStackResource, addObjectForRemoval, setObjectID, getObjectIDSetter.
  destruct (negb _); destruct (familyOf _) as [[]|]; simpl; try done;
    match goal with |- context [?m !! ?k] => destruct (m !! k) end; done.
Qed.

Lemma reconcileStackResources_mappings rs : ∀ s,
  labelMappings (reconcileStackResources s rs) = labelMappings s ∧
  labelMappingsToRemove (reconcileStackResources s rs) = labelMappingsToRemove s.
Proof.
  induction rs as [|r rs IH]; intros s; [done|].
  change (reconcileStackResources s (r :: rs))
    with (reconcileStackResources (reconcileStackResource s r) rs).
  destruct (IH (reconcileStackResource s r)) as [-> ->].
  apply reconcileStackResource_mappings.
Qed.

Lemma reconcileLabelMapping_mappings RT m s r s' :
  reconcileLabelMapping RT m s r = Some s' →
  labelMappings s' = labelMappings s ∧
  ∃ more, labelMappingsToRemove s' = labelMappingsToRemove s ++ more.
Proof.
  unfold reconcileLabelMapping.
  destruct (labelAssociations s (res_Kind r) (res_PkgName r)); [|done].
  case_bool_decide.
  { intros [= ->]. split; [done|]. exists []. by rewrite app_nil_r. }
  destruct (keepStackAssociations _ _); [|done].
  intros [= <-]. split; [done|]. by eexists.
Qed.

Lemma reconcileLabelMappings_mappings RT s rs s' :
  reconcileLabelMappings RT s rs = Some s' →
  labelMappings s' = labelMappings s ∧
  ∃ more, labelMappingsToRemove s' = labelMappingsToRemove s ++ more.
Proof.
  unfold reconcileLabelMappings. intros Hfold.
  refine (foldM_preserves _
            (λ a, labelMappings a = labelMappings s ∧
                  ∃ more, labelMappingsToRemove a = labelMappingsToRemove s ++ more)
            rs _ s s' Hfold _).
  - intros a b a' Hab [Hlm [more Hmore]].
    destruct (reconcileLabelMapping_mappings _ _ _ _ _ Hab) as [-> [more' ->]].
    split; [done|]. exists (more ++ more'). by rewrite Hmore, app_assoc.
  - split; [done|]. exists []. by rewrite app_nil_r.
Qed.

Lemma reconcileNotificationDependency_other s r s' :
  reconcileNotificationDependency s r = Some s' →
  labelMappings s' = labelMappings s ∧
  labelMappingsToRemove s' = labelMappingsToRemove s ∧
  ∀ f n, (Some f, n) ≠ resKey r → getF s' f n = getF s f n.
Proof.
  unfold reconcileNotificationDependency.
  destruct (Kind_is (res_Kind r) KindNotificationRule) eqn:Hkind; [|by intros [= ->]].
  apply Kind_is_true in Hkind.
  destruct (find _ _) as [a|]; [|by intros [= ->]].
  destruct (mRules s !! res_PkgName r) as [rule|] eqn:Hrule; [|done].
  intros [= <-]. do 2 (split; [done|]). intros f n Hne.
  destruct f; try done. simpl. rewrite lookup_alter_ne; [done|].
  intros <-. apply Hne. unfold resKey. by rewrite Hkind.
Qed.

Lemma reconcileNotificationDependencies_other s rs s' :
  reconcileNotificationDependencies s rs = Some s' →
  labelMappings s' = labelMappings s ∧
  labelMappingsToRemove s' = labelMappingsToRemove s ∧
  ∀ f n, (Some f, n) ∉ resKey <$> rs → getF s' f n = getF s f n.
Proof.
  unfold reconcileNotificationDependencies. revert s.
  induction rs as [|r rs IH]; intros s; simpl.
  - by intros [= ->].
  - destruct (reconcileNotificationDependency s r) as [s1|] eqn:H1; [|done].
    intros Hfold. destruct (IH _ Hfold) as (-> & -> & Hget).
    destruct (reconcileNotificationDependency_other _ _ _ H1) as (-> & -> & Hget1).
    do 2 (split; [done|]). intros f n [Hr Hrs]%not_elem_of_cons.
    rewrite Hget by done. by apply Hget1.
Qed.

(** X3.  Reconciling a state with a stack touches only what the stack
    names: a record no stack resource addresses is left exactly as it was,
    the label mappings are left as they were, and the mappings to remove
    are only ever added to. *)
Theorem addStackState_frame (ResourceTypeOf : Kind → string) (s : stateCoordinator)
    (stack : Stack) (s' : stateCoordinator) :
  addStackState ResourceTypeOf s stack = Some s' →
  (∀ f n, (Some f, n) ∉ resKey <$> Stack_Resources stack → getF s' f n = getF s f n) ∧
  labelMappings s' = labelMappings s ∧
  ∃ more, labelMappingsToRemove s' = labelMappingsToRemove s ++ more.
Proof.
  unfold addStackState.
  destruct (reconcileLabelMappings _ _ _) as [s2|] eqn:H2; [|done].
  intros H3.
  destruct (reconcileNotificationDependencies_other _ _ _ H3) as (Hlm3 & Hrm3 & Hget3).
  destruct (reconcileLabelMappings_mappings _ _ _ _ H2) as (Hlm2 & more & Hrm2).
  destruct (reconcileStackResources_mappings (Stack_Resources stack) s) as [Hlm1 Hrm1].
  repeat apply conj.
  - intros f n Hn. rewrite (Hget3 f n Hn), (reconcileLabelMappings_getF _ _ _ _ H2).
    by apply reconcileStackResources_other.
  - by rewrite Hlm3, Hlm2, Hlm1.
  - exists more. by rewrite Hrm3, Hrm2, Hrm1.
Qed.

(** X3, witness: the variable of [ex_okPkg] is not in the stack
    [ex_stack0]. *)
Lemma addStackState_frame_witness :
  addStackState (λ k, k) (newStateCoordinator ex_okPkg) ex_stack0 = Some ex_reconciled ∧
  ((Some FVariable, "var_1") ∉ (resKey <$> Stack_Resources ex_stack0)) ∧
  getF ex_reconciled FVariable "var_1" = getF (newStateCoordinator ex_okPkg) FVariable "var_1".
Proof.
  assert (Hrun : addStackState (λ k, k) (newStateCoordinator ex_okPkg) ex_stack0
                 = Some ex_reconciled) by (vm_compute; reflexivity).
  assert (Hout : (Some FVariable, "var_1") ∉ resKey <$> Stack_Resources ex_stack0).
  { apply (bool_decide_unpack _). vm_compute. exact I. }
  split; [exact Hrun|]. split; [exact Hout|].
  destruct (addStackState_frame _ _ _ _ Hrun) as (Hframe & _ & _).
  exact (Hframe FVariable "var_1" Hout).
Defined.

(** *** The label associations a stack has and the package dropped *)

Lemma stackLabelID_fold rs : ∀ (m : gmap string influxdb_ID) n,
  idOf (fold_left (λ m r, if Kind_is (res_Kind r) KindLabel
                          then <[res_PkgName r := res_ID r]> m else m) rs m) n
  = match last (filter (λ r, res_Kind r = KindLabel ∧ res_PkgName r = n) rs) with
    | Some r => res_ID r
    | None => idOf m n
    end.
Proof.
  induction rs as [|r rs IH]; intros m n; [done|].
  simpl. rewrite IH, filter_cons.
  destruct (Kind_is (res_Kind r) KindLabel) eqn:Hk.
  - apply Kind_is_true in Hk. destruct (decide (res_PkgName r = n)) as [Hn|Hn].
    + rewrite decide_True by done. rewrite last_cons. destruct (last _); [done|].
      unfold idOf. by rewrite <- Hn, lookup_insert_eq.
    + rewrite decide_False by tauto. destruct (last _); [done|].
      unfold idOf. by rewrite lookup_insert_ne.
  - rewrite decide_False; [done|]. intros [Hk' _]. apply Kind_is_true in Hk'. congruence.
Qed.

Lemma keepStackAssociations_elem ls : ∀ m res,
  keepStackAssociations m ls = Some res →
  ∀ a, a ∈ res ↔
       a ∈ m ∧ ∀ sl : stateLabel, Some sl ∈ ls →
                 a ≠ mkAssociation KindLabel (pkgNameOf (parserLabel sl)).
Proof.
  induction ls as [|[sl|] ls IH]; intros m res; simpl; [| |done].
  - intros [= <-] a. split; [|tauto]. intros Ha. split; [done|].
    intros sl Hsl. by apply elem_of_nil in Hsl.
  - intros Hkeep a. rewrite (IH _ _ Hkeep a), list_elem_of_filter. split.
    + intros [[Hne Ha] Hrest]. split; [done|]. intros sl' [[= ->]|Hin]%elem_of_cons; eauto.
    + intros [Ha Hall]. split; [split; [|done]|].
      * apply Hall. by left.
      * intros sl' Hin. apply Hall. by right.
Qed.

Lemma labelAssociations_ext s s' :
  (∀ f n, getF s' f n = getF s f n) →
  ∀ k n, labelAssociations s' k n = labelAssociations s k n.
Proof.
  intros Hext k n. unfold labelAssociations. rewrite !get_getF.
  destruct (familyOf k) as [f|]; [|done]. simpl. rewrite Hext.
  assert (Hlab : ∀ x, mLabels s' !! x = mLabels s !! x).
  { intros x. pose proof (Hext FLabel x) as Hx. simpl in Hx.
    destruct (mLabels s' !! x), (mLabels s !! x); simpl in Hx; congruence. }
  destruct f; try done; destruct (getF s _ n); try done; f_equal;
    apply list_fmap_ext; intros; apply Hlab.
Qed.

Lemma reconcileLabelMapping_schedules RT m s r s' :
  reconcileLabelMapping RT m s r = Some s' →
  ∀ x, x ∈ labelMappingsToRemove s' ↔
       x ∈ labelMappingsToRemove s ∨
       ∃ a ls, a ∈ res_Associations r ∧ ass_Kind a = KindLabel ∧
         labelAssociations s (res_Kind r) (res_PkgName r) = Some ls ∧
         (∀ sl : stateLabel, Some sl ∈ ls → pkgNameOf (parserLabel sl) ≠ ass_PkgName a) ∧
         x = {| LabelID := idOf m (ass_PkgName a); LabelPkgName := ass_PkgName a;
                ResourceID := res_ID r; ResourcePkgName := res_PkgName r;
                ResourceType := RT (res_Kind r) |}.
Proof.
  unfold reconcileLabelMapping.
  destruct (labelAssociations s (res_Kind r) (res_PkgName r)) as [ls|] eqn:Hls; [|done].
  case_bool_decide as Hlen.
  { intros [= ->] x. split; [by left|]. intros [Hx|(a & ls' & Ha & _)]; [done|].
    apply length_zero_iff_nil in Hlen. rewrite Hlen in Ha. by apply elem_of_nil in Ha. }
  destruct (keepStackAssociations _ ls) as [forRemoval|] eqn:Hkeep; [|done].
  intros [= <-] x. simpl. rewrite elem_of_app, list_elem_of_fmap.
  pose proof (keepStackAssociations_elem _ _ _ Hkeep) as Hin.
  split.
  - intros [Hx|(a & -> & Ha)]; [by left|]. right.
    apply Hin in Ha as [Ha Hne]. apply elem_of_remove_dups, list_elem_of_filter in Ha.
    destruct Ha as [Hk Ha]. apply Kind_is_true in Hk.
    exists a, ls. repeat (split; [done|]). split; [|done].
    intros sl Hsl Heq. apply (Hne sl Hsl). destruct a. simpl in *. congruence.
  - intros [Hx|(a & ls' & Ha & Hk & [= <-] & Hne & ->)]; [by left|]. right.
    exists a. split; [done|]. apply Hin. split.
    + apply elem_of_remove_dups, list_elem_of_filter. split; [|done]. by apply Kind_is_true.
    + intros sl Hsl ->. by apply (Hne sl Hsl).
Qed.

Lemma reconcileLabelMappings_fold RT m rs : ∀ s s',
  foldM (reconcileLabelMapping RT m) s rs = Some s' →
  ∀ x, x ∈ labelMappingsToRemove s' ↔
       x ∈ labelMappingsToRemove s ∨
       ∃ r a ls, r ∈ rs ∧ a ∈ res_Associations r ∧ ass_Kind a = KindLabel ∧
         labelAssociations s (res_Kind r) (res_PkgName r) = Some ls ∧
         (∀ sl : stateLabel, Some sl ∈ ls → pkgNameOf (parserLabel sl) ≠ ass_PkgName a) ∧
         x = {| LabelID := idOf m (ass_PkgName a); LabelPkgName := ass_PkgName a;
                ResourceID := res_ID r; ResourcePkgName := res_PkgName r;
                ResourceType := RT (res_Kind r) |}.
Proof.
  induction rs as [|r rs IH]; intros s s'; simpl.
  - intros [= <-] x. split; [by left|]. intros [Hx|(r & a & ls & Hr & _)]; [done|].
    by apply elem_of_nil in Hr.
  - destruct (reconcileLabelMapping RT m s r) as [s1|] eqn:H1; [|done].
    intros Hfold x. rewrite (IH _ _ Hfold x), (reconcileLabelMapping_schedules _ _ _ _ _ H1 x).
    pose proof (labelAssociations_ext _ _ (reconcileLabelMapping_getF _ _ _ _ _ H1)) as Hext.
    split.
    + intros [[Hx|(a & ls & Ha & Hk & Hls & Hne & ->)]
             |(r' & a & ls & Hr' & Ha & Hk & Hls & Hne & ->)].
      * by left.
      * right. exists r, a, ls. split; [by left|]. done.
      * right. exists r', a, ls. rewrite Hext in Hls. split; [by right|]. done.
    + intros [Hx|(r' & a & ls & [->|Hr']%elem_of_cons & Ha & Hk & Hls & Hne & ->)].
      * by do 2 left.
      * left. right. by exists a, ls.
      * right. exists r', a, ls. by rewrite Hext.
Qed.

(** X4.  The second reconciler schedules for removal exactly the label
    associations the stack records and the state no longer has: one entry
    for every label association of a stack resource that none of the labels
    now associated with the record answers to, carrying the ids the stack
    recorded for the label and for the resource. *)
Theorem reconcileLabelMappings_schedules_dropped (ResourceTypeOf : Kind → string)
    (s : stateCoordinator) (rs : list StackResource) (s' : stateCoordinator) :
  reconcileLabelMappings ResourceTypeOf s rs = Some s' →
  ∀ x, x ∈ labelMappingsToRemove s' ↔
       x ∈ labelMappingsToRemove s ∨
       ∃ r a ls, r ∈ rs ∧ a ∈ res_Associations r ∧ ass_Kind a = KindLabel ∧
         labelAssociations s (res_Kind r) (res_PkgName r) = Some ls ∧
         (∀ sl : stateLabel, Some sl ∈ ls → pkgNameOf (parserLabel sl) ≠ ass_PkgName a) ∧
         x = {| LabelID := stackLabelID rs (ass_PkgName a); LabelPkgName := ass_PkgName a;
                ResourceID := res_ID r; ResourcePkgName := res_PkgName r;
                ResourceType := ResourceTypeOf (res_Kind r) |}.
Proof.
  unfold reconcileLabelMappings. intros Hfold x.
  rewrite (reconcileLabelMappings_fold _ _ _ _ _ Hfold x).
  assert (Hm : ∀ n, idOf (fold_left (λ m r, if Kind_is (res_Kind r) KindLabel
                                            then <[res_PkgName r := res_ID r]> m else m)
                                    rs ∅) n = stackLabelID rs n).
  { intros n. unfold stackLabelID. rewrite stackLabelID_fold. by destruct (last _). }
  split; (intros [Hx|(r & a & ls & Hr & Ha & Hk & Hls & Hne & ->)]; [by left|]);
    right; exists r, a, ls; rewrite Hm || rewrite <- Hm; done.
Qed.

(** X4, witness: the stack recorded that bucket [bucket_1] carries label
    [label_1]; the package declares the bucket without the label. *)
Lemma reconcileLabelMappings_schedules_dropped_witness :
  reconcileLabelMappings (λ k, k) ex_bareState (Stack_Resources ex_stack0)
    = Some ex_bareReconciled ∧
  {| LabelID := 12%N; LabelPkgName := "label_1"; ResourceID := 11%N;
     ResourcePkgName := "bucket_1"; ResourceType := KindBucket |}
    ∈ labelMappingsToRemove ex_bareReconciled.
Proof.
  assert (Hrun : reconcileLabelMappings (λ k, k) ex_bareState (Stack_Resources ex_stack0)
                 = Some ex_bareReconciled) by (vm_compute; reflexivity).
  split; [exact Hrun|].
  apply (reconcileLabelMappings_schedules_dropped _ _ _ _ Hrun). right.
  exists (mkStackResource APIVersion 11%N KindBucket "bucket_1"
            [mkAssociation KindLabel "label_1"]),
         (mkAssociation KindLabel "label_1"), [].
  split; [by left|]. split; [by left|]. split; [reflexivity|].
  split; [vm_compute; reflexivity|]. split; [|vm_compute; reflexivity].
  intros sl Hsl. by apply elem_of_nil in Hsl.
Defined.

(** *** The endpoint a stack recorded for a rule *)

Lemma reconcileStackResource_is_Some s r f n :
  is_Some (getF (reconcileStackResource s r) f n) ↔
  is_Some (getF s f n) ∨ (Some f, n) = resKey r.
Proof.
  unfold resKey. destruct (familyOf (res_Kind r)) as [f0|] eqn:Hf.
  - rewrite (reconcileStackResource_getF s r f0 Hf). case_bool_decide as Hd.
    + destruct Hd as [-> ->]. split; [by right|]. intros _.
      destruct (getF s f0 (res_PkgName r)); by eexists.
    + split; [by left|]. intros [?|[= -> ->]]; [done|]. by destruct Hd.
  - rewrite reconcileStackResource_unknown by done. split; [by left|]. by intros [?|?].
Qed.

Lemma reconcileStackResources_is_Some rs : ∀ s f n,
  is_Some (getF (reconcileStackResources s rs) f n) ↔
  is_Some (getF s f n) ∨ (Some f, n) ∈ resKey <$> rs.
Proof.
  induction rs as [|r rs IH]; intros s f n.
  - simpl. split; [by left|]. intros [?|Hin]; [done|]. by apply elem_of_nil in Hin.
  - change (reconcileStackResources s (r :: rs))
      with (reconcileStackResources (reconcileStackResource s r) rs).
    rewrite IH, reconcileStackResource_is_Some, fmap_cons, elem_of_cons. tauto.
Qed.

Lemma reconcileNotificationDependency_rule s r (rule : stateRule) :
  res_Kind r = KindNotificationRule →
  mRules s !! res_PkgName r = Some rule →
  ∃ s', reconcileNotificationDependency s r = Some s' ∧
        mRules s' !! res_PkgName r = Some (boundToStack s r rule).
Proof.
  intros Hk Hrule. unfold reconcileNotificationDependency, boundToStack.
  rewrite (proj2 (Kind_is_true _ _) Hk).
  destruct (find _ _) as [a|]; [|by eexists].
  rewrite Hrule. eexists. split; [done|]. simpl. by rewrite lookup_alter_eq, Hrule.
Qed.

Lemma reconcileNotificationDependency_endpoints s r s' :
  reconcileNotificationDependency s r = Some s' → mEndpoints s' = mEndpoints s.
Proof.
  unfold reconcileNotificationDependency.
  destruct (Kind_is _ _); [|by intros [= ->]].
  destruct (find _ _); [|by intros [= ->]].
  destruct (mRules s !! _); [|done]. by intros [= <-].
Qed.

Lemma boundToStack_ext s s' r :
  mEndpoints s' = mEndpoints s → boundToStack s' r = boundToStack s r.
Proof. unfold boundToStack. by intros ->. Qed.

Lemma reconcileNotificationDependencies_rules rs : ∀ s s',
  NoDup (resKey <$> rs) →
  reconcileNotificationDependencies s rs = Some s' →
  mEndpoints s' = mEndpoints s ∧
  ∀ r, r ∈ rs → res_Kind r = KindNotificationRule →
    mRules s' !! res_PkgName r = boundToStack s r <$> mRules s !! res_PkgName r.
Proof.
  unfold reconcileNotificationDependencies.
  induction rs as [|r0 rs IH]; intros s s' Hnd; simpl.
  - intros [= <-]. split; [done|]. intros r Hr. by apply elem_of_nil in Hr.
  - rewrite fmap_cons in Hnd. apply NoDup_cons in Hnd as [Hr0 Hnd].
    destruct (reconcileNotificationDependency s r0) as [s1|] eqn:H1; [|done].
    intros Hfold. destruct (IH _ _ Hnd Hfold) as [Hends Hrules].
    pose proof (reconcileNotificationDependency_endpoints _ _ _ H1) as Hends1.
    split; [by rewrite Hends|].
    intros r [->|Hr]%elem_of_cons Hk.
    + destruct (reconcileNotificationDependencies_other _ _ _ Hfold) as (_ & _ & Hother).
      pose proof (Hother FRule (res_PkgName r0)) as Hsame. simpl in Hsame.
      assert (Hs1 : mRules s' !! res_PkgName r0 = mRules s1 !! res_PkgName r0).
      { assert (Hout : (Some FRule, res_PkgName r0) ∉ resKey <$> rs).
        { unfold resKey in Hr0 at 1. by rewrite Hk in Hr0. }
        specialize (Hsame Hout).
        destruct (mRules s' !! res_PkgName r0), (mRules s1 !! res_PkgName r0);
          simpl in Hsame; congruence. }
      rewrite Hs1. destruct (mRules s !! res_PkgName r0) as [rule|] eqn:Hrule.
      * destruct (reconcileNotificationDependency_rule s r0 rule Hk Hrule) as (s1' & H1' & Hb).
        rewrite H1 in H1'. simplify_eq. by rewrite Hb.
      * simpl. destruct (reconcileNotificationDependency_other _ _ _ H1) as (_ & _ & Hget).
        revert H1. unfold reconcileNotificationDependency.
        rewrite (proj2 (Kind_is_true _ _) Hk), Hrule.
        destruct (find _ _); [done|]. intros [= <-]. by rewrite Hrule.
    + rewrite (Hrules r Hr Hk), (boundToStack_ext s s1 r Hends1). f_equal.
      destruct (reconcileNotificationDependency_other _ _ _ H1) as (_ & _ & Hget).
      pose proof (Hget FRule (res_PkgName r)) as Hsame. simpl in Hsame.
      assert (Hne : (Some FRule, res_PkgName r) ≠ resKey r0).
      { intros Heq. apply Hr0. rewrite <- Heq. apply list_elem_of_fmap. exists r.
        split; [|done]. unfold resKey. by rewrite Hk. }
      specialize (Hsame Hne).
      destruct (mRules s1 !! res_PkgName r), (mRules s !! res_PkgName r);
        simpl in Hsame; congruence.
Qed.

(** X5.  Reconciling with a well-formed stack binds every rule the stack
    names to the endpoint the stack recorded for it: the first endpoint
    association of the rule's resource, when the state has that endpoint
    (of the package, or brought in by the stack itself), and to no endpoint
    when it does not.  A rule whose resource has no endpoint association
    keeps the endpoint it had. *)
Theorem addStackState_binds_rule_to_recorded_endpoint (ResourceTypeOf : Kind → string)
    (s : stateCoordinator) (stack : Stack) :
  stackWellFormed (Stack_Resources stack) →
  labelsResolved s →
  ∃ s', addStackState ResourceTypeOf s stack = Some s' ∧
    ∀ r, r ∈ Stack_Resources stack → res_Kind r = KindNotificationRule →
      ∃ rule' : stateRule,
        mRules s' !! res_PkgName r = Some rule' ∧
        associatedEndpoint rule' =
          match find (λ a, Kind_is (ass_Kind a) KindNotificationEndpoint)
                     (res_Associations r) with
          | Some a =>
              if bool_decide (is_Some (mEndpoints s !! ass_PkgName a) ∨
                              (Some FEndpoint, ass_PkgName a)
                                ∈ resKey <$> Stack_Resources stack)
              then Some (ass_PkgName a) else None
          | None => mRules s !! res_PkgName r ≫= associatedEndpoint
          end.
Proof.
  intros Hwf Hres.
  destruct (addStackState_getF ResourceTypeOf s stack Hwf Hres) as (s' & Hadd & _).
  exists s'. split; [done|]. revert Hadd. unfold addStackState.
  destruct (reconcileLabelMappings _ _ _) as [s2|] eqn:H2; [|done]. intros H3.
  pose proof (reconcileLabelMappings_getF _ _ _ _ H2) as Hget2.
  destruct (reconcileNotificationDependencies_rules _ _ _ (proj2 Hwf) H3) as [_ Hrules].
  intros r Hr Hk. rewrite (Hrules r Hr Hk).
  assert (Hf : familyOf (res_Kind r) = Some FRule) by (by rewrite Hk).
  pose proof (reconcileStackResources_getF _ s Hwf r FRule Hr Hf) as H1.
  rewrite <- Hget2 in H1. simpl in H1.
  destruct (mRules s2 !! res_PkgName r) as [rule1|]; [|done]. simpl in H1.
  exists (boundToStack s2 r rule1). split; [done|].
  unfold boundToStack. destruct (find _ _) as [a|].
  - simpl. pose proof (reconcileStackResources_is_Some (Stack_Resources stack) s FEndpoint
                         (ass_PkgName a)) as Hiff.
    rewrite <- Hget2 in Hiff. simpl in Hiff. rewrite !fmap_is_Some in Hiff.
    case_bool_decide as Hd.
    + apply Hiff in Hd as [e ->]. done.
    + destruct (mEndpoints s2 !! ass_PkgName a) eqn:He; [|done].
      exfalso. apply Hd, Hiff. by eexists.
  - destruct (mRules s !! res_PkgName r) as [rule0|]; simpl in *; by simplify_eq.
Qed.

(** X5, witness: the stack bound [rule_1] to [endpoint_0], an endpoint
    only the stack still has. *)
Lemma addStackState_binds_rule_to_recorded_endpoint_witness :
  stackWellFormed (Stack_Resources ex_stack2) ∧
  labelsResolved (newStateCoordinator ex_rulePkg) ∧
  ∃ s', addStackState (λ k, k) (newStateCoordinator ex_rulePkg) ex_stack2 = Some s' ∧
        ∃ rule' : stateRule,
          mRules s' !! "rule_1" = Some rule' ∧ associatedEndpoint rule' = Some "endpoint_0".
Proof.
  assert (Hwf : stackWellFormed (Stack_Resources ex_stack2)).
  { split.
    - repeat constructor; vm_compute; by eexists.
    - apply (bool_decide_unpack _). vm_compute. exact I. }
  assert (Hres : labelsResolved (newStateCoordinator ex_rulePkg)).
  { apply newStateCoordinator_labelsResolved. repeat split; repeat constructor. }
  split; [exact Hwf|]. split; [exact Hres|].
  destruct (addStackState_binds_rule_to_recorded_endpoint (λ k, k)
              (newStateCoordinator ex_rulePkg) ex_stack2 Hwf Hres) as (s' & Hadd & Hrules).
  exists s'. split; [exact Hadd|].
  exact (Hrules (mkStackResource APIVersion 31%N KindNotificationRule "rule_1"
                   [mkAssociation KindNotificationEndpoint "endpoint_0"])
           ltac:(right; left) eq_refl).
Defined.

(** *** From one apply to the next: the stack that is written is the stack that is read *)

Lemma getF_family st f n o : getF st f n = Some o → obj_family o = f.
Proof. destruct f; simpl; intros (x & _ & ->)%fmap_Some; done. Qed.

Lemma familyOf_obj_kind o : familyOf (obj_kind o) = Some (obj_family o).
Proof. by destruct o. Qed.

Lemma resKey_spec_stackResource st o :
  resKey (spec_stackResource st o) = (Some (obj_family o), PkgName (obj_identity o)).
Proof. unfold resKey. simpl. by rewrite familyOf_obj_kind. Qed.

Lemma keyed_keys {X} (inj : X → stateObject) (f : kindFamily) (m : gmap string X) :
  (∀ x, obj_family (inj x) = f) →
  (λ e : string * stateObject, (Some (obj_family e.2), e.1)) <$> keyed inj m
  = (λ k, (Some f, k)) <$> (map_to_list m).*1.
Proof.
  intros Hf. unfold keyed. rewrite <- !list_fmap_compose.
  apply list_fmap_ext. intros i [k x] _. simpl. by rewrite Hf.
Qed.

Lemma keyed_NoDup {X} (inj : X → stateObject) (f : kindFamily) (m : gmap string X) :
  (∀ x, obj_family (inj x) = f) →
  NoDup ((λ e : string * stateObject, (Some (obj_family e.2), e.1)) <$> keyed inj m).
Proof.
  intros Hf. rewrite (keyed_keys inj f m Hf).
  apply NoDup_fmap_2; [|apply NoDup_fst_map_to_list]. by intros k1 k2 [= ->].
Qed.

Lemma keyed_family {X} (inj : X → stateObject) (m : gmap string X) e :
  e ∈ (λ e : string * stateObject, (Some (obj_family e.2), e.1)) <$> keyed inj m →
  ∃ x, e.1 = Some (obj_family (inj x)).
Proof.
  unfold keyed. rewrite <- list_fmap_compose.
  intros ([k x] & -> & _)%list_elem_of_fmap. by exists x.
Qed.

Lemma keyedObjects_NoDup st :
  NoDup ((λ e : string * stateObject, (Some (obj_family e.2), e.1)) <$> keyedObjects st).
Proof.
  unfold keyedObjects. rewrite !fmap_app.
  repeat (apply NoDup_app; split; [solve [eapply keyed_NoDup; intros; simpl; reflexivity]|]; split;
          [intros e [x Hx]%keyed_family; rewrite ?elem_of_app; intros Hin;
           repeat match type of Hin with _ ∨ _ => destruct Hin as [Hin|Hin] end;
           apply keyed_family in Hin as [y Hy]; rewrite Hx in Hy; discriminate Hy|]).
  eapply keyed_NoDup; intros; simpl; reflexivity.
Qed.

Lemma NoDup_fmap_filter {A B} (g : A → B) (P : A → Prop) `{∀ x, Decision (P x)} (l : list A) :
  NoDup (g <$> l) → NoDup (g <$> filter P l).
Proof.
  induction l as [|x l IH]; [done|]. rewrite fmap_cons, filter_cons.
  intros [Hx Hl]%NoDup_cons. destruct (decide (P x)); [|by apply IH].
  rewrite fmap_cons. apply NoDup_cons. split; [|by apply IH].
  intros (y & Hy & [_ Hin]%list_elem_of_filter)%list_elem_of_fmap.
  apply Hx. apply list_elem_of_fmap. by exists y.
Qed.

Lemma spec_stackResources_wellFormed st :
  wellKeyed st → stackWellFormed (spec_stackResources st).
Proof.
  intros Hk. unfold spec_stackResources. split.
  - apply Forall_forall. intros r (o & -> & _)%list_elem_of_fmap. simpl.
    rewrite familyOf_obj_kind. by eexists.
  - rewrite <- list_fmap_compose, filter_fmap_comm, <- list_fmap_compose.
    assert (Heq : (resKey ∘ spec_stackResource st ∘ snd)
                    <$> filter (λ x : string * stateObject,
                                  negb (IsRemoval (obj_stateStatus x.2))) (keyedObjects st)
                  = (λ e : string * stateObject, (Some (obj_family e.2), e.1))
                      <$> filter (λ x : string * stateObject,
                                    negb (IsRemoval (obj_stateStatus x.2))) (keyedObjects st)).
    { apply list_fmap_ext. intros i [n o] Hin. simpl. rewrite resKey_spec_stackResource.
      apply list_elem_of_lookup_2, list_elem_of_filter in Hin as [_ Hin].
      apply keyedObjects_inv in Hin as [f Hf].
      by rewrite (wellKeyed_getF st Hk f n o Hf). }
    rewrite Heq. apply NoDup_fmap_filter, keyedObjects_NoDup.
Qed.

Lemma stackWellFormed_perm rs rs' : rs ≡ₚ rs' → stackWellFormed rs' → stackWellFormed rs.
Proof. intros Hp [Hf Hnd]. split; by rewrite Hp. Qed.

Lemma spec_stackResources_elem st f n o :
  getF st f n = Some o → IsRemoval (obj_stateStatus o) = false →
  spec_stackResource st o ∈ spec_stackResources st.
Proof.
  intros Ho Hrm. unfold spec_stackResources. apply list_elem_of_fmap. exists o.
  split; [done|]. apply list_elem_of_filter. split; [by rewrite Hrm|].
  apply list_elem_of_fmap. exists (n, o). split; [done|]. by apply keyedObjects_elem with (f := f).
Qed.

Lemma stack_read_back (ResourceTypeOf : Kind → string) (st s : stateCoordinator)
    (stack : Stack) :
  wellKeyed st →
  labelsResolved s →
  Stack_Resources stack ≡ₚ spec_stackResources st →
  stackWellFormed (Stack_Resources stack) ∧
  ∃ s', addStackState ResourceTypeOf s stack = Some s' ∧
    ∀ f n o, getF st f n = Some o → IsRemoval (obj_stateStatus o) = false →
      ∃ o', getF s' f n = Some o' ∧
            obj_id o' = obj_ID o ∧
            obj_stateStatus o' = (if bool_decide (is_Some (getF s f n))
                                  then StateStatusExists else StateStatusRemove).
Proof.
  intros Hk Hres Hperm.
  assert (Hwf : stackWellFormed (Stack_Resources stack))
    by (apply (stackWellFormed_perm _ _ Hperm), spec_stackResources_wellFormed, Hk).
  split; [exact Hwf|].
  destruct (addStackState_getF ResourceTypeOf s stack Hwf Hres) as (s' & Hadd & Hget).
  exists s'. split; [exact Hadd|]. intros f n o Ho Hrm.
  pose proof (spec_stackResources_elem st f n o Ho Hrm) as Hin. rewrite <- Hperm in Hin.
  assert (Hf : familyOf (res_Kind (spec_stackResource st o)) = Some f).
  { simpl. by rewrite familyOf_obj_kind, (getF_family st f n o Ho). }
  specialize (Hget _ f Hin Hf). simpl in Hget.
  rewrite (wellKeyed_getF st Hk f n o Ho) in Hget.
  destruct (getF s' f n) as [o'|]; [|done]. simpl in Hget. injection Hget as Hget.
  exists o'. split; [done|].
  rewrite <- (obj_id_forget o'), <- (obj_stateStatus_forget o'), Hget,
    obj_id_forget, obj_stateStatus_forget.
  destruct (getF s f n) as [o0|].
  - rewrite bool_decide_eq_true_2 by (by eexists).
    by rewrite obj_id_idSet, obj_stateStatus_idSet.
  - rewrite bool_decide_eq_false_2 by (by intros [? ?]).
    by rewrite obj_id_removal, obj_stateStatus_removal.
Qed.

(** X6.  The resources a successful apply writes to the stack make a
    well-formed stack, and the next reconciliation reads back from it the
    platform id of every record that was not a removal: the record the
    next state has under the same key carries that id, as an existing
    resource when the next state already had a record under the key and as
    a removal when it had none. *)
Theorem stack_ids_round_trip {R : MapRange} (ResourceTypeOf : Kind → string)
    (st s : stateCoordinator) :
  wellKeyed st →
  labelsPresent st →
  labelsResolved s →
  ∃ rs, stackResourcesAfterSuccess st = Some rs ∧
    stackWellFormed rs ∧
    ∀ stack, Stack_Resources stack = rs →
      ∃ s', addStackState ResourceTypeOf s stack = Some s' ∧
        ∀ f n o, getF st f n = Some o → IsRemoval (obj_stateStatus o) = false →
          ∃ o', getF s' f n = Some o' ∧
                obj_id o' = obj_ID o ∧
                obj_stateStatus o' = (if bool_decide (is_Some (getF s f n))
                                      then StateStatusExists else StateStatusRemove).
Proof.
  intros Hk Hp Hres.
  destruct (stackResourcesAfterSuccess_spec st Hk Hp) as (rs & Hrs & Hperm).
  exists rs. split; [exact Hrs|].
  split; [apply (stackWellFormed_perm _ _ Hperm), spec_stackResources_wellFormed, Hk|].
  intros stack <-. by apply (stack_read_back ResourceTypeOf st s stack Hk Hres).
Qed.

(** X6, witness: the state the apply of [ex_okPkg] ends in, and the state
    of the next apply of the same package. *)
Lemma stack_ids_round_trip_witness :
  wellKeyed (state ex_machine1) ∧
  labelsPresent (state ex_machine1) ∧
  labelsResolved (newStateCoordinator ex_okPkg) ∧
  ∃ rs, stackResourcesAfterSuccess (state ex_machine1) = Some rs ∧
    stackWellFormed rs ∧
    ∀ stack, Stack_Resources stack = rs →
      ∃ s', addStackState (λ k, k) (newStateCoordinator ex_okPkg) stack = Some s' ∧
        ∀ f n o, getF (state ex_machine1) f n = Some o →
          IsRemoval (obj_stateStatus o) = false →
          ∃ o', getF s' f n = Some o' ∧
                obj_id o' = obj_ID o ∧
                obj_stateStatus o'
                = (if bool_decide (is_Some (getF (newStateCoordinator ex_okPkg) f n))
                   then StateStatusExists else StateStatusRemove).
Proof.
  assert (Hkeyed : wellKeyed (state ex_machine1)).
  { apply (bool_decide_unpack _). vm_compute. exact I. }
  assert (Hpresent : labelsPresent (state ex_machine1)).
  { apply (bool_decide_unpack _). vm_compute. exact I. }
  assert (Hres : labelsResolved (newStateCoordinator ex_okPkg)).
  { apply newStateCoordinator_labelsResolved. repeat split; repeat constructor. }
  split; [exact Hkeyed|]. split; [exact Hpresent|]. split; [exact Hres|].
  exact (stack_ids_round_trip (λ k, k) (state ex_machine1) (newStateCoordinator ex_okPkg)
           Hkeyed Hpresent Hres).
Defined.

(** *** The stack after a rollback *)
















(** *** [DryRun] and [Apply] around the appliers *)

(** X8.  A dry run changes nothing: it leaves the platform and the machine
    as they were, runs no compensation, writes no log line and never asks
    the store to update a stack; all it records is the one read of the
    stack, and only when a stack id is among the options.  It returns a
    state exactly when it returns no error. *)
Theorem DryRun_changes_nothing {W} {R : MapRange} (s : Service W) (g : Given W)
    orgID userID pkg opts (sy sy' : Sys W) res :
  DryRun s g orgID userID pkg opts sy = Some (res, sy') →
  machine sy' = machine sy ∧
  (trace sy' = trace sy ∨
   (0 < StackID (applyOptFromOptFns opts))%N ∧
   trace sy' = trace sy ++ [EvReadStackByID (StackID (applyOptFromOptFns opts))]) ∧
  (res.1.1 = None ↔ is_Some res.1.2).
Proof.
  unfold DryRun. rewrite bind_unfold.
  destruct (dryRun s g orgID pkg opts sy) as [[[[st err] pkg'] sy1]|] eqn:Hrun; [|done].
  destruct (dryRun_cases s g _ _ _ _ _ _ Hrun) as (Hm & Ht & Hres). simpl in Hres.
  destruct err as [e|]; intros [= <- <-]; simpl; (split; [done|]); (split; [done|]).
  - split; [by eexists|done].
  - destruct Hres as [[_ [? ?]]|(pkg2 & st0 & st1 & -> & _)]; [done|].
    split; [done|]. by intros [? ?].
Qed.

(** X8, witness: the dry run of [ex_okPkg] against its stack. *)
Lemma DryRun_changes_nothing_witness :
  DryRun ex_service ex_given 1%N 2%N ex_okPkg ex_stackOpts ex_sys1
    = Some (Some ex_state1, None, ex_okPkg, ex_sys1') ∧
  machine ex_sys1' = machine ex_sys1 ∧
  trace ex_sys1' = trace ex_sys1 ++ [EvReadStackByID 9%N].
Proof.
  assert (Hrun : DryRun ex_service ex_given 1%N 2%N ex_okPkg ex_stackOpts ex_sys1
                 = Some (Some ex_state1, None, ex_okPkg, ex_sys1'))
    by (vm_compute; reflexivity).
  split; [exact Hrun|].
  destruct (DryRun_changes_nothing _ _ _ _ _ _ _ _ _ Hrun) as (Hm & Ht & _).
  split; [exact Hm|]. destruct Ht as [Ht|[_ Ht]]; [|exact Ht].
  vm_compute in Ht. discriminate Ht.
Defined.

(** X9.  A run of [Apply] either gets as far as [applyState], and then is
    the run of the appliers and of the deferred calls on the state of the
    dry run, or it returns an error and no state, having changed nothing:
    the machine is as it was, no compensation ran, and the only call it may
    have recorded is the read of the stack by the dry run.  A package that
    fails validation, or whose environment references do not resolve, is
    answered with [EUnprocessableEntity] before anything is looked up. *)
Theorem Apply_reaches_applyState_or_changes_nothing {W} {R : MapRange}
    (s : Service W) (g : Given W) orgID userID pkg opts (sy sy' : Sys W) res :
  Apply s g orgID userID pkg opts sy = Some (res, sy') →
  ((∃ st pkg' sy0,
      reachesApplyState s g orgID pkg opts sy st pkg' sy0 ∧
      applyThenUnwind s g orgID userID (applyOptFromOptFns opts) st pkg' sy0
        = Some (res, sy')) ∨
   (res.1.1 = None ∧ is_Some res.1.2 ∧ machine sy' = machine sy ∧
    (trace sy' = trace sy ∨
     (0 < StackID (applyOptFromOptFns opts))%N ∧
     trace sy' = trace sy ++ [EvReadStackByID (StackID (applyOptFromOptFns opts))]))) ∧
  (∀ e pkg1,
     (if negb (isParsed pkg) then Validate g pkg else (None, pkg)) = (Some e, pkg1) →
     res = (None, Some (ErrInfluxErr EUnprocessableEntity e), pkg1) ∧ sy' = sy) ∧
  (∀ pkg1 e pkg2,
     (if negb (isParsed pkg) then Validate g pkg else (None, pkg)) = (None, pkg1) →
     applyEnvRefs g (EnvRefs (applyOptFromOptFns opts)) pkg1 = (Some e, pkg2) →
     res = (None, Some (ErrInfluxErr EUnprocessableEntity e), pkg2) ∧ sy' = sy).
Proof.
  unfold Apply.
  destruct (if negb (isParsed pkg) then Validate g pkg else (None, pkg))
    as [[e1|] pkg1] eqn:Hval.
  { intros [= <- <-]. repeat apply conj.
    - right. simpl. repeat split; eauto.
    - by intros e pkg1' [= <- <-].
    - done. }
  destruct (applyEnvRefs g (EnvRefs (applyOptFromOptFns opts)) pkg1) as [[e2|] pkg2] eqn:Henv.
  { intros [= <- <-]. repeat apply conj.
    - right. simpl. repeat split; eauto.
    - done.
    - intros pkg1' e pkg2' [= <-]. rewrite Henv. by intros [= <- <-]. }
  rewrite bind_unfold.
  destruct (dryRun s g orgID pkg2 opts sy) as [[[[st err] pkg3] sy1]|] eqn:Hrun; [|done].
  destruct (dryRun_cases s g _ _ _ _ _ _ Hrun) as (Hm & Ht & Hres). simpl in Hres.
  intros Hrest. repeat apply conj; [|done|].
  2:{ intros pkg1' e pkg2' [= <-]. by rewrite Henv. }
  destruct err as [e|].
  - injection Hrest as <- <-. right. simpl. repeat split; eauto.
  - destruct Hres as [[_ [? ?]]|(pkg2' & st0 & st1 & -> & _)]; [done|].
    left. exists st1, pkg3, sy1. split; [|exact Hrest].
    exists pkg1, pkg2. by repeat split.
Qed.

(** X9, witness: [Apply] is given a stack id the store does not know; the
    dry run fails on the read of the stack. *)
Lemma Apply_reaches_applyState_or_changes_nothing_witness :
  Apply ex_service ex_given 1%N 2%N ex_okPkg ex_stackOpts ex_sys
    = Some (None, Some (ErrInfluxMsg EInternal "reading stack: stack not found"), ex_okPkg,
            mkSys (machine ex_sys) [EvReadStackByID 9%N]) ∧
  ¬ (∃ st pkg' sy0,
       reachesApplyState ex_service ex_given 1%N ex_okPkg ex_stackOpts ex_sys st pkg' sy0) ∧
  machine (mkSys (machine ex_sys) [EvReadStackByID 9%N]) = machine ex_sys.
Proof.
  assert (Hrun : Apply ex_service ex_given 1%N 2%N ex_okPkg ex_stackOpts ex_sys
                 = Some (None, Some (ErrInfluxMsg EInternal "reading stack: stack not found"),
                         ex_okPkg, mkSys (machine ex_sys) [EvReadStackByID 9%N]))
    by (vm_compute; reflexivity).
  assert (Hno : ¬ (∃ st pkg' sy0, reachesApplyState ex_service ex_given 1%N ex_okPkg
                                    ex_stackOpts ex_sys st pkg' sy0)).
  { intros (st & pkg' & sy0 & pkg1 & pkg2 & [= <-] & [= <-] & Hdry).
    vm_compute in Hdry. discriminate Hdry. }
  split; [exact Hrun|]. split; [exact Hno|].
  destruct (Apply_reaches_applyState_or_changes_nothing _ _ _ _ _ _ _ _ _ Hrun)
    as ([(st0 & pkg0 & sy0 & Hreach & _)|(_ & _ & Hm & _)] & _ & _).
  - destruct Hno. by exists st0, pkg0, sy0.
  - exact Hm.
Defined.

(** X10.  Once every applier has succeeded, [Apply] succeeds, whatever the
    stack store answers: a failure to read the stack, or to write it, is
    written to the log as "failed to update stack" and is not returned, no
    compensation runs, and the state the appliers left is the result. *)
Theorem stack_update_failure_is_only_logged {W} {R : MapRange} (s : Service W) (g : Given W)
    orgID userID pkg opts (sy : Sys W) st pkg' sy0 coordinator m2 :
  reachesApplyState s g orgID pkg opts sy st pkg' sy0 →
  applyState s g (mkCoordinator []) orgID userID
    (MissingSecrets (applyOptFromOptFns opts)) (entered st sy0) = Some (None, coordinator, m2) →
  StackID (applyOptFromOptFns opts) ≠ 0%N →
  (∀ err,
     ReadStackByID (store s) (StackID (applyOptFromOptFns opts)) (world m2) = inl err →
     Apply s g orgID userID pkg opts sy
     = Some (Some (state m2), None,
             pkg_applySecrets g (MissingSecrets (applyOptFromOptFns opts)) pkg',
             mkSys m2 (trace sy0 ++ [EvReadStackByID (StackID (applyOptFromOptFns opts));
                                     EvLogError "failed to update stack" err]))) ∧
  (∀ stack rs,
     ReadStackByID (store s) (StackID (applyOptFromOptFns opts)) (world m2) = inr stack →
     stackResourcesAfterSuccess (state m2) = Some rs →
     let stack' := set_Stack_UpdatedAt (Now g) (set_Stack_Resources rs stack) in
     let upd := UpdateStack (store s) stack' (world m2) in
     Apply s g orgID userID pkg opts sy
     = Some (Some (state m2), None,
             pkg_applySecrets g (MissingSecrets (applyOptFromOptFns opts)) pkg',
             mkSys (set_world (λ _, upd.1) m2)
               (trace sy0
                ++ [EvReadStackByID (StackID (applyOptFromOptFns opts)); EvUpdateStack stack']
                ++ match upd.2 with
                   | Some err => [EvLogError "failed to update stack" err]
                   | None => []
                   end))).
Proof.
  intros Hreach Happly Hstack.
  rewrite (Apply_succeeds s g _ _ _ _ _ _ _ _ _ _ Hreach Happly).
  rewrite deferredStackUpdate_unfold.
  apply N.eqb_neq in Hstack. rewrite Hstack.
  rewrite updateStackAfterSuccess_unfold. simpl. split.
  - intros err ->. simpl. by rewrite <- app_assoc.
  - intros stack rs -> ->. rewrite store_UpdateStack_unfold. simpl.
    destruct (UpdateStack (store s) _ (world m2)) as [w' [err|]]; simpl;
      by rewrite <- ?app_assoc, ?app_nil_r.
Qed.

(** X10, witness: the apply of [ex_okPkg] with its stack, on the platform
    whose stack store refuses to write. *)
Lemma stack_update_failure_is_only_logged_witness :
  reachesApplyState ex_readOnlyService ex_given 1%N ex_okPkg ex_stackOpts ex_sys1
    ex_state1 ex_okPkg ex_sys1' ∧
  StackID (applyOptFromOptFns ex_stackOpts) ≠ 0%N ∧
  stackResourcesAfterSuccess (state ex_machineRO) = Some ex_resourcesRO ∧
  Apply ex_readOnlyService ex_given 1%N 2%N ex_okPkg ex_stackOpts ex_sys1
  = Some (Some (state ex_machineRO), None, ex_okPkg,
          mkSys ex_machineRO
            (trace ex_sys1'
             ++ [EvReadStackByID 9%N;
                 EvUpdateStack (set_Stack_UpdatedAt 1000%Z
                                  (set_Stack_Resources ex_resourcesRO ex_stack1));
                 EvLogError "failed to update stack" (ErrNew "stack store is read-only" [])])).
Proof.
  assert (Hreach : reachesApplyState ex_readOnlyService ex_given 1%N ex_okPkg ex_stackOpts
                     ex_sys1 ex_state1 ex_okPkg ex_sys1').
  { exists ex_okPkg, ex_okPkg. split; [reflexivity|]. split; [reflexivity|].
    vm_compute. reflexivity. }
  assert (Happly : applyState ex_readOnlyService ex_given (mkCoordinator []) 1%N 2%N
                     (MissingSecrets (applyOptFromOptFns ex_stackOpts))
                     (entered ex_state1 ex_sys1')
                   = Some (None, ex_coordinatorRO, ex_machineRO))
    by (vm_compute; reflexivity).
  assert (Hstack : StackID (applyOptFromOptFns ex_stackOpts) ≠ 0%N) by done.
  assert (Hrs : stackResourcesAfterSuccess (state ex_machineRO) = Some ex_resourcesRO)
    by (vm_compute; reflexivity).
  assert (Hread : ReadStackByID (store ex_readOnlyService)
                    (StackID (applyOptFromOptFns ex_stackOpts)) (world ex_machineRO)
                  = inr ex_stack1) by (vm_compute; reflexivity).
  split; [exact Hreach|]. split; [exact Hstack|]. split; [exact Hrs|].
  destruct (stack_update_failure_is_only_logged ex_readOnlyService ex_given 1%N 2%N ex_okPkg
              ex_stackOpts ex_sys1 ex_state1 ex_okPkg ex_sys1' ex_coordinatorRO ex_machineRO
              Hreach Happly Hstack) as [_ Hwrite].
  specialize (Hwrite ex_stack1 ex_resourcesRO Hread Hrs). cbv zeta in Hwrite.
  rewrite Hwrite. vm_compute. reflexivity.
Defined.
